(** * Text-run composition for Affinity SVG exports

    A shallow embedding of the two scripts that rewrite the textual
    content of an SVG element tree:

    - [rename_test.py]: update the text of the elements whose [id] is
      ["TITLE"] or ["DESCRIPTION"];
    - [fix_affinity_svg.py]: turn literal backslash-n sequences inside
      [<text>] elements into [<tspan>] line runs.

    Python strings are modelled as [string]; every [ascii] stands for the
    code point of the same number, so the model covers the strings whose
    code points are below 256.  An element is a value of the inductive
    type [Element]; a node of a tree is named by the path of child
    indices that leads to it, which plays the role of the object identity
    that the scripts rely on ([node is except_node], [list.index]). *)

From Stdlib Require Import Bool Arith List Lia ZArith.
From Stdlib Require Import Ascii String.
From Stdlib Require Import SpecFloat DecimalString.
Import ListNotations.

Set Warnings "-register-all".

Local Open Scope string_scope.
Local Open Scope list_scope.

(** ** Python string primitives *)

Module PyStr.

(** [str.isspace] on one character, which is also what the regular
    expression class [\s] accepts. *)
Definition is_space (c : ascii) : bool :=
  let n := nat_of_ascii c in
  (((9 <=? n) && (n <=? 13)) || ((28 <=? n) && (n <=? 32))
   || (n =? 133) || (n =? 160))%nat.

Definition is_digit_or_dot (c : ascii) : bool :=
  let n := nat_of_ascii c in
  (((48 <=? n) && (n <=? 57)) || (n =? 46))%nat.

Definition backslash : ascii := ascii_of_nat 92.
Definition line_feed : ascii := ascii_of_nat 10.

(** The two-character escape marker, a backslash followed by [n]. *)
Definition marker : string := String backslash "n".

(** [sub in s] *)
Fixpoint contains (sub s : string) : bool :=
  match s with
  | EmptyString => prefix sub EmptyString
  | String _ t => prefix sub s || contains sub t
  end.

(** [s.endswith(suf)] *)
Fixpoint endswith (suf s : string) : bool :=
  String.eqb suf s ||
  match s with
  | EmptyString => false
  | String _ t => endswith suf t
  end.

(** [s.split(sep)] for a separator of one character. *)
Fixpoint split_char (sep : ascii) (s : string) : list string :=
  match s with
  | EmptyString => [EmptyString]
  | String c t =>
      if Ascii.eqb c sep then EmptyString :: split_char sep t
      else match split_char sep t with
           | h :: r => String c h :: r
           | [] => [String c EmptyString]
           end
  end.

(** [s.split("\\n")]: the separator is the escape marker. *)
Fixpoint split_marker (s : string) : list string :=
  match s with
  | EmptyString => [EmptyString]
  | String c t =>
      let keep :=
        match split_marker t with
        | h :: r => String c h :: r
        | [] => [String c EmptyString]
        end in
      match t with
      | String d u =>
          if Ascii.eqb c backslash && Ascii.eqb d "n"
          then EmptyString :: split_marker u
          else keep
      | EmptyString => keep
      end
  end.

(** [s.count("\\n")] *)
Fixpoint count_marker (s : string) : nat :=
  match s with
  | EmptyString => 0
  | String c t =>
      match t with
      | String d u =>
          if Ascii.eqb c backslash && Ascii.eqb d "n"
          then S (count_marker u)
          else count_marker t
      | EmptyString => 0
      end
  end.

(** [sep.join(l)] *)
Fixpoint join (sep : string) (l : list string) : string :=
  match l with
  | [] => EmptyString
  | [x] => x
  | x :: r => x ++ sep ++ join sep r
  end.

Fixpoint lstrip (p : ascii -> bool) (s : string) : string :=
  match s with
  | EmptyString => EmptyString
  | String c t => if p c then lstrip p t else s
  end.

Fixpoint rstrip (p : ascii -> bool) (s : string) : string :=
  match s with
  | EmptyString => EmptyString
  | String c t =>
      match rstrip p t with
      | EmptyString => if p c then EmptyString else String c EmptyString
      | r => String c r
      end
  end.

(** [s.strip()] and [s.strip(chars)] *)
Definition strip_by (p : ascii -> bool) (s : string) : string :=
  rstrip p (lstrip p s).

Definition strip (s : string) : string := strip_by is_space s.

(** [s.split()]: the maximal runs of characters that are not white space. *)
Fixpoint split_ws (s : string) : list string :=
  match s with
  | EmptyString => []
  | String c t =>
      if is_space c then split_ws t
      else match t with
           | EmptyString => [String c EmptyString]
           | String d _ =>
               if is_space d then String c EmptyString :: split_ws t
               else match split_ws t with
                    | h :: r => String c h :: r
                    | [] => [String c EmptyString]
                    end
           end
  end.

(** Truth value of a string: [if s] *)
Definition truthy (s : string) : bool :=
  match s with EmptyString => false | _ => true end.

Definition opt_truthy (o : option string) : bool :=
  match o with Some s => truthy s | None => false end.

End PyStr.

(** ** The element tree *)

Module ETree.

(** An ElementTree element: tag, attributes in document order, leading
    text, the tail text that follows the element inside its parent, and
    the child elements.  [None] is Python's [None]. *)
Inductive Element : Type :=
  mkElement {
    tag : string;
    attrib : list (string * string);
    text : option string;
    tail : option string;
    children : list Element }.

Definition path := list nat.

(** [el.get(key)] *)
Fixpoint get (key : string) (a : list (string * string)) : option string :=
  match a with
  | [] => None
  | (k, v) :: r => if String.eqb k key then Some v else get key r
  end.

(** [el.set(key, value)]: an existing key keeps its position. *)
Fixpoint set (key value : string) (a : list (string * string))
  : list (string * string) :=
  match a with
  | [] => [(key, value)]
  | (k, v) :: r =>
      if String.eqb k key then (k, value) :: r else (k, v) :: set key value r
  end.

Definition set_attrib (a : list (string * string)) (e : Element) : Element :=
  mkElement (tag e) a (text e) (tail e) (children e).
Definition set_text (t : option string) (e : Element) : Element :=
  mkElement (tag e) (attrib e) t (tail e) (children e).
Definition set_tail (t : option string) (e : Element) : Element :=
  mkElement (tag e) (attrib e) (text e) t (children e).
Definition set_children (l : list Element) (e : Element) : Element :=
  mkElement (tag e) (attrib e) (text e) (tail e) l.

(** Number of elements of a subtree. *)
Fixpoint size (e : Element) : nat :=
  S (list_sum (map size (children e))).

(** The element reached from [e] along a path of child indices. *)
Fixpoint get_path (e : Element) (p : path) : option Element :=
  match p with
  | [] => Some e
  | i :: q =>
      match nth_error (children e) i with
      | Some c => get_path c q
      | None => None
      end
  end.

Fixpoint update_nth {A} (f : A -> A) (i : nat) (l : list A) : list A :=
  match l, i with
  | [], _ => []
  | x :: r, 0 => f x :: r
  | x :: r, S j => x :: update_nth f j r
  end.

(** In-place mutation of the element at a path, seen from the root. *)
Fixpoint update_path (f : Element -> Element) (p : path) (e : Element)
  : Element :=
  match p with
  | [] => f e
  | i :: q => set_children (update_nth (update_path f q) i (children e)) e
  end.

(** The paths of the children of the element [node] found at path [p]:
    what [list(node)] enumerates. *)
Definition child_paths (p : path) (node : Element) : list path :=
  map (fun i => p ++ [i]) (seq 0 (List.length (children node))).

Definition path_eqb (p q : path) : bool :=
  if list_eq_dec Nat.eq_dec p q then true else false.

End ETree.

Module Traversal.
Import ETree.

(** The paths of a subtree in document order (pre-order), the root of the
    subtree first. *)
Fixpoint subtree_paths (p : path) (e : Element) : list path :=
  p :: (fix forest (i : nat) (l : list Element) : list path :=
          match l with
          | [] => []
          | c :: r => subtree_paths (p ++ [i]) c ++ forest (S i) r
          end) 0 (children e).

(** The paths of the subtrees of a list of siblings, the first of which
    is child number [i] of the element at [p]. *)
Fixpoint forest_paths (p : path) (i : nat) (l : list Element) : list path :=
  match l with
  | [] => []
  | c :: r => subtree_paths (p ++ [i]) c ++ forest_paths p (S i) r
  end.

(** The proper descendants of [e] in document order: what [e.iter()]
    yields after [e] itself, and what the path [.//*] selects. *)
Definition descendant_paths (e : Element) : list path :=
  tl (subtree_paths [] e).

(** All the elements of a forest of subtrees given by their paths. *)
Definition walk (root : Element) (stack : list path) : list path :=
  flat_map (fun p => match get_path root p with
                     | Some n => subtree_paths p n
                     | None => []
                     end) stack.

End Traversal.

(** ** rename_test.py *)

Module RenameTest.
Import PyStr ETree Traversal.

(** [[
def localname(tag):
    return tag.split("}")[-1] if "}" in tag else tag
]] *)
Definition localname (tag : string) : string :=
  if contains "}" tag then last (split_char "}" tag) EmptyString else tag.

(** [root.find(".//*[@id='elem_id']")]: the first proper descendant of
    [root], in document order, whose [id] attribute is [elem_id]. *)
Definition has_id (root : Element) (elem_id : string) (p : path) : bool :=
  match get_path root p with
  | Some n =>
      match get "id" (attrib n) with
      | Some v => String.eqb v elem_id
      | None => false
      end
  | None => false
  end.

Definition _find_by_id (root : Element) (elem_id : string) : option path :=
  find (has_id root elem_id) (descendant_paths root).

(** [localname(node.tag) in ("text", "tspan")] *)
Definition is_text_or_tspan (node : Element) : bool :=
  let ln := localname (tag node) in
  String.eqb ln "text" || String.eqb ln "tspan".

(** The node at path [p] of [elem] is a [<text>] or a [<tspan>]. *)
Definition text_bearing (elem : Element) (p : path) : bool :=
  match get_path elem p with
  | Some node => is_text_or_tspan node
  | None => false
  end.

(** The loop of [_find_text_or_tspan_descendant]; [stack] holds the nodes
    still to visit, [fuel] bounds the number of iterations.  The outer
    [None] means that the fuel ran out.
[[
    while stack:
        node = stack.pop(0)
        ln = localname(node.tag)
        if ln in ("text", "tspan"):
            return node
        stack[0:0] = list(node)
    return None
]] *)
Fixpoint find_loop (fuel : nat) (elem : Element) (stack : list path)
  : option (option path) :=
  match stack with
  | [] => Some None
  | p :: rest =>
      match fuel with
      | 0 => None
      | S fuel' =>
          match get_path elem p with
          | None => None
          | Some node =>
              if is_text_or_tspan node then Some (Some p)
              else find_loop fuel' elem (child_paths p node ++ rest)
          end
      end
  end.

(** [stack = list(elem)], then the loop.  The result is a path relative to
    [elem]. *)
Definition _find_text_or_tspan_descendant (elem : Element) : option path :=
  match find_loop (size elem) elem (child_paths [] elem) with
  | Some r => r
  | None => None
  end.

(** What [_clear_all_text_descendants] does to a [<text>] or [<tspan>]
    node that is not the excepted one.
[[
            node.text = ""
            for ch in list(node):
                ch.text = ""
                ch.tail = ""
            node.tail = ""
]] *)
Definition clear_child (ch : Element) : Element :=
  set_tail (Some "") (set_text (Some "") ch).

(** The node itself: its text, its children, its tail. *)
Definition clear_node (node : Element) : Element :=
  set_tail (Some "")
    (set_children (map clear_child (children node))
       (set_text (Some "") node)).

(** The loop of [_clear_all_text_descendants]: the tree is mutated in
    place, so the state is the tree rooted at [elem] together with the
    stack of nodes still to visit.
[[
    while stack:
        node = stack.pop(0)
        if node is except_node:
            stack[0:0] = list(node)
            continue
        if ln(node.tag) in ("text", "tspan"):
            ...
        stack[0:0] = list(node)
]] *)
Fixpoint clear_loop (fuel : nat) (except_node : option path)
  (elem : Element) (stack : list path) : option Element :=
  match stack with
  | [] => Some elem
  | p :: rest =>
      match fuel with
      | 0 => None
      | S fuel' =>
          match get_path elem p with
          | None => None
          | Some node =>
              if match except_node with
                 | Some q => path_eqb p q
                 | None => false
                 end
              then clear_loop fuel' except_node elem
                     (child_paths p node ++ rest)
              else
                let elem' :=
                  if is_text_or_tspan node
                  then update_path clear_node p elem
                  else elem in
                clear_loop fuel' except_node elem'
                  (child_paths p node ++ rest)
          end
      end
  end.

(** [stack = list(elem)], then the loop: the tree rooted at [elem] after
    the call.  [except_node] is a path relative to [elem]. *)
Definition _clear_all_text_descendants (elem : Element)
  (except_node : option path) : Element :=
  match clear_loop (size elem) except_node elem (child_paths [] elem) with
  | Some elem' => elem'
  | None => elem
  end.

(** [[
def _apply_value_to_node(node, value: str):
    node.text = value
    for child in list(node):
        child.text = ""
        child.tail = ""
    node.tail = ""
]] *)
Definition _apply_value_to_node (node : Element) (value : string) : Element :=
  set_tail (Some "")
    (set_children (map clear_child (children node))
       (set_text (Some value) node)).

(** [localname(c.tag) == "tspan"] *)
Definition is_tspan (c : Element) : bool :=
  String.eqb (localname (tag c)) "tspan".

(** [[
    def _children_tspans(e):
        return [c for c in list(e) if localname(c.tag) == "tspan"]
]] *)
Definition _children_tspans (e : Element) : list Element :=
  filter is_tspan (children e).

(** The two loops over [tspans] in the [<text>] branch, run over the
    children of the element: the [i]-th [<tspan>] child receives
    [lines[i] if i < len(lines) else ""] and then an empty tail; the
    other children are left alone. *)
Fixpoint distribute (lines : list string) (i : nat) (l : list Element)
  : list Element :=
  match l with
  | [] => []
  | c :: r =>
      if is_tspan c
      then set_tail (Some "") (_apply_value_to_node c (nth i lines ""))
             :: distribute lines (S i) r
      else c :: distribute lines i r
  end.

(** The part of [_set_text] after the group indirection. *)
Definition set_text_node (elem : Element) (value : string) : Element :=
  let tag := localname (tag elem) in
  if String.eqb tag "tspan" then _apply_value_to_node elem value
  else if String.eqb tag "text" then
    match _children_tspans elem with
    | [] => set_text (Some value) elem
    | _ :: _ =>
        let lines := split_char line_feed value in
        set_text None
          (set_children (distribute lines 0 (children elem)) elem)
    end
  else set_text (Some value) elem.

(** [_set_text(elem, value)]: the subtree rooted at [elem] after the call. *)
Definition _set_text (elem : Element) (value : string) : Element :=
  if String.eqb (localname (tag elem)) "g" then
    match _find_text_or_tspan_descendant elem with
    | None => elem
    | Some target =>
        let cleared := _clear_all_text_descendants elem (Some target) in
        update_path (fun e => set_text_node e value) target cleared
    end
  else set_text_node elem value.

(** [[
def set_text_by_id(root, field_id: str, value: str) -> bool:
    elem = _find_by_id(root, field_id)
    if elem is None:
        return False
    _set_text(elem, value)
    return True
]]
    The tree after the call, and the returned flag. *)
Definition set_text_by_id (root : Element) (field_id value : string)
  : Element * bool :=
  match _find_by_id root field_id with
  | None => (root, false)
  | Some p => (update_path (fun e => _set_text e value) p root, true)
  end.

(** Whether an identifier is bound in the document. *)
Definition bound (root : Element) (field_id : string) : bool :=
  match _find_by_id root field_id with
  | Some _ => true
  | None => false
  end.

(** The command line and the file system as [main] sees them: the
    arguments, whether the input exists, what parsing it gives ([None]
    when the parser raises) and whether the final write succeeds. *)
Record Invocation := mkInvocation {
  title : option string;
  description : option string;
  out : option string;
  svg_exists : bool;
  parsed : option Element;
  write_ok : bool }.

(** What one run of [main] leaves behind: the exit status, the lines
    printed on the standard error stream, whether a backup was made and
    the tree that was written, if any. *)
Record Run := mkRun {
  exit_status : nat;
  stderr : list string;
  backup_made : bool;
  written : option Element }.

Definition no_field_warning : string :=
  "WARNING: No elements with id='TITLE' or id='DESCRIPTION' were found.".

(** [[
    updated_any = False
    if args.title is not None:
        updated_any |= set_text_by_id(root, "TITLE", args.title)
    if args.description is not None:
        updated_any |= set_text_by_id(root, "DESCRIPTION", args.description)
]]
    The tree after the two updates, and [updated_any]. *)
Definition update_fields (inv : Invocation) (root : Element)
  : Element * bool :=
  let updated_any := false in
  let '(root, updated_any) :=
    match title inv with
    | Some t =>
        let '(r, b) := set_text_by_id root "TITLE" t in (r, updated_any || b)
    | None => (root, updated_any)
    end in
  match description inv with
  | Some d =>
      let '(r, b) := set_text_by_id root "DESCRIPTION" d in
      (r, updated_any || b)
  | None => (root, updated_any)
  end.

(** [main()]: the three early exits with status 1, the updates, the
    warning, the backup and the write.  The messages that quote a file
    name or an exception are cut down to their fixed part.
[[
    if not args.svg_path.exists(): ... sys.exit(1)
    if not (args.title or args.description): ... sys.exit(1)
    try: tree = ET.parse(...)
    except Exception as e: ... sys.exit(1)
    ...
    if not updated_any:
        print("WARNING: No elements ... were found.", file=sys.stderr)
    if args.out is None:
        bkp = backup_file(args.svg_path)
    try: tree.write(...)
    except Exception as e: ... sys.exit(1)
]] *)
Definition main (inv : Invocation) : Run :=
  if negb (svg_exists inv) then
    mkRun 1 ["ERROR: input not found."] false None
  else if negb (opt_truthy (title inv) || opt_truthy (description inv)) then
    mkRun 1 ["Nothing to do: provide --title and/or --description."]
      false None
  else
    match parsed inv with
    | None => mkRun 1 ["ERROR parsing SVG"] false None
    | Some root =>
        let '(root', updated_any) := update_fields inv root in
        let warnings := if updated_any then [] else [no_field_warning] in
        let backup := match out inv with None => true | Some _ => false end in
        if write_ok inv then mkRun 0 warnings backup (Some root')
        else mkRun 1 (warnings ++ ["ERROR writing output"]) backup None
    end.

(** What [ap.parse_args()] makes of the command line: with [-h] or
    [--help] it prints the help and exits with status 0; on a command
    line that it cannot read (no path, an option without its value, an
    unknown option) it prints the usage and an error on the error stream
    and exits with status 2; otherwise it returns the arguments. *)
Inductive CommandLine : Type :=
  | AskForHelp
  | UsageError
  | Accepted (inv : Invocation).

(** [main()] from its first line on. *)
Definition main_from_command_line (cl : CommandLine) : Run :=
  match cl with
  | AskForHelp => mkRun 0 [] false None
  | UsageError => mkRun 2 ["usage error"] false None
  | Accepted inv => main inv
  end.

End RenameTest.

(** ** Python floats

    A Python [float] is an IEEE 754 binary64 number; the operations are
    those of the standard library's [SpecFloat] at precision 53. *)

Module PyFloat.
Local Open Scope Z_scope.

Definition float := spec_float.
Definition prec : Z := 53.
Definition emax : Z := 1024.

(** [x * y] *)
Definition mul (x y : float) : float := SFmul prec emax x y.

(** The float nearest to the quotient of two positive integers. *)
Definition of_ratio (n d : Z) : float :=
  if n =? 0 then S754_zero false
  else
    let '(mz, ez, lz) := SFdiv_core_binary prec emax n 0 d 0 in
    binary_round_aux prec emax false mz ez lz.

Definition digit_value (c : ascii) : Z := Z.of_nat (nat_of_ascii c) - 48.

(** Reading a plain decimal numeral: the digits seen so far as an
    integer, the number of digits after the point, whether a point and
    whether a digit has been seen. *)
Fixpoint scan_decimal (s : string) (mant frac : Z) (dot digit : bool)
  : option (Z * Z) :=
  match s with
  | EmptyString => if digit then Some (mant, frac) else None
  | String c t =>
      if Ascii.eqb c "." then
        if dot then None else scan_decimal t mant frac true digit
      else if PyStr.is_digit_or_dot c then
        scan_decimal t (10 * mant + digit_value c)
          (if dot then frac + 1 else frac) dot true
      else None
  end.

(** [float(s)] for a string made of digits and points, the only strings
    that [parse_font_size] passes to it; [None] stands for [ValueError]. *)
Definition float_of_string (s : string) : option float :=
  match scan_decimal s 0 0 false false with
  | Some (mant, frac) => Some (of_ratio mant (10 ^ frac))
  | None => None
  end.

(** Truth value of a float: only zero is false. *)
Definition truthy (x : float) : bool :=
  match x with
  | S754_zero _ => false
  | _ => true
  end.

(** [a or b] where [a] is a float or [None] *)
Definition or_else (a : option float) (b : option float) : option float :=
  match a with
  | Some x => if truthy x then a else b
  | None => b
  end.

Definition or_default (a : option float) (b : float) : float :=
  match a with
  | Some x => if truthy x then x else b
  | None => b
  end.

(** *** [repr] of a float

    [repr] prints the shortest decimal numeral that reads back as the
    same float and, among those, the one nearest to it. *)

Definition ratio := (Z * Z)%type.

Definition scaled (k e : Z) : ratio :=
  if 0 <=? e then (k * 2 ^ e, 1) else (k, 2 ^ (- e)).

Definition pow10 (k : Z) : ratio :=
  if 0 <=? k then (10 ^ k, 1) else (1, 10 ^ (- k)).

Definition rle (a b : ratio) : bool := fst a * snd b <=? fst b * snd a.
Definition rlt (a b : ratio) : bool := fst a * snd b <? fst b * snd a.
Definition rmul (a b : ratio) : ratio := (fst a * fst b, snd a * snd b).
Definition rsub (a b : ratio) : ratio :=
  (fst a * snd b - fst b * snd a, snd a * snd b).
Definition rfloor (a : ratio) : Z := fst a / snd a.

(** The least [k], counted from [k0], with [x < 10 ^ k]. *)
Fixpoint decimal_point (fuel : nat) (k0 : Z) (x : ratio) : Z :=
  match fuel with
  | O => k0
  | S f => if rlt x (pow10 k0) then k0 else decimal_point f (k0 + 1) x
  end.

(** The interval of the reals that round to the float [m * 2 ^ e]. *)
Definition rounds_back (m e : Z) (v : ratio) : bool :=
  let lo :=
    if (m =? 2 ^ (prec - 1)) && (3 - emax - prec <? e)
    then scaled (4 * m - 1) (e - 2)
    else scaled (4 * m - 2) (e - 2) in
  let hi := scaled (4 * m + 2) (e - 2) in
  if Z.even m then rle lo v && rle v hi else rlt lo v && rlt v hi.

(** The digits [d] and the exponent [t] of the shortest numeral
    [d * 10 ^ t] for [m * 2 ^ e], trying [n], [n + 1], ... digits. *)
Fixpoint shortest (fuel : nat) (n : Z) (m e k : Z) : Z * Z :=
  let x := scaled m e in
  let t := k - n in
  let d := rfloor (rmul x (pow10 (- t))) in
  let below := rmul (d, 1) (pow10 t) in
  let above := rmul (d + 1, 1) (pow10 t) in
  let ok_below := rounds_back m e below in
  let ok_above := rounds_back m e above in
  let nearer_below :=
    let db := rsub x below in
    let da := rsub above x in
    rlt db da || (rle db da && Z.even d) in
  if ok_below && (negb ok_above || nearer_below) then (d, t)
  else if ok_above then (d + 1, t)
  else match fuel with
       | O => (d, t)
       | S f => shortest f (n + 1) m e k
       end.

Fixpoint strip_zeros (fuel : nat) (d t : Z) : Z * Z :=
  match fuel with
  | O => (d, t)
  | S f => if (d mod 10 =? 0) && (0 <? d) then strip_zeros f (d / 10) (t + 1)
           else (d, t)
  end.

Definition decimal (n : Z) : string :=
  DecimalString.NilZero.string_of_uint (N.to_uint (Z.to_N n)).

Fixpoint zeros (n : nat) : string :=
  match n with
  | O => EmptyString
  | S k => String "0" (zeros k)
  end.

(** The layout rules of [repr]: [digits] are the significant digits and
    the value is [0.digits * 10 ^ decpt]. *)
Definition layout (digits : string) (decpt : Z) : string :=
  let n := Z.of_nat (String.length digits) in
  if (decpt <=? -4) || (16 <? decpt) then
    let e := decpt - 1 in
    let mantissa :=
      match digits with
      | String c EmptyString => String c EmptyString
      | String c r => String c ("." ++ r)
      | EmptyString => EmptyString
      end in
    let sign := if e <? 0 then "-"%string else "+"%string in
    let pad := if Z.abs e <? 10 then "0"%string else EmptyString in
    (mantissa ++ "e" ++ sign ++ pad ++ decimal (Z.abs e))%string
  else if decpt <=? 0 then
    ("0." ++ zeros (Z.to_nat (- decpt)) ++ digits)%string
  else if n <=? decpt then
    (digits ++ zeros (Z.to_nat (decpt - n)) ++ ".0")%string
  else
    (substring 0 (Z.to_nat decpt) digits ++ "."
       ++ substring (Z.to_nat decpt) (Z.to_nat (n - decpt)) digits)%string.

(** [repr(x)], which is also what an f-string prints for [{x}]. *)
Definition repr (x : float) : string :=
  match x with
  | S754_nan => "nan"%string
  | S754_infinity s => if s then "-inf"%string else "inf"%string
  | S754_zero s => if s then "-0.0"%string else "0.0"%string
  | S754_finite s m e =>
      let x := scaled (Zpos m) e in
      let k := decimal_point 640 (-324) x in
      let '(d, t) := shortest 17 1 (Zpos m) e k in
      let '(d, t) := strip_zeros 400 d t in
      let digits := decimal d in
      let body := layout digits (Z.of_nat (String.length digits) + t) in
      if s then ("-" ++ body)%string else body
  end.

End PyFloat.

(** ** fix_affinity_svg.py *)

Module FixAffinity.
Import PyStr ETree.

(** *** The two regular expressions

    Both patterns are sequences of literals, greedy character classes and
    one optional character in which no class overlaps what follows it, so
    that backtracking never finds a match that the greedy reading
    misses; the matchers below read them from left to right. *)

(** What is left of [s] after the literal [p], if [s] starts with it. *)
Fixpoint drop_prefix (p s : string) : option string :=
  match p, s with
  | EmptyString, _ => Some s
  | String a p', String b s' =>
      if Ascii.eqb a b then drop_prefix p' s' else None
  | String _ _, EmptyString => None
  end.

(** The longest prefix of characters in a class, and the rest. *)
Fixpoint span (p : ascii -> bool) (s : string) : string * string :=
  match s with
  | EmptyString => (EmptyString, EmptyString)
  | String c t =>
      if p c then let '(a, b) := span p t in (String c a, b)
      else (EmptyString, s)
  end.

(** [font-size\s*:\s*([0-9.]+)px] matched at the start of [s]: group 1. *)
Definition match_font_size (s : string) : option string :=
  match drop_prefix "font-size" s with
  | None => None
  | Some r1 =>
      match lstrip is_space r1 with
      | String c r2 =>
          if Ascii.eqb c ":" then
            let '(num, r3) := span is_digit_or_dot (lstrip is_space r2) in
            if truthy num && prefix "px" r3 then Some num else None
          else None
      | EmptyString => None
      end
  end.

(** [re.search]: the leftmost match. *)
Fixpoint search_font_size (s : string) : option string :=
  match match_font_size s with
  | Some g => Some g
  | None =>
      match s with
      | EmptyString => None
      | String _ t => search_font_size t
      end
  end.

(** [[
def parse_font_size(style_attr: str):
    if not style_attr:
        return None
    m = re.search(r'font-size\s*:\s*([0-9.]+)px', style_attr)
    if m:
        try:
            return float(m.group(1))
        except ValueError:
            return None
    return None
]] *)
Definition parse_font_size (style_attr : option string)
  : option PyFloat.float :=
  match style_attr with
  | None => None
  | Some s =>
      if negb (truthy s) then None
      else match search_font_size s with
           | Some g => PyFloat.float_of_string g
           | None => None
           end
  end.

(** [[
def get_text_x(element):
    x = element.get("x")
    if x:
        parts = x.strip().split()
        if parts:
            return parts[0]
    return None
]] *)
Definition get_text_x (element : Element) : option string :=
  match get "x" (attrib element) with
  | Some x =>
      if truthy x then
        match split_ws (strip x) with
        | part :: _ => Some part
        | [] => None
        end
      else None
  | None => None
  end.

Definition not_semicolon (c : ascii) : bool := negb (Ascii.eqb c ";").

(** [white-space\s*:\s*[^;]+;?] matched at the start of [s]: the length of
    the match.  After the colon, [\s*[^;]+] takes the whole run of
    characters up to the next semicolon, which must not be empty. *)
Definition match_white_space (s : string) : option nat :=
  match drop_prefix "white-space" s with
  | None => None
  | Some r1 =>
      let '(ws, r2) := span is_space r1 in
      match r2 with
      | String c r3 =>
          if Ascii.eqb c ":" then
            let '(run, r4) := span not_semicolon r3 in
            if truthy run then
              Some (11 + String.length ws + 1 + String.length run
                    + (if prefix ";" r4 then 1 else 0))
            else None
          else None
      | EmptyString => None
      end
  end.

(** [re.sub(r'white-space\s*:\s*[^;]+;?', '', s)]: the matches are found
    from left to right and do not overlap; [skip] counts the characters
    of the current match that are still to be dropped. *)
Fixpoint sub_white_space (skip : nat) (s : string) : string :=
  match s with
  | EmptyString => EmptyString
  | String c t =>
      match skip with
      | S k => sub_white_space k t
      | O =>
          match match_white_space s with
          | Some n => sub_white_space (n - 1) t
          | None => String c (sub_white_space 0 t)
          end
      end
  end.

(** [re.sub(r';{2,}', ';', s)] *)
Fixpoint collapse_semicolons (s : string) : string :=
  match s with
  | EmptyString => EmptyString
  | String c t =>
      if Ascii.eqb c ";" && prefix ";" t then collapse_semicolons t
      else String c (collapse_semicolons t)
  end.

Definition semicolon_or_blank (c : ascii) : bool :=
  Ascii.eqb c ";" || Ascii.eqb c " ".

(** [[
def clean_white_space_in_style(style_attr: str):
    if not style_attr:
        return style_attr
    new_style = re.sub(r'white-space\s*:\s*[^;]+;?', '', style_attr)
    new_style = re.sub(r';{2,}', ';', new_style).strip()
    new_style = new_style.strip('; ')
    return new_style
]] *)
Definition clean_white_space_in_style (style_attr : string) : string :=
  if negb (truthy style_attr) then style_attr
  else
    let new_style := sub_white_space 0 style_attr in
    let new_style := strip (collapse_semicolons new_style) in
    strip_by semicolon_or_blank new_style.

(** The float literals [12.0] and [1.2]. *)
Definition twelve : PyFloat.float := S754_finite false 6755399441055744 (-49).
Definition one_point_two : PyFloat.float :=
  S754_finite false 5404319552844595 (-52).

(** [f"{line_height_px}px"] *)
Definition px (line_height_px : PyFloat.float) : string :=
  PyFloat.repr line_height_px ++ "px".

(** [etree.Element("tspan")] with the attributes and the text it is given
    before it is attached. *)
Definition new_tspan (a : list (string * string)) (line : string) : Element :=
  mkElement "tspan" a (Some line) None [].

Definition opt_attr (key : string) (v : option string)
  : list (string * string) :=
  match v with
  | Some x => [(key, x)]
  | None => []
  end.

(** The loop of [split_into_tspans]: the tspans built for the lines from
    index [i] on.
[[
    for i, line in enumerate(lines):
        tspan = etree.Element("tspan")
        if base_x is not None:
            tspan.set("x", base_x)
        if i > 0:
            tspan.set("dy", f"{line_height_px}px")
        tspan.text = line
        el.append(tspan)
]] *)
Fixpoint build_tspans (i : nat) (lines : list string)
  (base_x : option string) (line_height_px : PyFloat.float) : list Element :=
  match lines with
  | [] => []
  | line :: r =>
      new_tspan (opt_attr "x" base_x
                 ++ match i with
                    | O => []
                    | S _ => [("dy", px line_height_px)]
                    end) line
      :: build_tspans (S i) r base_x line_height_px
  end.

(** [[
def split_into_tspans(el, text, base_x, line_height_px):
    lines = text.split("\\n")
    # Clear direct text and children
    el.text = None
    # Build tspans
    for i, line in enumerate(lines): ...
]] *)
Definition split_into_tspans (el : Element) (text : string)
  (base_x : option string) (line_height_px : PyFloat.float) : Element :=
  let lines := split_marker text in
  let el := set_text None el in
  set_children (children el ++ build_tspans 0 lines base_x line_height_px) el.

(** The children of [text_el] while the second loop of
    [process_text_node] runs: a child that was there when the loop
    started carries the index it had in [list(text_el)], which is how
    [list(text_el).index(child)] finds it again; a tspan inserted by the
    loop carries none. *)
Definition slot := (option nat * Element)%type.

Fixpoint index_of (i : nat) (cur : list slot) : nat :=
  match cur with
  | [] => 0
  | (Some k, _) :: r => if Nat.eqb k i then 0 else S (index_of i r)
  | (None, _) :: r => S (index_of i r)
  end.

(** [l.insert(idx, x)] *)
Definition insert_at {A} (idx : nat) (x : A) (l : list A) : list A :=
  firstn idx l ++ x :: skipn idx l.

(** [del l[idx]] *)
Definition remove_at {A} (idx : nat) (l : list A) : list A :=
  firstn idx l ++ skipn (S idx) l.

(** [a or b] on strings that may be [None] *)
Definition or_str (a b : option string) : option string :=
  if opt_truthy a then a else b.

Definition has_marker (t : option string) : bool :=
  match t with
  | Some s => truthy s && contains marker s
  | None => false
  end.

(** The children that the script takes for line runs:
    [child.tag.endswith("tspan")] *)
Definition is_line_run (child : Element) : bool :=
  endswith "tspan" (tag child).

(** The test of the second loop:
    [child.tag.endswith("tspan") and child.text and "\\n" in child.text] *)
Definition needs_split (child : Element) : bool :=
  is_line_run child && has_marker (text child).

(** The tspan built for line [j] of a child that is being replaced. *)
Definition rebuilt_tspan (child : Element) (base_x : option string)
  (font_size : option PyFloat.float) (j : nat) (line : string) : Element :=
  let dy_first := get "dy" (attrib child) in
  let x_child := or_str (get "x" (attrib child)) base_x in
  new_tspan
    (opt_attr "x" x_child
     ++ match j with
        | O => if opt_truthy dy_first then opt_attr "dy" dy_first else []
        | S _ =>
            [("dy",
              px (PyFloat.mul
                    (PyFloat.or_default
                       (PyFloat.or_else
                          (parse_font_size (get "style" (attrib child)))
                          font_size)
                       twelve)
                    one_point_two))]
        end) line.

(** [[
            for j, line in enumerate(lines):
                tspan = etree.Element("tspan")
                ...
                text_el.insert(idx + j, tspan)
]] *)
Fixpoint insert_lines (child : Element) (base_x : option string)
  (font_size : option PyFloat.float) (idx j : nat) (lines : list string)
  (cur : list slot) : list slot :=
  match lines with
  | [] => cur
  | line :: r =>
      insert_lines child base_x font_size idx (S j) r
        (insert_at (idx + j)
           (None, rebuilt_tspan child base_x font_size j line) cur)
  end.

(** One iteration of [for child in list(text_el)], for the child that had
    index [i] when the loop started. *)
Definition rebuild_child (base_x : option string)
  (font_size : option PyFloat.float) (i : nat) (child : Element)
  (st : list slot * bool) : list slot * bool :=
  let '(cur, changed_any) := st in
  if needs_split child then
    let idx := index_of i cur in
    let lines :=
      match text child with
      | Some s => split_marker s
      | None => []
      end in
    (insert_lines child base_x font_size idx 0 lines (remove_at idx cur),
     true)
  else (cur, changed_any).

Fixpoint rebuild_loop (base_x : option string)
  (font_size : option PyFloat.float) (i : nat) (snapshot : list Element)
  (st : list slot * bool) : list slot * bool :=
  match snapshot with
  | [] => st
  | child :: r =>
      rebuild_loop base_x font_size (S i) r
        (rebuild_child base_x font_size i child st)
  end.

Fixpoint number_from (i : nat) (l : list Element) : list slot :=
  match l with
  | [] => []
  | c :: r => (Some i, c) :: number_from (S i) r
  end.

Definition xml_space : string :=
  "{http://www.w3.org/XML/1998/namespace}space".

(** The first half of [process_text_node]: the attributes after
    [xml:space] has been set and the style cleaned.
[[
    text_el.set("{http://www.w3.org/XML/1998/namespace}space", "preserve")
    if style_attr and "white-space" in style_attr:
        cleaned = clean_white_space_in_style(style_attr)
        if cleaned != style_attr:
            text_el.set("style", cleaned)
]] *)
Definition sanitize (text_el : Element) : Element :=
  let style_attr := get "style" (attrib text_el) in
  let text_el :=
    set_attrib (set xml_space "preserve" (attrib text_el)) text_el in
  match style_attr with
  | Some s =>
      if truthy s && contains "white-space" s then
        let cleaned := clean_white_space_in_style s in
        if negb (String.eqb cleaned s)
        then set_attrib (set "style" cleaned (attrib text_el)) text_el
        else text_el
      else text_el
  | None => text_el
  end.

(** [process_text_node(text_el)]: the element after the call and the
    returned flag. *)
Definition process_text_node (text_el : Element) : Element * bool :=
  let style_attr := get "style" (attrib text_el) in
  let font_size :=
    PyFloat.or_else (parse_font_size style_attr)
      (parse_font_size (get "style" (attrib text_el))) in
  let line_height :=
    PyFloat.mul (PyFloat.or_default font_size twelve) one_point_two in
  let base_x := get_text_x text_el in
  let text_el := sanitize text_el in
  if has_marker (text text_el) then
    match text text_el with
    | Some t => (split_into_tspans text_el t base_x line_height, true)
    | None => (text_el, true)
    end
  else
    let '(cur, changed_any) :=
      rebuild_loop base_x font_size 0 (children text_el)
        (number_from 0 (children text_el), false) in
    (set_children (map snd cur) text_el, changed_any).

Definition svg_text : string := "{http://www.w3.org/2000/svg}text".

(** The elements selected by [//svg:text]. *)
Definition is_svg_text (e : Element) : bool := String.eqb (tag e) svg_text.

(** The elements selected by [{*}text]: the local name is [text], in any
    namespace or in none. *)
Definition is_any_text (e : Element) : bool :=
  match split_char "}" (tag e) with
  | [l] => String.eqb l "text"
  | [ns; l] => prefix "{" ns && String.eqb l "text"
  | _ => false
  end.

(** One loop of [main]: [process_text_node] on every selected element of
    the subtree.  The script visits the selected elements in document
    order; a call reads and writes the attributes, the text and the list
    of children of its own element only, and of the children it reads no
    more than the tag, the text and the attributes of those whose tag
    ends in [tspan], which are never selected themselves.  So the calls
    on different elements do not interfere and the children can be done
    before their parent. *)
Fixpoint process_all (selected : Element -> bool) (e : Element) : Element :=
  let e' := set_children (map (process_all selected) (children e)) e in
  if selected e then fst (process_text_node e') else e'.

(** The tree that [main] writes for the tree it has parsed.
[[
    for text_el in root.xpath('//svg:text', namespaces=NS):
        if process_text_node(text_el): changed = True
    for text_el in root.findall(".//{*}text"):
        if process_text_node(text_el): changed = True
]]
    The first loop takes the root too, the second one only its proper
    descendants. *)
Definition main (root : Element) : Element :=
  let root := process_all is_svg_text root in
  set_children (map (process_all is_any_text) (children root)) root.

End FixAffinity.

(** ** The inner search as the specification words it *)

Module Spec.
Import ETree RenameTest.

(** The specification describes the search below a group as
    breadth-first: the nodes wait in a queue, and the children of a
    visited node join it at the back. *)
Fixpoint breadth_first_loop (fuel : nat) (elem : Element)
  (queue : list path) : option (option path) :=
  match queue with
  | [] => Some None
  | p :: rest =>
      match fuel with
      | 0 => None
      | S fuel' =>
          match get_path elem p with
          | None => None
          | Some node =>
              if is_text_or_tspan node then Some (Some p)
              else breadth_first_loop fuel' elem (rest ++ child_paths p node)
          end
      end
  end.

Definition breadth_first_descendant (elem : Element) : option path :=
  match breadth_first_loop (size elem) elem (child_paths [] elem) with
  | Some r => r
  | None => None
  end.

End Spec.

(** ** Relations between a tree and the tree after a mutation *)

Module Frame.
Import ETree.

(** [later] is [earlier] after some texts and tails have been set: the
    elements, their tags, their attributes and their numbers of children
    are the same, and a text or a tail that was the empty string still
    is. *)
Definition clearing (earlier later : Element) : Prop :=
  forall (q : path) (n : Element),
    get_path earlier q = Some n ->
    exists n',
      get_path later q = Some n'
      /\ tag n' = tag n
      /\ attrib n' = attrib n
      /\ List.length (children n') = List.length (children n)
      /\ (text n = Some "" -> text n' = Some "")
      /\ (tail n = Some "" -> tail n' = Some "").

(** [later] has the elements of [earlier], with their tags, their
    attributes and their numbers of children: only texts and tails may
    differ. *)
Definition skeleton (earlier later : Element) : Prop :=
  forall (q : path) (n : Element),
    get_path earlier q = Some n ->
    exists n',
      get_path later q = Some n'
      /\ tag n' = tag n
      /\ attrib n' = attrib n
      /\ List.length (children n') = List.length (children n).

(** The node at [q] has an empty text and an empty tail. *)
Definition blank_at (e : Element) (q : path) : Prop :=
  exists n, get_path e q = Some n /\ text n = Some "" /\ tail n = Some "".

(** Every path of a worklist names a node of the tree. *)
Definition valid_stack (root : Element) (stack : list path) : Prop :=
  Forall (fun p => get_path root p <> None) stack.

(** [t] leads to [q] or to an ancestor of [q]. *)
Definition above (t q : path) : Prop := exists s, q = t ++ s.

(** The element at [q] is neither a [<text>] or a [<tspan>] nor a child
    of one. *)
Definition apart_from_text (e : Element) (q : path) : Prop :=
  RenameTest.text_bearing e q = false
  /\ forall parent i,
       q = parent ++ [i] -> RenameTest.text_bearing e parent = false.

(** [later] has the text and the tail of [earlier] at every such
    element. *)
Definition sparing (earlier later : Element) : Prop :=
  forall (q : path) (n : Element),
    get_path earlier q = Some n ->
    apart_from_text earlier q ->
    exists n',
      get_path later q = Some n' /\ text n' = text n /\ tail n' = tail n.

End Frame.

(** ** Style strings as lists of declarations *)

Module Style.
Import PyStr FixAffinity.

Fixpoint all_chars (p : ascii -> bool) (s : string) : bool :=
  match s with
  | EmptyString => true
  | String c t => p c && all_chars p t
  end.

(** The declarations of a style string: the pieces between the
    semicolons. *)
Definition declarations (s : string) : list string := split_char ";" s.

(** A declaration of the property [white-space]: the name, white space,
    a colon and a value that is not empty. *)
Definition white_space_declaration (d : string) : bool :=
  all_chars not_semicolon d
  && match drop_prefix "white-space" d with
     | Some r =>
         match lstrip is_space r with
         | String c v => Ascii.eqb c ":" && truthy v
         | EmptyString => false
         end
     | None => false
     end.

(** A declaration that is not empty, in which the text [white-space]
    does not occur, and that has no white space around it. *)
Definition other_declaration (d : string) : bool :=
  truthy d
  && all_chars not_semicolon d
  && negb (contains "white-space" d)
  && String.eqb (lstrip is_space d) d
  && String.eqb (rstrip is_space d) d.

(** A list of declarations of these two kinds. *)
Definition tidy (ds : list string) : bool :=
  forallb (fun d => white_space_declaration d || other_declaration d) ds.

(** A declaration of [white-space] that may have white space before
    it. *)
Definition padded_white_space_declaration (d : string) : bool :=
  white_space_declaration (lstrip is_space d).

(** A piece between two semicolons in which the text [white-space] does
    not occur; it may be empty and may have white space around it. *)
Definition plain_declaration (d : string) : bool :=
  all_chars not_semicolon d && negb (contains "white-space" d).

(** A list of declarations in which the text [white-space] occurs in the
    declarations of [white-space] only. *)
Definition clear_cut (ds : list string) : bool :=
  forallb (fun d => padded_white_space_declaration d || plain_declaration d)
    ds.

(** The declarations without the white space around them, the empty
    ones left out. *)
Definition trimmed (ds : list string) : list string :=
  filter truthy (map strip ds).

(** What is left of a list of declarations when each declaration of
    [white-space] is cut out together with the separator that follows
    it: the white space in front of it stays and runs into the piece
    that comes next. *)
Fixpoint residue (ds : list string) : list string :=
  match ds with
  | [] => []
  | d :: r =>
      if padded_white_space_declaration d then
        match residue r with
        | h :: t => (fst (span is_space d) ++ h)%string :: t
        | [] => [fst (span is_space d)]
        end
      else d :: residue r
  end.

End Style.

(** ** Documents on which the line splitter settles in one pass *)

Module Normal.
Import PyStr ETree FixAffinity.

(** The tspans that the second loop of [process_text_node] puts in the
    place of a child, for the lines from index [j] on. *)
Fixpoint rebuilt_tspans (child : Element) (base_x : option string)
  (font_size : option PyFloat.float) (j : nat) (lines : list string)
  : list Element :=
  match lines with
  | [] => []
  | line :: r =>
      rebuilt_tspan child base_x font_size j line
      :: rebuilt_tspans child base_x font_size (S j) r
  end.

(** What the second loop leaves in the place of one child. *)
Definition replacement (base_x : option string)
  (font_size : option PyFloat.float) (child : Element) : list Element :=
  if needs_split child then
    rebuilt_tspans child base_x font_size 0
      match text child with
      | Some s => split_marker s
      | None => []
      end
  else [child].

(** No element of the list is a line run that holds the marker. *)
Definition no_split (l : list Element) : bool :=
  forallb (fun c => negb (needs_split c)) l.

(** Sanitizing the style a second time changes nothing. *)
Definition stable_style (a : list (string * string)) : bool :=
  match get "style" a with
  | Some s =>
      negb (truthy s && contains "white-space" s)
      || String.eqb
           (clean_white_space_in_style (clean_white_space_in_style s))
           (clean_white_space_in_style s)
  | None => true
  end.

(** The style is stable, and the marker is not both in the leading text
    and in a line run. *)
Definition stable (e : Element) : bool :=
  stable_style (attrib e)
  && (negb (has_marker (text e)) || no_split (children e)).

Fixpoint attrib_eqb (a b : list (string * string)) : bool :=
  match a, b with
  | [], [] => true
  | (k, v) :: a', (k', v') :: b' =>
      String.eqb k k' && String.eqb v v' && attrib_eqb a' b'
  | _, _ => false
  end.

(** [process_text_node] has nothing left to do on the element. *)
Definition settled (e : Element) : bool :=
  negb (has_marker (text e))
  && no_split (children e)
  && attrib_eqb (attrib (sanitize e)) (attrib e).

(** A property of every element of a tree. *)
Fixpoint everywhere (p : Element -> bool) (e : Element) : bool :=
  p e && forallb (everywhere p) (children e).

(** Every [<text>] element of the document is stable. *)
Definition well_behaved (doc : Element) : bool :=
  everywhere (fun e => negb (is_any_text e) || stable e) doc.

(** Every [<text>] element below the root is in the SVG namespace, so
    that both loops of [main] take it, and has a stable style; the root,
    which only the first loop can take, is stable if it is a [<text>]. *)
Definition namespaced (doc : Element) : bool :=
  (negb (is_any_text doc) || stable doc)
  && forallb
       (everywhere
          (fun e => negb (is_any_text e)
                    || (is_svg_text e && stable_style (attrib e))))
       (children doc).

End Normal.

(** ** Sample documents *)

Module Samples.
Import PyStr ETree.

(** The float [10.0]. *)
Definition ten : PyFloat.float := S754_finite false 5629499534213120 (-49).

(** A literal escape marker between two pieces of text. *)
Definition esc (a b : string) : string := a ++ marker ++ b.

(** [Line A\nLine B\n\nLine D] with literal escape markers. *)
Definition four_lines : string :=
  esc "Line A" (esc "Line B" (esc "" "Line D")).

(** [<text style="font-size:10px">Line A\nLine B\n\nLine D</text>] *)
Definition text_10px : Element :=
  mkElement "text" [("style", "font-size:10px")] (Some four_lines) None [].

Definition tspan (t : string) : Element :=
  mkElement "tspan" [] (Some t) None [].

(** [<text>A\nB<tspan>OLD</tspan></text>] *)
Definition text_with_run : Element :=
  mkElement "text" [] (Some (esc "A" "B")) None [tspan "OLD"].

(** [<text id="DESCRIPTION"><tspan>OLD1</tspan><tspan>OLD2</tspan></text>] *)
Definition description_two_runs : Element :=
  mkElement "text" [("id", "DESCRIPTION")] None None
    [tspan "OLD1"; tspan "OLD2"].

(** A [<text>] with five line runs. *)
Definition five_runs : Element :=
  mkElement "text" [] None None
    [tspan "a"; tspan "b"; tspan "c"; tspan "d"; tspan "e"].

(** [<g><g><text>A</text></g><text>B</text></g>]: the text [B] is a
    child of the group, the text [A] lies deeper and comes first. *)
Definition nested_group : Element :=
  mkElement "g" [("id", "TITLE")] None None
    [mkElement "g" [] None None [mkElement "text" [] (Some "A") None []];
     mkElement "text" [] (Some "B") None []].

(** [<g id="TITLE"><text>Old<tspan>run</tspan></text>
    <text>Sibling</text> tail <g><tspan>Inner</tspan></g></g>] *)
Definition group_with_siblings : Element :=
  mkElement "g" [("id", "TITLE")] None None
    [mkElement "text" [] (Some "Old") None [tspan "run"];
     mkElement "text" [] (Some "Sibling") (Some " tail ") [];
     mkElement "g" [] None None [tspan "Inner"]].

(** A document in which [TITLE] is bound to a text and [DESCRIPTION] is
    not bound. *)
Definition title_only : Element :=
  mkElement "svg" [] None None
    [mkElement "text" [("id", "TITLE")] (Some "Old title") None []].

(** A document in which [TITLE] is bound to a group without any text. *)
Definition empty_group : Element :=
  mkElement "svg" [] None None
    [mkElement "g" [("id", "TITLE")] None None
       [mkElement "rect" [] None None []]].

(** A run with both fields requested on a document that parses and can
    be written. *)
Definition both_fields (root : Element) : RenameTest.Invocation :=
  RenameTest.mkInvocation (Some "T") (Some "D") (Some "out.svg") true
    (Some root) true.

Definition title_field (root : Element) : RenameTest.Invocation :=
  RenameTest.mkInvocation (Some "T") None (Some "out.svg") true
    (Some root) true.

(** [<svg><text style="white-white-space:a;space:b">x</text></svg>],
    without a namespace. *)
Definition nested_white_space : Element :=
  mkElement "svg" [] None None
    [mkElement "text" [("style", "white-white-space:a;space:b")]
       (Some "x") None []].

(** [<svg><text>A\nB<tspan>C\nD</tspan></text></svg>], without a
    namespace: the marker is in the leading text and in a line run. *)
Definition marker_twice : Element :=
  mkElement "svg" [] None None
    [mkElement "text" [] (Some (esc "A" "B")) None [tspan (esc "C" "D")]].

(** A document in the SVG namespace with the marker in a leading text,
    the marker in a line run of another text, and a [white-space]
    declaration. *)
Definition label : Element :=
  mkElement "{http://www.w3.org/2000/svg}svg" [] None None
    [mkElement "{http://www.w3.org/2000/svg}text"
       [("style", "font-size:10px;white-space:pre"); ("x", "4")]
       (Some (esc "A" "B")) None [];
     mkElement "{http://www.w3.org/2000/svg}g" [] None None
       [mkElement "{http://www.w3.org/2000/svg}text" [] None None
          [mkElement "{http://www.w3.org/2000/svg}tspan" [("dy", "3")]
             (Some (esc "C" "D")) None []]]].

(** [marker_twice] in the SVG namespace. *)
Definition marker_twice_svg : Element :=
  mkElement "{http://www.w3.org/2000/svg}svg" [] None None
    [mkElement "{http://www.w3.org/2000/svg}text" [] (Some (esc "A" "B")) None
       [mkElement "{http://www.w3.org/2000/svg}tspan" []
          (Some (esc "C" "D")) None []]].

(** [value] with real line feeds between the lines. *)
Definition lines (l : list string) : string :=
  join (String line_feed EmptyString) l.

End Samples.

(** * Properties *)

Import PyStr ETree Traversal.

(** ** Strings *)

Section MarkerInduction.

Variable P : string -> Prop.
Hypothesis P_empty : P EmptyString.
Hypothesis P_single : forall c, P (String c EmptyString).
Hypothesis P_marker : forall u, P u -> P (String backslash (String "n" u)).
Hypothesis P_other :
  forall c d u,
    Ascii.eqb c backslash && Ascii.eqb d "n" = false ->
    P (String d u) -> P (String c (String d u)).

(** Induction along the way [split_marker] reads a string. *)
Lemma marker_ind : forall s, P s.
Proof.
  assert (H : forall n s, (String.length s <= n)%nat -> P s).
  { induction n as [|n IH]; intros s Hs.
    - destruct s; [exact P_empty | simpl in Hs; lia].
    - destruct s as [|c [|d u]]; [exact P_empty | apply P_single |].
      destruct (Ascii.eqb c backslash && Ascii.eqb d "n") eqn:E.
      + apply andb_prop in E. destruct E as [Ec Ed].
        apply Ascii.eqb_eq in Ec. apply Ascii.eqb_eq in Ed. subst.
        apply P_marker. apply IH. simpl in Hs. lia.
      + apply P_other; [exact E|]. apply IH. simpl in *. lia. }
  intros s. apply (H (String.length s)). lia.
Qed.

End MarkerInduction.

Lemma split_marker_single :
  forall c, split_marker (String c EmptyString) = [String c EmptyString].
Proof. reflexivity. Qed.

Lemma split_marker_marker :
  forall u,
    split_marker (String backslash (String "n" u))
    = EmptyString :: split_marker u.
Proof. reflexivity. Qed.

Lemma split_marker_other :
  forall c d u,
    Ascii.eqb c backslash && Ascii.eqb d "n" = false ->
    split_marker (String c (String d u))
    = match split_marker (String d u) with
      | h :: r => String c h :: r
      | [] => [String c EmptyString]
      end.
Proof.
  intros c d u E. change (split_marker (String c (String d u)))
    with (if Ascii.eqb c backslash && Ascii.eqb d "n"
          then EmptyString :: split_marker u
          else match split_marker (String d u) with
               | h :: r => String c h :: r
               | [] => [String c EmptyString]
               end).
  rewrite E. reflexivity.
Qed.

Lemma split_marker_nonempty : forall s, split_marker s <> [].
Proof.
  apply marker_ind.
  - discriminate.
  - discriminate.
  - intros u _. rewrite split_marker_marker. discriminate.
  - intros c d u E IH. rewrite (split_marker_other _ _ _ E).
    destruct (split_marker (String d u)); [contradiction | discriminate].
Qed.

Lemma count_marker_other :
  forall c d u,
    Ascii.eqb c backslash && Ascii.eqb d "n" = false ->
    count_marker (String c (String d u)) = count_marker (String d u).
Proof.
  intros c d u E. change (count_marker (String c (String d u)))
    with (if Ascii.eqb c backslash && Ascii.eqb d "n"
          then S (count_marker u) else count_marker (String d u)).
  rewrite E. reflexivity.
Qed.

(** A split on the marker has one more piece than there are markers. *)
Lemma split_marker_length :
  forall s, List.length (split_marker s) = S (count_marker s).
Proof.
  apply marker_ind.
  - reflexivity.
  - reflexivity.
  - intros u IH. rewrite split_marker_marker. simpl List.length.
    rewrite IH. reflexivity.
  - intros c d u E IH. rewrite (split_marker_other _ _ _ E).
    rewrite (count_marker_other _ _ _ E).
    destruct (split_marker (String d u)) as [|h r];
      [discriminate IH | exact IH].
Qed.

Lemma join_cons_char :
  forall sep c h r, join sep (String c h :: r) = String c (join sep (h :: r)).
Proof. intros sep c h [|x r]; reflexivity. Qed.

(** Joining the pieces with the marker gives the string back. *)
Lemma join_split_marker : forall s, join marker (split_marker s) = s.
Proof.
  apply marker_ind.
  - reflexivity.
  - reflexivity.
  - intros u IH. rewrite split_marker_marker.
    pose proof (split_marker_nonempty u) as N.
    destruct (split_marker u) as [|h r] eqn:E; [contradiction|].
    change (join marker (EmptyString :: h :: r))
      with (String backslash (String "n" (join marker (h :: r)))).
    rewrite IH. reflexivity.
  - intros c d u E IH. rewrite (split_marker_other _ _ _ E).
    pose proof (split_marker_nonempty (String d u)) as N.
    destruct (split_marker (String d u)) as [|h r]; [contradiction|].
    rewrite join_cons_char, IH. reflexivity.
Qed.

Lemma contains_marker_cons :
  forall c s,
    contains marker (String c s)
    = prefix marker (String c s) || contains marker s.
Proof. reflexivity. Qed.

Lemma prefix_marker_spec :
  forall c s,
    prefix marker (String c s)
    = match s with
      | String d _ => Ascii.eqb c backslash && Ascii.eqb d "n"
      | EmptyString => false
      end.
Proof.
  intros c s. unfold marker. cbn [prefix].
  destruct (ascii_dec backslash c) as [e|n].
  - subst c. rewrite Ascii.eqb_refl. destruct s as [|d u]; [reflexivity|].
    cbn [prefix]. destruct (ascii_dec "n" d) as [e|n].
    + subst d. destruct u; reflexivity.
    + destruct (Ascii.eqb d "n") eqn:E; [|reflexivity].
      apply Ascii.eqb_eq in E. congruence.
  - destruct (Ascii.eqb c backslash) eqn:E.
    + apply Ascii.eqb_eq in E. congruence.
    + destruct s; reflexivity.
Qed.

(** No piece of a split contains the marker. *)
Lemma split_marker_pieces :
  forall s, Forall (fun l => contains marker l = false) (split_marker s).
Proof.
  apply marker_ind.
  - repeat constructor.
  - intros c. rewrite split_marker_single. constructor; [|constructor].
    rewrite contains_marker_cons, prefix_marker_spec. reflexivity.
  - intros u IH. rewrite split_marker_marker.
    constructor; [reflexivity | exact IH].
  - intros c d u E IH. rewrite (split_marker_other _ _ _ E).
    pose proof (split_marker_nonempty (String d u)) as N.
    pose proof (join_split_marker (String d u)) as J.
    destruct (split_marker (String d u)) as [|h r]; [contradiction|].
    inversion IH as [|? ? Hh Hr]; subst. constructor; [|exact Hr].
    rewrite contains_marker_cons, Hh, orb_false_r, prefix_marker_spec.
    destruct h as [|d' h'].
    + reflexivity.
    + assert (d' = d).
      { destruct r as [|x r']; simpl in J; inversion J; reflexivity. }
      subst d'. exact E.
Qed.

(** ** The line splitter *)

Lemma build_tspans_text :
  forall lines i bx lh,
    map text (FixAffinity.build_tspans i lines bx lh) = map Some lines.
Proof.
  induction lines as [|l r IH]; intros i bx lh; simpl; [reflexivity|].
  rewrite IH. reflexivity.
Qed.

Lemma build_tspans_length :
  forall lines i bx lh,
    List.length (FixAffinity.build_tspans i lines bx lh) = List.length lines.
Proof.
  induction lines as [|l r IH]; intros i bx lh; simpl; [reflexivity|].
  rewrite IH. reflexivity.
Qed.

Lemma build_tspans_line_runs :
  forall lines i bx lh,
    filter FixAffinity.is_line_run (FixAffinity.build_tspans i lines bx lh)
    = FixAffinity.build_tspans i lines bx lh.
Proof.
  induction lines as [|l r IH]; intros i bx lh; simpl; [reflexivity|].
  rewrite IH. reflexivity.
Qed.

Lemma get_dy_opt_x :
  forall bx rest, get "dy" (FixAffinity.opt_attr "x" bx ++ rest) = get "dy" rest.
Proof. intros [x|] rest; reflexivity. Qed.

Lemma build_tspans_dy_later :
  forall lines i bx lh,
    map (fun r => get "dy" (attrib r))
      (FixAffinity.build_tspans (S i) lines bx lh)
    = repeat (Some (FixAffinity.px lh)) (List.length lines).
Proof.
  induction lines as [|l r IH]; intros i bx lh; [reflexivity|].
  cbn [FixAffinity.build_tspans map List.length repeat].
  rewrite IH. cbn [FixAffinity.new_tspan attrib].
  rewrite get_dy_opt_x. reflexivity.
Qed.

Lemma split_into_tspans_children :
  forall el raw bx lh,
    children (FixAffinity.split_into_tspans el raw bx lh)
    = children el ++ FixAffinity.build_tspans 0 (split_marker raw) bx lh.
Proof. reflexivity. Qed.

(** C4.  For a Content element without line runs and a raw text with [k]
    escape markers, [split_into_tspans] leaves exactly [k + 1] line runs;
    in order, they hold the pieces of the split, which are the
    marker-free strings whose join on the marker is the raw text (so that
    adjacent, leading and trailing markers give empty pieces). *)
Theorem C4_split_creates_one_run_per_piece :
  forall (el : Element) (raw : string) (base_x : option string)
         (line_height : PyFloat.float),
    filter FixAffinity.is_line_run (children el) = [] ->
    let runs :=
      filter FixAffinity.is_line_run
        (children (FixAffinity.split_into_tspans el raw base_x line_height)) in
    List.length runs = S (count_marker raw)
    /\ map text runs = map Some (split_marker raw)
    /\ join marker (split_marker raw) = raw
    /\ Forall (fun piece => contains marker piece = false) (split_marker raw).
Proof.
  intros el raw bx lh Hnone runs. subst runs.
  rewrite split_into_tspans_children, filter_app, Hnone, app_nil_l.
  rewrite build_tspans_line_runs, build_tspans_length, build_tspans_text.
  repeat split.
  - apply split_marker_length.
  - apply join_split_marker.
  - apply split_marker_pieces.
Qed.

Lemma C4_split_creates_one_run_per_piece_witness :
  let el := mkElement "text" [] None None [] in
  let raw := Samples.esc "a" (Samples.esc "" "b") in
  filter FixAffinity.is_line_run (children el) = []
  /\ map text
       (filter FixAffinity.is_line_run
          (children
             (FixAffinity.split_into_tspans el raw None FixAffinity.twelve)))
     = [Some "a"; Some ""; Some "b"].
Proof.
  split; [reflexivity|].
  exact (proj1 (proj2
    (C4_split_creates_one_run_per_piece
       (mkElement "text" [] None None [])
       (Samples.esc "a" (Samples.esc "" "b")) None FixAffinity.twelve
       eq_refl))).
Defined.

(** C2.  [split_into_tspans] clears the leading text but keeps the
    children that were there: on [<text>A\nB<tspan>OLD</tspan></text>]
    the old run stays in front of the two new ones. *)
Example C2_previous_children_are_kept :
  let el' :=
    FixAffinity.split_into_tspans Samples.text_with_run
      (Samples.esc "A" "B") None FixAffinity.twelve in
  text el' = None
  /\ children el'
     = [Samples.tspan "OLD";
        mkElement "tspan" [] (Some "A") None [];
        mkElement "tspan" [("dy", "12.0px")] (Some "B") None []].
Proof. vm_compute. split; reflexivity. Qed.

Lemma sanitize_text : forall e, text (FixAffinity.sanitize e) = text e.
Proof.
  intros e. unfold FixAffinity.sanitize.
  destruct (get "style" (attrib e)) as [s|]; [|reflexivity].
  destruct (truthy s && contains "white-space" s); [|reflexivity].
  destruct (negb _); reflexivity.
Qed.

Lemma sanitize_children :
  forall e, children (FixAffinity.sanitize e) = children e.
Proof.
  intros e. unfold FixAffinity.sanitize.
  destruct (get "style" (attrib e)) as [s|]; [|reflexivity].
  destruct (truthy s && contains "white-space" s); [|reflexivity].
  destruct (negb _); reflexivity.
Qed.

Lemma sanitize_tag : forall e, tag (FixAffinity.sanitize e) = tag e.
Proof.
  intros e. unfold FixAffinity.sanitize.
  destruct (get "style" (attrib e)) as [s|]; [|reflexivity].
  destruct (truthy s && contains "white-space" s); [|reflexivity].
  destruct (negb _); reflexivity.
Qed.

(** What [process_text_node] does to an element whose leading text holds
    the marker. *)
Lemma process_text_node_direct :
  forall el t,
    text el = Some t ->
    FixAffinity.has_marker (Some t) = true ->
    fst (FixAffinity.process_text_node el)
    = FixAffinity.split_into_tspans (FixAffinity.sanitize el) t
        (FixAffinity.get_text_x el)
        (PyFloat.mul
           (PyFloat.or_default
              (FixAffinity.parse_font_size (get "style" (attrib el)))
              FixAffinity.twelve)
           FixAffinity.one_point_two).
Proof.
  intros el t Ht Hm. unfold FixAffinity.process_text_node.
  rewrite sanitize_text, Ht, Hm.
  destruct (FixAffinity.parse_font_size (get "style" (attrib el))) as [x|];
    [|reflexivity].
  unfold PyFloat.or_else. destruct (PyFloat.truthy x) eqn:E; [reflexivity|].
  unfold PyFloat.or_default. rewrite E. reflexivity.
Qed.

(** C6, as the code has it.  For a Content element without children
    whose leading text [t] holds the marker, the line runs built by
    [process_text_node] carry the pieces of [t] in order; the first run
    has no [dy] attribute and each later one has the line height printed
    as a Python float followed by [px].  The line height is 1.2 times the
    declared pixel font size, or 1.2 times 12.0 without one: a declared
    size of 10px prints as [12.0px], the default as
    [14.399999999999999px].  The text [Line A\nLine B\n\nLine D] gives
    the four runs [Line A], [Line B], the empty run and [Line D]. *)
Theorem C6_line_runs_and_offsets :
  forall (el : Element) (t : string),
    text el = Some t ->
    FixAffinity.has_marker (Some t) = true ->
    children el = [] ->
    let declared := FixAffinity.parse_font_size (get "style" (attrib el)) in
    let line_height :=
      PyFloat.mul (PyFloat.or_default declared FixAffinity.twelve)
        FixAffinity.one_point_two in
    let runs := children (fst (FixAffinity.process_text_node el)) in
    map text runs = map Some (split_marker t)
    /\ map (fun r => get "dy" (attrib r)) runs
       = None :: repeat (Some (FixAffinity.px line_height)) (count_marker t)
    /\ (declared = Some Samples.ten ->
        FixAffinity.px line_height = "12.0px")
    /\ (declared = None ->
        FixAffinity.px line_height = "14.399999999999999px")
    /\ (t = Samples.four_lines ->
        split_marker t = ["Line A"; "Line B"; ""; "Line D"]
        /\ count_marker t = 3).
Proof.
  intros el t Ht Hm Hc declared lh runs. subst runs.
  rewrite (process_text_node_direct el t Ht Hm).
  rewrite split_into_tspans_children, sanitize_children, Hc, app_nil_l.
  fold declared. fold lh.
  repeat split.
  - apply build_tspans_text.
  - pose proof (split_marker_length t) as L.
    destruct (split_marker t) as [|l r]; [discriminate L|].
    cbn [FixAffinity.build_tspans map FixAffinity.new_tspan attrib].
    rewrite build_tspans_dy_later. injection L as L. rewrite L.
    rewrite app_nil_r. destruct (FixAffinity.get_text_x el); reflexivity.
  - intros E. subst lh. rewrite E. vm_compute. reflexivity.
  - intros E. subst lh. rewrite E. vm_compute. reflexivity.
  - subst t. reflexivity.
  - subst t. reflexivity.
Qed.

Lemma C6_line_runs_and_offsets_witness :
  let runs :=
    children (fst (FixAffinity.process_text_node Samples.text_10px)) in
  map text runs = [Some "Line A"; Some "Line B"; Some ""; Some "Line D"]
  /\ map (fun r => get "dy" (attrib r)) runs
     = [None; Some "12.0px"; Some "12.0px"; Some "12.0px"].
Proof.
  destruct (C6_line_runs_and_offsets Samples.text_10px Samples.four_lines
              eq_refl eq_refl eq_refl) as (Ht & Hd & H10 & _ & Hs).
  destruct (Hs eq_refl) as [Hs1 Hs2].
  split.
  - rewrite Ht, Hs1. reflexivity.
  - rewrite Hd, Hs2, (H10 eq_refl). reflexivity.
Defined.

(** The claim C6 as it is written asks for the offsets [0], [12px],
    [12px], [12px]; the code leaves the first run without an offset and
    prints the others as [12.0px]. *)
Lemma C6_offsets_counterexample :
  map (fun r => get "dy" (attrib r))
    (children (fst (FixAffinity.process_text_node Samples.text_10px)))
  <> [Some "0"; Some "12px"; Some "12px"; Some "12px"].
Proof. vm_compute. discriminate. Qed.

(** ** The text writer *)

Lemma is_tspan_written :
  forall c v,
    RenameTest.is_tspan
      (set_tail (Some "") (RenameTest._apply_value_to_node c v))
    = RenameTest.is_tspan c.
Proof. reflexivity. Qed.

Lemma distribute_length :
  forall lines l i,
    List.length (RenameTest.distribute lines i l) = List.length l.
Proof.
  intros lines l. induction l as [|c r IH]; intros i; [reflexivity|].
  simpl. destruct (RenameTest.is_tspan c); simpl; rewrite IH; reflexivity.
Qed.

Lemma distribute_tspans_length :
  forall lines l i,
    List.length (filter RenameTest.is_tspan (RenameTest.distribute lines i l))
    = List.length (filter RenameTest.is_tspan l).
Proof.
  intros lines l. induction l as [|c r IH]; intros i; [reflexivity|].
  simpl. destruct (RenameTest.is_tspan c) eqn:E.
  - cbn [filter]. rewrite is_tspan_written, E. simpl. rewrite IH. reflexivity.
  - cbn [filter]. rewrite E. apply IH.
Qed.

(** The [k]-th line run after the loops is the [k]-th line run before
    them, written with line [i + k]. *)
Lemma distribute_nth :
  forall lines l i k c,
    nth_error (filter RenameTest.is_tspan l) k = Some c ->
    nth_error (filter RenameTest.is_tspan (RenameTest.distribute lines i l)) k
    = Some (set_tail (Some "")
              (RenameTest._apply_value_to_node c (nth (i + k) lines ""))).
Proof.
  intros lines l. induction l as [|x r IH]; intros i k c H.
  - destruct k; discriminate H.
  - simpl in *. destruct (RenameTest.is_tspan x) eqn:E.
    + cbn [filter]. rewrite is_tspan_written, E.
      destruct k as [|k].
      * simpl in *. injection H as H. subst x.
        rewrite Nat.add_0_r. reflexivity.
      * simpl in *. rewrite (IH (S i) k c H).
        replace (S i + k) with (i + S k) by lia. reflexivity.
    + cbn [filter]. rewrite E. apply IH. exact H.
Qed.

(** The children that are not line runs are left alone. *)
Lemma distribute_others :
  forall lines l i,
    filter (fun c => negb (RenameTest.is_tspan c))
      (RenameTest.distribute lines i l)
    = filter (fun c => negb (RenameTest.is_tspan c)) l.
Proof.
  intros lines l. induction l as [|x r IH]; intros i; [reflexivity|].
  simpl. destruct (RenameTest.is_tspan x) eqn:E.
  - cbn [filter]. rewrite is_tspan_written, E. simpl. apply IH.
  - cbn [filter]. rewrite E. simpl. rewrite IH. reflexivity.
Qed.

Lemma split_char_length :
  forall sep s,
    List.length (split_char sep s)
    = S (count_occ ascii_dec (list_ascii_of_string s) sep).
Proof.
  intros sep s. induction s as [|c t IH]; [reflexivity|].
  simpl. destruct (Ascii.eqb c sep) eqn:E.
  - apply Ascii.eqb_eq in E. subst c.
    destruct (ascii_dec sep sep); [|contradiction].
    simpl. rewrite IH. reflexivity.
  - destruct (ascii_dec c sep) as [e|n].
    + subst c. rewrite Ascii.eqb_refl in E. discriminate E.
    + destruct (split_char sep t); [discriminate IH | exact IH].
Qed.

(** [_set_text] on a [<text>] element that has line runs. *)
Lemma set_text_on_runs :
  forall e value,
    RenameTest.localname (tag e) = "text" ->
    RenameTest._children_tspans e <> [] ->
    RenameTest._set_text e value
    = set_text None
        (set_children
           (RenameTest.distribute (split_char line_feed value) 0
              (children e)) e).
Proof.
  intros e value Ht Hn. unfold RenameTest._set_text, RenameTest.set_text_node.
  rewrite Ht. simpl.
  destruct (RenameTest._children_tspans e); [contradiction|reflexivity].
Qed.

(** [_set_text] on a [<text>] element without line runs. *)
Lemma set_text_direct :
  forall e value,
    RenameTest.localname (tag e) = "text" ->
    RenameTest._children_tspans e = [] ->
    RenameTest._set_text e value = set_text (Some value) e.
Proof.
  intros e value Ht Hn. unfold RenameTest._set_text, RenameTest.set_text_node.
  rewrite Ht. simpl. rewrite Hn. reflexivity.
Qed.

(** C3.  Writing a value of [M] lines into a [<text>] element with [N]
    line runs ([N] at least one): line [k] goes to run [k] for every
    [k] below both, every run from [M] on is blanked, no element is
    created or removed (so the lines from [N] on are dropped), and the
    leading text of the element is cleared.  [M] is one more than the
    number of line feeds of the value. *)
Theorem C3_write_text_onto_runs :
  forall (e : Element) (value : string),
    RenameTest.localname (tag e) = "text" ->
    RenameTest._children_tspans e <> [] ->
    let lines := split_char line_feed value in
    let M := List.length lines in
    let runs := RenameTest._children_tspans e in
    let N := List.length runs in
    let e' := RenameTest._set_text e value in
    let runs' := RenameTest._children_tspans e' in
    M = S (count_occ ascii_dec (list_ascii_of_string value) line_feed)
    /\ text e' = None
    /\ List.length (children e') = List.length (children e)
    /\ List.length runs' = N
    /\ (forall k c, nth_error runs k = Some c -> k < M ->
          exists c', nth_error runs' k = Some c'
                     /\ text c' = Some (nth k lines "")
                     /\ tag c' = tag c /\ attrib c' = attrib c)
    /\ (forall k c, nth_error runs k = Some c -> M <= k ->
          exists c', nth_error runs' k = Some c'
                     /\ text c' = Some ""
                     /\ tag c' = tag c /\ attrib c' = attrib c).
Proof.
  intros e value Ht Hn lines M runs N e' runs'.
  subst e' runs'. rewrite (set_text_on_runs e value Ht Hn).
  unfold RenameTest._children_tspans. cbn [children set_text set_children].
  fold lines. repeat split.
  - apply split_char_length.
  - apply distribute_length.
  - apply distribute_tspans_length.
  - intros k c Hk _. eexists. split; [apply (distribute_nth _ _ 0 k c Hk)|].
    repeat split.
  - intros k c Hk HM. eexists. split; [apply (distribute_nth _ _ 0 k c Hk)|].
    cbn [text set_tail RenameTest._apply_value_to_node set_children set_text].
    rewrite nth_overflow by (fold M; simpl; lia). repeat split.
Qed.

Lemma C3_write_text_onto_runs_witness :
  let e' :=
    RenameTest._set_text Samples.description_two_runs
      (Samples.lines ["NEW1"; "NEW2"; "NEW3"]) in
  text e' = None
  /\ List.length (RenameTest._children_tspans e') = 2
  /\ (exists c', nth_error (RenameTest._children_tspans e') 1 = Some c'
                 /\ text c' = Some "NEW2").
Proof.
  destruct (C3_write_text_onto_runs Samples.description_two_runs
              (Samples.lines ["NEW1"; "NEW2"; "NEW3"]) eq_refl
              ltac:(discriminate))
    as (_ & Ht & _ & Hn & Hlt & _).
  split; [exact Ht|]. split; [exact Hn|].
  destruct (Hlt 1 (Samples.tspan "OLD2") eq_refl ltac:(simpl; lia))
    as (c' & Hc & Htxt & _).
  exists c'. split; [exact Hc | exact Htxt].
Defined.

(** The two scenarios of the specification, run on the code. *)
Example write_three_lines_onto_two_runs :
  map text
    (children
       (RenameTest._set_text Samples.description_two_runs
          (Samples.lines ["NEW1"; "NEW2"; "NEW3"])))
  = [Some "NEW1"; Some "NEW2"].
Proof. reflexivity. Qed.

Example write_two_lines_onto_five_runs :
  map text
    (children
       (RenameTest._set_text Samples.five_runs (Samples.lines ["X"; "Y"])))
  = [Some "X"; Some "Y"; Some ""; Some ""; Some ""].
Proof. reflexivity. Qed.

(** C9.  After [_set_text] on a [<text>] element, and after
    [split_into_tspans], the element never has both a non-empty leading
    text and a line run with text: the leading text is written only when
    there is no line run, and it is cleared whenever the text goes to
    line runs. *)
Theorem C9_text_or_runs_never_both :
  forall (e : Element) (value : string),
    RenameTest.localname (tag e) = "text" ->
    let e' := RenameTest._set_text e value in
    (RenameTest._children_tspans e = [] ->
       text e' = Some value /\ children e' = children e)
    /\ (RenameTest._children_tspans e <> [] -> text e' = None)
    /\ ~ (opt_truthy (text e') = true
          /\ exists c, In c (RenameTest._children_tspans e')
                       /\ opt_truthy (text c) = true)
    /\ (forall raw base_x line_height,
          text (FixAffinity.split_into_tspans e raw base_x line_height)
          = None).
Proof.
  intros e value Ht e'. subst e'.
  destruct (RenameTest._children_tspans e) as [|c r] eqn:E.
  - rewrite (set_text_direct e value Ht E).
    split; [|split; [|split]].
    + intros _. split; reflexivity.
    + intros H. contradiction.
    + intros [_ (c & Hc & _)]. unfold RenameTest._children_tspans in *.
      cbn [children set_text] in Hc. rewrite E in Hc. exact Hc.
    + reflexivity.
  - assert (N : RenameTest._children_tspans e <> [])
      by (rewrite E; discriminate).
    rewrite (set_text_on_runs e value Ht N).
    split; [|split; [|split]].
    + intros H. discriminate H.
    + reflexivity.
    + intros [H _]. discriminate H.
    + reflexivity.
Qed.

Lemma C9_text_or_runs_never_both_witness :
  let e' := RenameTest._set_text Samples.five_runs "one line" in
  text e' = None
  /\ text (FixAffinity.split_into_tspans Samples.five_runs
             (Samples.esc "a" "b") None FixAffinity.twelve) = None.
Proof.
  destruct (C9_text_or_runs_never_both Samples.five_runs "one line" eq_refl)
    as (_ & Hruns & _ & Hsplit).
  split.
  - apply Hruns. discriminate.
  - apply Hsplit.
Defined.

(** ** Paths and traversals *)

Lemma subtree_paths_unfold :
  forall p e, subtree_paths p e = p :: forest_paths p 0 (children e).
Proof.
  intros p [tg a tx tl cs]. cbn [subtree_paths children].
  f_equal. generalize 0. induction cs as [|c r IH]; intros i; [reflexivity|].
  cbn [forest_paths]. rewrite <- IH. reflexivity.
Qed.

Lemma Element_induction :
  forall P : Element -> Prop,
    (forall e, Forall P (children e) -> P e) -> forall e, P e.
Proof.
  intros P H. fix IH 1. intros e. apply H.
  destruct e as [tg a tx tl cs]. cbn [children].
  induction cs as [|c r IHr]; constructor; [apply IH | exact IHr].
Qed.

Lemma size_unfold : forall e, size e = S (list_sum (map size (children e))).
Proof. intros [tg a tx tl cs]. reflexivity. Qed.

Lemma forest_paths_length :
  forall l,
    Forall (fun c => forall p, List.length (subtree_paths p c) = size c) l ->
    forall p i, List.length (forest_paths p i l) = list_sum (map size l).
Proof.
  induction l as [|c r IH]; intros H p i; [reflexivity|].
  inversion H as [|? ? Hc Hr]; subst. cbn [forest_paths map list_sum].
  rewrite length_app, Hc, (IH Hr). reflexivity.
Qed.

(** A subtree has as many paths as elements. *)
Lemma subtree_paths_length :
  forall e p, List.length (subtree_paths p e) = size e.
Proof.
  induction e as [e IH] using Element_induction. intros p.
  rewrite subtree_paths_unfold, size_unfold. cbn [List.length].
  rewrite (forest_paths_length _ IH). reflexivity.
Qed.

Lemma get_path_app :
  forall p q e,
    get_path e (p ++ q)
    = match get_path e p with
      | Some n => get_path n q
      | None => None
      end.
Proof.
  induction p as [|i p IH]; intros q e; [reflexivity|].
  cbn [app get_path]. destruct (nth_error (children e) i); [apply IH|reflexivity].
Qed.

Lemma get_path_child :
  forall root p node i,
    get_path root p = Some node ->
    get_path root (p ++ [i]) = nth_error (children node) i.
Proof.
  intros root p node i H. rewrite get_path_app, H. cbn [get_path].
  destruct (nth_error (children node) i); reflexivity.
Qed.

(** Walking the children of a node is walking the forest below it. *)
Lemma walk_forest :
  forall root p l i,
    (forall k c, nth_error l k = Some c ->
                 get_path root (p ++ [i + k]) = Some c) ->
    walk root (map (fun j => p ++ [j]) (seq i (List.length l)))
    = forest_paths p i l.
Proof.
  intros root p l. induction l as [|c r IH]; intros i H; [reflexivity|].
  cbn [List.length seq map forest_paths]. unfold walk in *.
  cbn [flat_map]. rewrite (IH (S i)).
  - pose proof (H 0 c eq_refl) as H0. rewrite Nat.add_0_r in H0.
    rewrite H0. reflexivity.
  - intros k c' Hk. replace (S i + k) with (i + S k) by lia.
    apply H. exact Hk.
Qed.

Lemma walk_children :
  forall root p node,
    get_path root p = Some node ->
    walk root (child_paths p node) = forest_paths p 0 (children node).
Proof.
  intros root p node H. unfold child_paths. apply walk_forest.
  intros k c Hk. cbn [Nat.add]. rewrite (get_path_child _ _ _ _ H). exact Hk.
Qed.

Lemma walk_app :
  forall root s1 s2, walk root (s1 ++ s2) = walk root s1 ++ walk root s2.
Proof. intros. unfold walk. apply flat_map_app. Qed.

(** One step of a depth-first worklist: the node on top of the stack,
    then its children before the rest. *)
Lemma walk_step :
  forall root p node rest,
    get_path root p = Some node ->
    walk root (p :: rest) = p :: walk root (child_paths p node ++ rest).
Proof.
  intros root p node rest H. rewrite walk_app, (walk_children _ _ _ H).
  unfold walk at 1. cbn [flat_map]. rewrite H, subtree_paths_unfold.
  reflexivity.
Qed.

Lemma descendant_paths_walk :
  forall e, descendant_paths e = walk e (child_paths [] e).
Proof.
  intros e. unfold descendant_paths. rewrite subtree_paths_unfold.
  cbn [tl]. symmetry. apply walk_children. reflexivity.
Qed.

Lemma descendant_paths_length :
  forall e, S (List.length (descendant_paths e)) = size e.
Proof.
  intros e. rewrite <- (subtree_paths_length e []).
  unfold descendant_paths. rewrite subtree_paths_unfold. reflexivity.
Qed.


Lemma child_paths_valid :
  forall root p node,
    get_path root p = Some node ->
    Frame.valid_stack root (child_paths p node).
Proof.
  intros root p node H. unfold Frame.valid_stack, child_paths.
  apply Forall_forall. intros q Hq. apply in_map_iff in Hq.
  destruct Hq as (i & <- & Hi). apply in_seq in Hi.
  rewrite (get_path_child _ _ _ _ H).
  apply nth_error_Some. lia.
Qed.

Lemma walk_nonempty :
  forall root p rest,
    get_path root p <> None -> walk root (p :: rest) <> [].
Proof.
  intros root p rest H. destruct (get_path root p) as [node|] eqn:E;
    [|contradiction].
  rewrite (walk_step _ _ _ _ E). discriminate.
Qed.

(** ** The inner search of the field locator *)

(** With fuel for every node that the stack still leads to, the loop of
    [_find_text_or_tspan_descendant] ends, and it returns the first
    [<text>] or [<tspan>] of the depth-first walk. *)
Lemma find_loop_first :
  forall elem fuel stack,
    Frame.valid_stack elem stack ->
    List.length (walk elem stack) <= fuel ->
    RenameTest.find_loop fuel elem stack
    = Some (find (RenameTest.text_bearing elem) (walk elem stack)).
Proof.
  intros elem fuel. induction fuel as [|fuel IH]; intros stack Hv Hf.
  - destruct stack as [|p rest]; [reflexivity|].
    inversion Hv as [|? ? Hp Hr]; subst.
    pose proof (walk_nonempty elem p rest Hp) as N.
    destruct (walk elem (p :: rest)); [contradiction | simpl in Hf; lia].
  - destruct stack as [|p rest]; [reflexivity|].
    inversion Hv as [|? ? Hp Hr]; subst.
    cbn [RenameTest.find_loop].
    destruct (get_path elem p) as [node|] eqn:E; [|contradiction].
    rewrite (walk_step _ _ _ _ E) in *. cbn [find].
    unfold RenameTest.text_bearing at 1. rewrite E.
    destruct (RenameTest.is_text_or_tspan node); [reflexivity|].
    apply IH.
    + apply Forall_app. split; [apply (child_paths_valid _ _ _ E) | exact Hr].
    + simpl in Hf. lia.
Qed.

(** The search returns the first [<text>] or [<tspan>] among the proper
    descendants in document order. *)
Lemma find_descendant_first :
  forall elem,
    RenameTest._find_text_or_tspan_descendant elem
    = find (RenameTest.text_bearing elem) (descendant_paths elem).
Proof.
  intros elem. unfold RenameTest._find_text_or_tspan_descendant.
  rewrite find_loop_first.
  - rewrite descendant_paths_walk. reflexivity.
  - apply child_paths_valid. reflexivity.
  - rewrite <- descendant_paths_walk.
    pose proof (descendant_paths_length elem). lia.
Qed.

Lemma forest_paths_below :
  forall l,
    Forall (fun c => forall p q, In q (subtree_paths p c) ->
                     exists s, q = p ++ s) l ->
    forall p i q, In q (forest_paths p i l) -> exists k s, q = p ++ k :: s.
Proof.
  induction l as [|c r IH]; intros H p i q Hq; [contradiction|].
  inversion H as [|? ? Hc Hr]; subst. cbn [forest_paths] in Hq.
  apply in_app_or in Hq. destruct Hq as [Hq|Hq].
  - destruct (Hc _ _ Hq) as (s & ->). exists i, s.
    rewrite <- app_assoc. reflexivity.
  - apply (IH Hr p (S i)). exact Hq.
Qed.

Lemma subtree_paths_below :
  forall e p q, In q (subtree_paths p e) -> exists s, q = p ++ s.
Proof.
  induction e as [e IH] using Element_induction. intros p q Hq.
  rewrite subtree_paths_unfold in Hq. destruct Hq as [<-|Hq].
  - exists []. rewrite app_nil_r. reflexivity.
  - destruct (forest_paths_below _ IH _ _ _ Hq) as (k & s & ->).
    exists (k :: s). reflexivity.
Qed.

(** The path of a proper descendant is not empty. *)
Lemma descendant_paths_proper :
  forall e q, In q (descendant_paths e) -> q <> [].
Proof.
  intros e q Hq. unfold descendant_paths in Hq.
  rewrite subtree_paths_unfold in Hq. cbn [tl] in Hq.
  assert (H : Forall (fun c => forall p q, In q (subtree_paths p c) ->
                        exists s, q = p ++ s) (children e)).
  { apply Forall_forall. intros c _ p q'. apply subtree_paths_below. }
  destruct (forest_paths_below _ H _ _ _ Hq) as (k & s & ->). discriminate.
Qed.

(** C1, as the code has it.  The inner search below a group is
    depth-first: it returns the first [<text>] or [<tspan>] among the
    proper descendants of the group in document order.  In particular,
    when exactly one descendant is a [<text>] or a [<tspan>], the search
    returns that descendant, never the group itself. *)
Theorem C1_inner_search_is_depth_first :
  forall g : Element,
    RenameTest._find_text_or_tspan_descendant g
    = find (RenameTest.text_bearing g) (descendant_paths g)
    /\ (forall p,
          In p (descendant_paths g) ->
          RenameTest.text_bearing g p = true ->
          (forall q, In q (descendant_paths g) ->
                     RenameTest.text_bearing g q = true -> q = p) ->
          RenameTest._find_text_or_tspan_descendant g = Some p /\ p <> []).
Proof.
  intros g. split; [apply find_descendant_first|].
  intros p Hp Ht Hu. split; [|apply (descendant_paths_proper g p Hp)].
  rewrite find_descendant_first.
  destruct (find (RenameTest.text_bearing g) (descendant_paths g))
    as [q|] eqn:E.
  - apply find_some in E. destruct E as [Hq Hqt].
    rewrite (Hu q Hq Hqt). reflexivity.
  - pose proof (find_none _ _ E p Hp) as N. congruence.
Qed.

Lemma C1_inner_search_is_depth_first_witness :
  let g :=
    mkElement "g" [("id", "TITLE")] None None
      [mkElement "g" [] None None [Samples.tspan "x"]] in
  RenameTest._find_text_or_tspan_descendant g = Some [0; 0].
Proof.
  refine (proj1 (proj2 (C1_inner_search_is_depth_first _) [0; 0] _ _ _)).
  - simpl. auto.
  - reflexivity.
  - intros q Hq Hqt. simpl in Hq.
    destruct Hq as [<-|[<-|[]]]; [discriminate Hqt | reflexivity].
Defined.

(** The claim C1 as it is written: the search is breadth-first, so a
    child of the group wins over a deeper node that comes first in the
    document.  On [<g><g><text>A</text></g><text>B</text></g>] the code
    returns [A], the breadth-first search [B]. *)
Lemma C1_breadth_first_counterexample :
  RenameTest._find_text_or_tspan_descendant Samples.nested_group
  = Some [0; 0]
  /\ Spec.breadth_first_descendant Samples.nested_group = Some [1]
  /\ ~ (forall g,
          RenameTest._find_text_or_tspan_descendant g
          = Spec.breadth_first_descendant g).
Proof.
  split; [reflexivity|]. split; [reflexivity|].
  intros H. specialize (H Samples.nested_group). discriminate H.
Qed.

(** ** Mutation at a path *)

Lemma update_nth_length :
  forall A (f : A -> A) l i, List.length (update_nth f i l) = List.length l.
Proof.
  intros A f l. induction l as [|x r IH]; intros i; [destruct i; reflexivity|].
  destruct i; simpl; [reflexivity | rewrite IH; reflexivity].
Qed.

Lemma update_nth_same :
  forall A (f : A -> A) l i x,
    nth_error l i = Some x -> nth_error (update_nth f i l) i = Some (f x).
Proof.
  intros A f l. induction l as [|y r IH]; intros i x H.
  - destruct i; discriminate H.
  - destruct i; simpl in *; [injection H as ->; reflexivity | apply IH, H].
Qed.

Lemma update_nth_other :
  forall A (f : A -> A) l i j,
    i <> j -> nth_error (update_nth f i l) j = nth_error l j.
Proof.
  intros A f l. induction l as [|y r IH]; intros i j H.
  - destruct i; reflexivity.
  - destruct i, j; simpl; try reflexivity; [contradiction | apply IH; lia].
Qed.

Lemma get_path_update_same :
  forall f p r n,
    get_path r p = Some n -> get_path (update_path f p r) p = Some (f n).
Proof.
  intros f p. induction p as [|i p IH]; intros r n H.
  - simpl in *. injection H as ->. reflexivity.
  - cbn [get_path update_path children set_children] in *.
    destruct (nth_error (children r) i) as [c|] eqn:E; [|discriminate H].
    rewrite (update_nth_same _ _ _ _ _ E). apply IH, H.
Qed.

(** A mutation below [t] leaves the own fields of the nodes that are not
    below [t] as they were. *)
Lemma update_path_frame :
  forall f t r q n,
    get_path r q = Some n ->
    ~ Frame.above t q ->
    exists n',
      get_path (update_path f t r) q = Some n'
      /\ tag n' = tag n /\ attrib n' = attrib n
      /\ text n' = text n /\ tail n' = tail n.
Proof.
  intros f t. induction t as [|i t IH]; intros r q n H N.
  - exfalso. apply N. exists q. reflexivity.
  - destruct q as [|j q].
    + simpl in H. injection H as <-. eexists. split; [reflexivity|].
      repeat split.
    + cbn [get_path update_path children set_children] in *.
      destruct (nth_error (children r) j) as [c|] eqn:E; [|discriminate H].
      destruct (Nat.eq_dec i j) as [<-|D].
      * rewrite (update_nth_same _ _ _ _ _ E). apply IH; [exact H|].
        intros (s & ->). apply N. exists s. reflexivity.
      * rewrite (update_nth_other _ _ _ _ _ D), E.
        exists n. repeat split. exact H.
Qed.

Lemma clearing_refl : forall e, Frame.clearing e e.
Proof. intros e q n H. exists n. repeat split; auto. Qed.

Lemma clearing_trans :
  forall a b c, Frame.clearing a b -> Frame.clearing b c -> Frame.clearing a c.
Proof.
  intros a b c Hab Hbc q n H.
  destruct (Hab q n H) as (n1 & H1 & T1 & A1 & L1 & X1 & Y1).
  destruct (Hbc q n1 H1) as (n2 & H2 & T2 & A2 & L2 & X2 & Y2).
  exists n2. repeat split; try congruence; auto.
Qed.

Lemma clearing_blank :
  forall a b q, Frame.clearing a b -> Frame.blank_at a q -> Frame.blank_at b q.
Proof.
  intros a b q Hab (n & H & X & Y).
  destruct (Hab q n H) as (n1 & H1 & _ & _ & _ & X1 & Y1).
  exists n1. repeat split; auto.
Qed.

(** A mutation that only blanks, done at a path, only blanks. *)
Lemma clearing_update_path :
  forall f,
    (forall n, Frame.clearing n (f n)) ->
    forall p r, Frame.clearing r (update_path f p r).
Proof.
  intros f Hf p. induction p as [|i p IH]; intros r; [apply Hf|].
  intros q n H. destruct q as [|j q].
  - simpl in H. injection H as <-. eexists. split; [reflexivity|].
    cbn [update_path children set_children tag attrib text tail].
    rewrite update_nth_length. repeat split; auto.
  - cbn [get_path update_path children set_children] in *.
    destruct (nth_error (children r) j) as [c|] eqn:E; [|discriminate H].
    destruct (Nat.eq_dec i j) as [<-|D].
    + rewrite (update_nth_same _ _ _ _ _ E). apply IH, H.
    + rewrite (update_nth_other _ _ _ _ _ D), E.
      exists n. repeat split; auto.
Qed.

Lemma clearing_clear_node :
  forall n, Frame.clearing n (RenameTest.clear_node n).
Proof.
  intros n q m H. destruct q as [|j q].
  - simpl in H. injection H as <-. eexists. split; [reflexivity|].
    cbn [RenameTest.clear_node set_tail set_children set_text tag attrib
         text tail children]. rewrite length_map. repeat split.
  - cbn [get_path RenameTest.clear_node set_tail set_children set_text
         children] in *.
    rewrite nth_error_map.
    destruct (nth_error (children n) j) as [c|]; [|discriminate H].
    cbn [option_map]. destruct q as [|k q].
    + simpl in H. injection H as <-. eexists. split; [reflexivity|].
      repeat split.
    + exists m. repeat split; auto.
Qed.

Lemma is_text_or_tspan_tag :
  forall a b,
    tag a = tag b ->
    RenameTest.is_text_or_tspan a = RenameTest.is_text_or_tspan b.
Proof. intros a b H. unfold RenameTest.is_text_or_tspan. rewrite H. reflexivity. Qed.

Lemma child_paths_length :
  forall p a b,
    List.length (children a) = List.length (children b) ->
    child_paths p a = child_paths p b.
Proof. intros p a b H. unfold child_paths. rewrite H. reflexivity. Qed.

Lemma path_eqb_eq : forall p q, path_eqb p q = true <-> p = q.
Proof.
  intros p q. unfold path_eqb.
  destruct (list_eq_dec Nat.eq_dec p q); split; congruence.
Qed.

(** ** Clearing the other texts of a group *)

(** With enough fuel the loop of [_clear_all_text_descendants] ends; it
    only blanks texts and tails, and it blanks those of every [<text>]
    and [<tspan>] that the stack leads to, the excepted node apart.
    [elem0] is the tree before the loop. *)
Lemma clear_loop_blanks :
  forall except elem0 fuel elem stack,
    Frame.clearing elem0 elem ->
    Frame.valid_stack elem0 stack ->
    List.length (walk elem0 stack) <= fuel ->
    exists elem',
      RenameTest.clear_loop fuel except elem stack = Some elem'
      /\ Frame.clearing elem elem'
      /\ forall q,
           In q (walk elem0 stack) ->
           Some q <> except ->
           RenameTest.text_bearing elem0 q = true ->
           Frame.blank_at elem' q.
Proof.
  intros except elem0 fuel.
  induction fuel as [|fuel IH]; intros elem stack Hc Hv Hf.
  - destruct stack as [|p rest].
    + exists elem. split; [reflexivity|]. split; [apply clearing_refl|].
      intros q [].
    + inversion Hv as [|? ? Hp Hr]; subst.
      pose proof (walk_nonempty elem0 p rest Hp) as N.
      destruct (walk elem0 (p :: rest)); [contradiction | simpl in Hf; lia].
  - destruct stack as [|p rest].
    + exists elem. split; [reflexivity|]. split; [apply clearing_refl|].
      intros q [].
    + inversion Hv as [|? ? Hp Hr]; subst.
      destruct (get_path elem0 p) as [n0|] eqn:E0; [|contradiction].
      destruct (Hc p n0 E0) as (n & En & Tn & _ & Ln & _ & _).
      cbn [RenameTest.clear_loop]. rewrite En.
      rewrite (child_paths_length p n n0 Ln).
      rewrite (is_text_or_tspan_tag n n0 Tn).
      rewrite (walk_step _ _ _ _ E0) in *.
      assert (Hv' : Frame.valid_stack elem0 (child_paths p n0 ++ rest)).
      { apply Forall_app. split; [apply (child_paths_valid _ _ _ E0)|exact Hr]. }
      assert (Hf' : List.length (walk elem0 (child_paths p n0 ++ rest)) <= fuel)
        by (simpl in Hf; lia).
      destruct (match except with
                | Some q => path_eqb p q
                | None => false
                end) eqn:X.
      * destruct (IH elem _ Hc Hv' Hf') as (elem' & R & C & B).
        exists elem'. split; [exact R|]. split; [exact C|].
        intros q [<-|Hq] Hx Ht; [|apply B; assumption].
        destruct except as [x|]; [|discriminate X].
        apply path_eqb_eq in X. subst x. contradiction.
      * set (elem1 := if RenameTest.is_text_or_tspan n0
                      then update_path RenameTest.clear_node p elem
                      else elem).
        assert (C1 : Frame.clearing elem elem1).
        { subst elem1. destruct (RenameTest.is_text_or_tspan n0);
            [|apply clearing_refl].
          apply clearing_update_path, clearing_clear_node. }
        destruct (IH elem1 _ (clearing_trans _ _ _ Hc C1) Hv' Hf')
          as (elem' & R & C & B).
        exists elem'. split; [exact R|].
        split; [apply (clearing_trans _ _ _ C1 C)|].
        intros q [<-|Hq] Hx Ht; [|apply B; assumption].
        apply (clearing_blank elem1 elem' p C).
        unfold RenameTest.text_bearing in Ht. rewrite E0 in Ht.
        subst elem1. rewrite Ht.
        exists (RenameTest.clear_node n).
        split; [apply get_path_update_same, En|]. split; reflexivity.
Qed.

(** [_clear_all_text_descendants] blanks every [<text>] and [<tspan>]
    below [elem] except the excepted node, and does nothing else. *)
Lemma clear_all_text_descendants_blanks :
  forall elem except,
    Frame.clearing elem (RenameTest._clear_all_text_descendants elem except)
    /\ forall q,
         In q (descendant_paths elem) ->
         Some q <> except ->
         RenameTest.text_bearing elem q = true ->
         Frame.blank_at (RenameTest._clear_all_text_descendants elem except) q.
Proof.
  intros elem except. unfold RenameTest._clear_all_text_descendants.
  destruct (clear_loop_blanks except elem (size elem) elem
              (child_paths [] elem) (clearing_refl elem)) as (elem' & R & C & B).
  - apply child_paths_valid. reflexivity.
  - rewrite <- descendant_paths_walk.
    pose proof (descendant_paths_length elem). lia.
  - rewrite R. split; [exact C|].
    intros q Hq. apply B. rewrite <- descendant_paths_walk. exact Hq.
Qed.

Lemma set_text_on_group :
  forall g value target,
    RenameTest.localname (tag g) = "g" ->
    RenameTest._find_text_or_tspan_descendant g = Some target ->
    RenameTest._set_text g value
    = update_path (fun e => RenameTest.set_text_node e value) target
        (RenameTest._clear_all_text_descendants g (Some target)).
Proof.
  intros g value target Hg Hf. unfold RenameTest._set_text.
  rewrite Hg, Hf. reflexivity.
Qed.

(** C10.  When the identifier is bound to a group, the write first runs
    [_clear_all_text_descendants]: every [<text>] and [<tspan>] below the
    group other than the chosen target has its text and its tail set to
    the empty string.  The write that follows touches the target only, so
    in the result every [<text>] and [<tspan>] of the group that does not
    lie below the target, a sibling for instance, is still blank. *)
Theorem C10_group_write_blanks_the_other_texts :
  forall (g : Element) (value : string) (target : path),
    RenameTest.localname (tag g) = "g" ->
    RenameTest._find_text_or_tspan_descendant g = Some target ->
    (forall q,
       In q (descendant_paths g) ->
       q <> target ->
       RenameTest.text_bearing g q = true ->
       Frame.blank_at
         (RenameTest._clear_all_text_descendants g (Some target)) q)
    /\ (forall q,
          In q (descendant_paths g) ->
          ~ Frame.above target q ->
          RenameTest.text_bearing g q = true ->
          Frame.blank_at (RenameTest._set_text g value) q).
Proof.
  intros g value target Hg Hf.
  destruct (clear_all_text_descendants_blanks g (Some target)) as [_ B].
  split.
  - intros q Hq Hne Ht. apply B; [exact Hq | congruence | exact Ht].
  - intros q Hq Hab Ht.
    rewrite (set_text_on_group g value target Hg Hf).
    assert (Hne : Some q <> Some target).
    { intros E. injection E as ->. apply Hab. exists [].
      rewrite app_nil_r. reflexivity. }
    destruct (B q Hq Hne Ht) as (n & Hn & Hx & Hy).
    destruct (update_path_frame
                (fun e => RenameTest.set_text_node e value) target _ q n
                Hn Hab) as (n' & Hn' & _ & _ & Hx' & Hy').
    exists n'. split; [exact Hn'|]. split; congruence.
Qed.

Lemma C10_group_write_blanks_the_other_texts_witness :
  Frame.blank_at
    (RenameTest._set_text Samples.group_with_siblings "New") [1]
  /\ Frame.blank_at
       (RenameTest._set_text Samples.group_with_siblings "New") [2; 0].
Proof.
  destruct (C10_group_write_blanks_the_other_texts
              Samples.group_with_siblings "New" [0] eq_refl eq_refl)
    as [_ H].
  split; apply H; try reflexivity.
  - simpl. auto.
  - intros (s & E). discriminate E.
  - simpl. auto 6.
  - intros (s & E). discriminate E.
Defined.

(** The group of the witness after the write: the target holds the new
    text on its own (its run is blanked by the write itself), the other
    texts are empty. *)
Example group_write_on_sample :
  RenameTest._set_text Samples.group_with_siblings "New"
  = mkElement "g" [("id", "TITLE")] None None
      [mkElement "text" [] None None
         [mkElement "tspan" [] (Some "New") (Some "") []];
       mkElement "text" [] (Some "") (Some "") [];
       mkElement "g" [] None None
         [mkElement "tspan" [] (Some "") (Some "") []]].
Proof. reflexivity. Qed.

(** ** What a write leaves alone *)

Lemma skeleton_refl : forall e, Frame.skeleton e e.
Proof. intros e q n H. exists n. repeat split; auto. Qed.

Lemma skeleton_trans :
  forall a b c, Frame.skeleton a b -> Frame.skeleton b c -> Frame.skeleton a c.
Proof.
  intros a b c Hab Hbc q n H.
  destruct (Hab q n H) as (n1 & H1 & T1 & A1 & L1).
  destruct (Hbc q n1 H1) as (n2 & H2 & T2 & A2 & L2).
  exists n2. repeat split; congruence.
Qed.

(** Two elements with the same tag and attributes whose children
    correspond one by one. *)
Lemma skeleton_children :
  forall a b,
    tag b = tag a -> attrib b = attrib a ->
    Forall2 Frame.skeleton (children a) (children b) ->
    Frame.skeleton a b.
Proof.
  intros a b Ht Ha Hc q n H. destruct q as [|j q].
  - simpl in H. injection H as <-. exists b. split; [reflexivity|].
    repeat split; auto. symmetry. apply (Forall2_length Hc).
  - cbn [get_path] in *.
    destruct (nth_error (children a) j) as [c|] eqn:E; [|discriminate H].
    revert j E. induction Hc as [|x y l l' Hxy Hl IH]; intros j E.
    + destruct j; discriminate E.
    + destruct j as [|j]; simpl in *.
      * injection E as ->. apply Hxy, H.
      * apply IH, E.
Qed.

Lemma skeleton_child :
  forall a b j c,
    Frame.skeleton a b ->
    nth_error (children a) j = Some c ->
    exists c', nth_error (children b) j = Some c' /\ Frame.skeleton c c'.
Proof.
  intros a b j c H E.
  destruct (H [j] c) as (c' & Hc' & _).
  { cbn [get_path]. rewrite E. reflexivity. }
  cbn [get_path] in Hc'.
  destruct (nth_error (children b) j) as [c''|] eqn:E'; [|discriminate Hc'].
  injection Hc' as ->. exists c'. split; [reflexivity|].
  intros q n Hq. destruct (H (j :: q) n) as (n' & Hn' & R).
  { cbn [get_path]. rewrite E. exact Hq. }
  cbn [get_path] in Hn'. rewrite E' in Hn'. exists n'. split; assumption.
Qed.

Lemma clearing_skeleton :
  forall a b, Frame.clearing a b -> Frame.skeleton a b.
Proof.
  intros a b H q n Hq. destruct (H q n Hq) as (n' & Hn' & T & A & L & _).
  exists n'. repeat split; assumption.
Qed.

Lemma skeleton_update_path :
  forall f,
    (forall n, Frame.skeleton n (f n)) ->
    forall p r, Frame.skeleton r (update_path f p r).
Proof.
  intros f Hf p. induction p as [|i p IH]; intros r; [apply Hf|].
  intros q n H. destruct q as [|j q].
  - simpl in H. injection H as <-. eexists. split; [reflexivity|].
    cbn [update_path children set_children tag attrib].
    rewrite update_nth_length. repeat split; auto.
  - cbn [get_path update_path children set_children] in *.
    destruct (nth_error (children r) j) as [c|] eqn:E; [|discriminate H].
    destruct (Nat.eq_dec i j) as [<-|D].
    + rewrite (update_nth_same _ _ _ _ _ E). apply IH, H.
    + rewrite (update_nth_other _ _ _ _ _ D), E.
      exists n. repeat split; auto.
Qed.

Lemma skeleton_own_fields :
  forall a b,
    tag b = tag a -> attrib b = attrib a -> children b = children a ->
    Frame.skeleton a b.
Proof.
  intros a b Ht Ha Hc. apply skeleton_children; [exact Ht | exact Ha|].
  rewrite Hc. clear. induction (children a); constructor;
    [apply skeleton_refl | assumption].
Qed.

Lemma skeleton_clear_child :
  forall c, Frame.skeleton c (RenameTest.clear_child c).
Proof. intros c. apply skeleton_own_fields; reflexivity. Qed.

Lemma skeleton_apply_value :
  forall c v, Frame.skeleton c (RenameTest._apply_value_to_node c v).
Proof.
  intros c v. apply skeleton_children; [reflexivity | reflexivity|].
  cbn [RenameTest._apply_value_to_node set_tail set_children children].
  induction (children c); constructor; [apply skeleton_clear_child | assumption].
Qed.

Lemma skeleton_distribute :
  forall lines l i,
    Forall2 Frame.skeleton l (RenameTest.distribute lines i l).
Proof.
  intros lines l. induction l as [|c r IH]; intros i; [constructor|].
  cbn [RenameTest.distribute]. destruct (RenameTest.is_tspan c).
  - constructor; [|apply IH].
    apply (skeleton_trans _ (RenameTest._apply_value_to_node c (nth i lines ""))).
    + apply skeleton_apply_value.
    + apply skeleton_own_fields; reflexivity.
  - constructor; [apply skeleton_refl | apply IH].
Qed.

Lemma skeleton_set_text_node :
  forall e v, Frame.skeleton e (RenameTest.set_text_node e v).
Proof.
  intros e v. unfold RenameTest.set_text_node.
  destruct (String.eqb _ "tspan"); [apply skeleton_apply_value|].
  destruct (String.eqb _ "text").
  - destruct (RenameTest._children_tspans e).
    + apply skeleton_own_fields; reflexivity.
    + apply skeleton_children; [reflexivity | reflexivity|].
      apply skeleton_distribute.
  - apply skeleton_own_fields; reflexivity.
Qed.

(** [_set_text] changes texts and tails only. *)
Lemma skeleton_set_text :
  forall e v, Frame.skeleton e (RenameTest._set_text e v).
Proof.
  intros e v. unfold RenameTest._set_text.
  destruct (String.eqb _ "g"); [|apply skeleton_set_text_node].
  destruct (RenameTest._find_text_or_tspan_descendant e) as [t|];
    [|apply skeleton_refl].
  apply (skeleton_trans _ (RenameTest._clear_all_text_descendants e (Some t))).
  - apply clearing_skeleton, clear_all_text_descendants_blanks.
  - apply skeleton_update_path. intros n. apply skeleton_set_text_node.
Qed.

Lemma skeleton_set_text_by_id :
  forall root field v,
    Frame.skeleton root (fst (RenameTest.set_text_by_id root field v)).
Proof.
  intros root field v. unfold RenameTest.set_text_by_id.
  destruct (RenameTest._find_by_id root field); [|apply skeleton_refl].
  apply skeleton_update_path. intros n. apply skeleton_set_text.
Qed.

Lemma forest_paths_skeleton :
  forall l l',
    Forall2 (fun c c' => forall p, subtree_paths p c' = subtree_paths p c)
      l l' ->
    forall p i, forest_paths p i l' = forest_paths p i l.
Proof.
  intros l l' H. induction H as [|c c' l l' Hc Hl IH]; intros p i;
    [reflexivity|].
  cbn [forest_paths]. rewrite Hc, IH. reflexivity.
Qed.

(** The paths of a tree depend on its skeleton only. *)
Lemma skeleton_subtree_paths :
  forall a b p, Frame.skeleton a b -> subtree_paths p b = subtree_paths p a.
Proof.
  induction a as [a IH] using Element_induction. intros b p H.
  rewrite !subtree_paths_unfold. f_equal. apply forest_paths_skeleton.
  destruct (H [] a eq_refl) as (b' & Hb & _ & _ & L).
  simpl in Hb. injection Hb as <-.
  assert (K : forall j c, nth_error (children a) j = Some c ->
              exists c', nth_error (children b) j = Some c'
                         /\ Frame.skeleton c c')
    by (intros j c; apply skeleton_child, H).
  clear H. revert IH L K. generalize (children b) as lb.
  induction (children a) as [|c r IHr]; intros lb IH L K.
  - destruct lb; [constructor | discriminate L].
  - destruct lb as [|c' r']; [discriminate L|].
    inversion IH as [|? ? Hc Hr]; subst.
    destruct (K 0 c eq_refl) as (c'' & E & Sk). simpl in E.
    injection E as <-. constructor.
    + intros q. apply Hc, Sk.
    + apply IHr; [exact Hr | simpl in L; lia|].
      intros j x Hx. apply (K (S j) x Hx).
Qed.

Lemma forest_paths_valid :
  forall l,
    Forall (fun c => forall p q, In q (subtree_paths p c) ->
                     exists s, q = p ++ s /\ get_path c s <> None) l ->
    forall p i q,
      In q (forest_paths p i l) ->
      exists k s c, q = p ++ (i + k) :: s /\ nth_error l k = Some c
                    /\ get_path c s <> None.
Proof.
  induction l as [|c r IH]; intros H p i q Hq; [contradiction|].
  inversion H as [|? ? Hc Hr]; subst. cbn [forest_paths] in Hq.
  apply in_app_or in Hq. destruct Hq as [Hq|Hq].
  - destruct (Hc _ _ Hq) as (s & -> & V). exists 0, s, c.
    rewrite <- app_assoc, Nat.add_0_r. repeat split. exact V.
  - destruct (IH Hr p (S i) q Hq) as (k & s & x & -> & E & V).
    exists (S k), s, x. replace (i + S k) with (S i + k) by lia.
    repeat split; assumption.
Qed.

(** Every path of a subtree leads to an element. *)
Lemma subtree_paths_valid :
  forall e p q,
    In q (subtree_paths p e) -> exists s, q = p ++ s /\ get_path e s <> None.
Proof.
  induction e as [e IH] using Element_induction. intros p q Hq.
  rewrite subtree_paths_unfold in Hq. destruct Hq as [<-|Hq].
  - exists []. rewrite app_nil_r. split; [reflexivity | discriminate].
  - destruct (forest_paths_valid _ IH _ _ _ Hq) as (k & s & c & -> & E & V).
    exists (k :: s). split; [reflexivity|]. cbn [get_path]. rewrite E. exact V.
Qed.

Lemma descendant_paths_valid :
  forall e q, In q (descendant_paths e) -> get_path e q <> None.
Proof.
  intros e q Hq. destruct (subtree_paths_valid e [] q) as (s & -> & V).
  - unfold descendant_paths in Hq. destruct (subtree_paths [] e);
      [contradiction | right; exact Hq].
  - exact V.
Qed.

Lemma find_ext_in :
  forall A (f g : A -> bool) l,
    (forall x, In x l -> f x = g x) -> find f l = find g l.
Proof.
  intros A f g l. induction l as [|x r IH]; intros H; [reflexivity|].
  simpl. rewrite (H x (or_introl eq_refl)).
  destruct (g x); [reflexivity|]. apply IH. intros y Hy. apply H. right. exact Hy.
Qed.

(** A write does not change what an identifier is bound to. *)
Lemma skeleton_find_by_id :
  forall a b elem_id,
    Frame.skeleton a b ->
    RenameTest._find_by_id b elem_id = RenameTest._find_by_id a elem_id.
Proof.
  intros a b elem_id H. unfold RenameTest._find_by_id, descendant_paths.
  rewrite (skeleton_subtree_paths a b [] H).
  apply find_ext_in. intros q Hq. unfold RenameTest.has_id.
  assert (V : get_path a q <> None).
  { apply descendant_paths_valid. exact Hq. }
  destruct (get_path a q) as [n|] eqn:E; [|contradiction].
  destruct (H q n E) as (n' & -> & _ & -> & _). reflexivity.
Qed.

(** ** Field updates *)

Lemma set_children_same : forall e, set_children (children e) e = e.
Proof. intros [tg a tx tl cs]. reflexivity. Qed.

Lemma update_nth_fixed :
  forall A (f : A -> A) l i x,
    nth_error l i = Some x -> f x = x -> update_nth f i l = l.
Proof.
  intros A f l. induction l as [|y r IH]; intros i x H E.
  - destruct i; reflexivity.
  - destruct i; simpl in *.
    + injection H as ->. rewrite E. reflexivity.
    + rewrite (IH _ _ H E). reflexivity.
Qed.

(** A mutation that does nothing to the node it is aimed at does nothing
    to the tree. *)
Lemma update_path_fixed :
  forall f p r n,
    get_path r p = Some n -> f n = n -> update_path f p r = r.
Proof.
  intros f p. induction p as [|i p IH]; intros r n H E.
  - simpl in *. injection H as ->. exact E.
  - cbn [get_path update_path] in *.
    destruct (nth_error (children r) i) as [c|] eqn:X; [|discriminate H].
    rewrite (update_nth_fixed _ _ _ _ c X (IH c n H E)).
    apply set_children_same.
Qed.

Lemma set_text_by_id_flag :
  forall root field v,
    snd (RenameTest.set_text_by_id root field v) = RenameTest.bound root field.
Proof.
  intros root field v. unfold RenameTest.set_text_by_id, RenameTest.bound.
  destruct (RenameTest._find_by_id root field); reflexivity.
Qed.

(** An identifier that is not bound: nothing is written. *)
Lemma set_text_by_id_unbound :
  forall root field v,
    RenameTest.bound root field = false ->
    RenameTest.set_text_by_id root field v = (root, false).
Proof.
  intros root field v. unfold RenameTest.set_text_by_id, RenameTest.bound.
  destruct (RenameTest._find_by_id root field); [discriminate | reflexivity].
Qed.

(** An identifier bound to a group without [<text>] or [<tspan>]: nothing
    is written, and the call reports the field as updated. *)
Lemma set_text_by_id_empty_group :
  forall root field v p g,
    RenameTest._find_by_id root field = Some p ->
    get_path root p = Some g ->
    RenameTest.localname (tag g) = "g" ->
    RenameTest._find_text_or_tspan_descendant g = None ->
    RenameTest.set_text_by_id root field v = (root, true).
Proof.
  intros root field v p g Hf Hg Ht Hn. unfold RenameTest.set_text_by_id.
  rewrite Hf. f_equal. apply (update_path_fixed _ _ _ g Hg).
  unfold RenameTest._set_text. rewrite Ht, Hn. reflexivity.
Qed.

Lemma bound_after_write :
  forall root field v other,
    RenameTest.bound (fst (RenameTest.set_text_by_id root field v)) other
    = RenameTest.bound root other.
Proof.
  intros root field v other. unfold RenameTest.bound.
  rewrite (skeleton_find_by_id root _ other
             (skeleton_set_text_by_id root field v)).
  reflexivity.
Qed.

(** C8, as the code has it.  In a run that gets as far as the updates, an
    identifier that is not bound and an identifier bound to a group
    without text are not fatal: the run ends with status 0, nothing is
    written for that field, and the other field is processed as if it
    were alone.  The only warning is a collective one: it is printed when
    none of the requested identifiers is bound, and not otherwise; an
    identifier bound to a group without text counts as bound. *)
Theorem C8_unresolved_fields_are_not_fatal :
  forall (inv : RenameTest.Invocation) (root : Element),
    RenameTest.svg_exists inv = true ->
    RenameTest.parsed inv = Some root ->
    RenameTest.write_ok inv = true ->
    opt_truthy (RenameTest.title inv)
    || opt_truthy (RenameTest.description inv) = true ->
    let run := RenameTest.main inv in
    let requested_and_bound (value : option string) (field : string) :=
      match value with
      | Some _ => RenameTest.bound root field
      | None => false
      end in
    RenameTest.exit_status run = 0
    /\ RenameTest.stderr run
       = (if requested_and_bound (RenameTest.title inv) "TITLE"
             || requested_and_bound (RenameTest.description inv) "DESCRIPTION"
          then [] else [RenameTest.no_field_warning])
    /\ RenameTest.written run
       = Some (fst (RenameTest.update_fields inv root))
    /\ (forall t,
          RenameTest.title inv = Some t ->
          RenameTest.bound root "TITLE" = false ->
          fst (RenameTest.update_fields inv root)
          = match RenameTest.description inv with
            | Some d => fst (RenameTest.set_text_by_id root "DESCRIPTION" d)
            | None => root
            end)
    /\ (forall d,
          RenameTest.description inv = Some d ->
          RenameTest.bound root "DESCRIPTION" = false ->
          fst (RenameTest.update_fields inv root)
          = match RenameTest.title inv with
            | Some t => fst (RenameTest.set_text_by_id root "TITLE" t)
            | None => root
            end)
    /\ (forall field value p g,
          RenameTest._find_by_id root field = Some p ->
          get_path root p = Some g ->
          RenameTest.localname (tag g) = "g" ->
          RenameTest._find_text_or_tspan_descendant g = None ->
          RenameTest.set_text_by_id root field value = (root, true)).
Proof.
  intros inv root He Hp Hw Hr run rb. subst run.
  assert (F : snd (RenameTest.update_fields inv root)
              = rb (RenameTest.title inv) "TITLE"
                || rb (RenameTest.description inv) "DESCRIPTION").
  { subst rb. unfold RenameTest.update_fields.
    destruct (RenameTest.title inv) as [t|],
             (RenameTest.description inv) as [d|]; cbn beta iota.
    - pose proof (set_text_by_id_flag root "TITLE" t) as F1.
      pose proof (bound_after_write root "TITLE" t "DESCRIPTION") as B.
      destruct (RenameTest.set_text_by_id root "TITLE" t) as [r1 b1].
      pose proof (set_text_by_id_flag r1 "DESCRIPTION" d) as F2.
      destruct (RenameTest.set_text_by_id r1 "DESCRIPTION" d) as [r2 b2].
      simpl in *. rewrite <- B, <- F1, <- F2. reflexivity.
    - pose proof (set_text_by_id_flag root "TITLE" t) as F1.
      destruct (RenameTest.set_text_by_id root "TITLE" t) as [r1 b1].
      simpl in *. rewrite <- F1, orb_false_r. reflexivity.
    - pose proof (set_text_by_id_flag root "DESCRIPTION" d) as F2.
      destruct (RenameTest.set_text_by_id root "DESCRIPTION" d) as [r2 b2].
      simpl in *. rewrite <- F2. reflexivity.
    - reflexivity. }
  unfold RenameTest.main. rewrite He, Hr, Hp, Hw. cbn [negb].
  destruct (RenameTest.update_fields inv root) as [root' updated] eqn:U.
  cbn [fst snd] in *. subst updated.
  split; [reflexivity|]. split; [reflexivity|]. split; [reflexivity|].
  split; [|split].
  - intros t Ht Hb. unfold RenameTest.update_fields in U. rewrite Ht in U.
    rewrite (set_text_by_id_unbound root "TITLE" t Hb) in U.
    destruct (RenameTest.description inv) as [d|].
    + destruct (RenameTest.set_text_by_id root "DESCRIPTION" d).
      injection U as <- _. reflexivity.
    + injection U as <- _. reflexivity.
  - intros d Hd Hb. unfold RenameTest.update_fields in U. rewrite Hd in U.
    destruct (RenameTest.title inv) as [t|].
    + pose proof (bound_after_write root "TITLE" t "DESCRIPTION") as B.
      destruct (RenameTest.set_text_by_id root "TITLE" t) as [r1 b1].
      cbn [fst] in *. rewrite Hb in B.
      rewrite (set_text_by_id_unbound r1 "DESCRIPTION" d B) in U.
      injection U as <- _. reflexivity.
    + rewrite (set_text_by_id_unbound root "DESCRIPTION" d Hb) in U.
      injection U as <- _. reflexivity.
  - intros field value p g. apply set_text_by_id_empty_group.
Qed.

Lemma C8_unresolved_fields_are_not_fatal_witness :
  let run := RenameTest.main (Samples.both_fields Samples.title_only) in
  RenameTest.exit_status run = 0
  /\ RenameTest.stderr run = []
  /\ RenameTest.written run
     = Some (mkElement "svg" [] None None
               [mkElement "text" [("id", "TITLE")] (Some "T") None []]).
Proof.
  destruct (C8_unresolved_fields_are_not_fatal
              (Samples.both_fields Samples.title_only) Samples.title_only
              eq_refl eq_refl eq_refl eq_refl) as (H0 & H1 & H2 & _).
  split; [exact H0|]. split; [exact H1 | exact H2].
Defined.

(** The claim C8 as it is written has every unresolved field recorded as
    a warning.  With [TITLE] bound and [DESCRIPTION] not, the run that
    asks for both prints no warning; and with [TITLE] bound to a group
    without text, the run that asks for the title prints none either,
    although nothing is written. *)
Lemma C8_no_warning_counterexample :
  RenameTest.bound Samples.title_only "DESCRIPTION" = false
  /\ RenameTest.stderr (RenameTest.main (Samples.both_fields Samples.title_only))
     = []
  /\ RenameTest.stderr (RenameTest.main (Samples.title_field Samples.empty_group))
     = []
  /\ RenameTest.written (RenameTest.main (Samples.title_field Samples.empty_group))
     = Some Samples.empty_group.
Proof. repeat split. Qed.

(** ** The style sanitizer *)

Local Open Scope string_scope.

Lemma append_empty_r : forall s : string, s ++ "" = s.
Proof. induction s as [|c t IH]; simpl; [|rewrite IH]; reflexivity. Qed.

Lemma append_assoc :
  forall a b c : string, (a ++ b) ++ c = a ++ (b ++ c).
Proof.
  intros a b c. induction a as [|x t IH]; simpl; [|rewrite IH]; reflexivity.
Qed.

Lemma length_append :
  forall a b : string,
    String.length (a ++ b) = String.length a + String.length b.
Proof.
  intros a b. induction a as [|x t IH]; simpl; [|rewrite IH]; reflexivity.
Qed.

Lemma all_chars_append :
  forall p a b,
    Style.all_chars p (a ++ b) = Style.all_chars p a && Style.all_chars p b.
Proof.
  intros p a b. induction a as [|x t IH]; simpl; [reflexivity|].
  rewrite IH, andb_assoc. reflexivity.
Qed.

Lemma prefix_drop_prefix :
  forall p s,
    prefix p s
    = match FixAffinity.drop_prefix p s with
      | Some _ => true
      | None => false
      end.
Proof.
  induction p as [|a p IH]; intros s.
  - destruct s; reflexivity.
  - destruct s as [|b s]; [reflexivity|].
    cbn [prefix FixAffinity.drop_prefix].
    destruct (ascii_dec a b) as [->|N].
    + rewrite Ascii.eqb_refl. apply IH.
    + destruct (Ascii.eqb a b) eqn:E; [|reflexivity].
      apply Ascii.eqb_eq in E. contradiction.
Qed.

Lemma drop_prefix_spec :
  forall p s r, FixAffinity.drop_prefix p s = Some r -> s = p ++ r.
Proof.
  induction p as [|a p IH]; intros s r H.
  - simpl in H. injection H as ->. reflexivity.
  - destruct s as [|b s]; [discriminate H|]. simpl in H.
    destruct (Ascii.eqb a b) eqn:E; [|discriminate H].
    apply Ascii.eqb_eq in E. subst b. simpl. f_equal. apply IH, H.
Qed.

Lemma drop_prefix_append :
  forall p s r x,
    FixAffinity.drop_prefix p s = Some r ->
    FixAffinity.drop_prefix p (s ++ x) = Some (r ++ x).
Proof.
  induction p as [|a p IH]; intros s r x H.
  - simpl in H. injection H as ->. reflexivity.
  - destruct s as [|b s]; [discriminate H|]. simpl in *.
    destruct (Ascii.eqb a b); [apply IH, H | discriminate H].
Qed.

(** What may follow a declaration: nothing, or a semicolon. *)
Lemma drop_prefix_stops :
  forall p s x,
    Style.all_chars FixAffinity.not_semicolon p = true ->
    x = "" \/ (exists r, x = String ";" r) ->
    FixAffinity.drop_prefix p s = None ->
    FixAffinity.drop_prefix p (s ++ x) = None.
Proof.
  induction p as [|a p IH]; intros s x Hp Hx H; [discriminate H|].
  simpl in Hp. apply andb_prop in Hp. destruct Hp as [Ha Hp].
  destruct s as [|b s].
  - simpl. destruct Hx as [->|(r & ->)]; [reflexivity|].
    simpl. unfold FixAffinity.not_semicolon in Ha.
    destruct (Ascii.eqb a ";"); [discriminate Ha | reflexivity].
  - simpl in *. destruct (Ascii.eqb a b); [|reflexivity].
    apply IH; assumption.
Qed.

Lemma sub_white_space_skip :
  forall a rest,
    FixAffinity.sub_white_space (String.length a) (a ++ rest)
    = FixAffinity.sub_white_space 0 rest.
Proof.
  induction a as [|c t IH]; intros rest; [reflexivity|].
  simpl. apply IH.
Qed.

Lemma match_white_space_none :
  forall s,
    FixAffinity.drop_prefix "white-space" s = None ->
    FixAffinity.match_white_space s = None.
Proof. intros s H. unfold FixAffinity.match_white_space. rewrite H. reflexivity. Qed.

Lemma sub_white_space_semicolon :
  forall rest,
    FixAffinity.sub_white_space 0 (String ";" rest)
    = String ";" (FixAffinity.sub_white_space 0 rest).
Proof. reflexivity. Qed.

(** The substitution copies a declaration in which [white-space] does
    not occur. *)
Lemma sub_white_space_other :
  forall d x,
    Style.all_chars FixAffinity.not_semicolon d = true ->
    contains "white-space" d = false ->
    x = "" \/ (exists r, x = String ";" r) ->
    FixAffinity.sub_white_space 0 (d ++ x)
    = d ++ FixAffinity.sub_white_space 0 x.
Proof.
  induction d as [|c t IH]; intros x Hp Hc Hx; [reflexivity|].
  cbn [contains] in Hc. apply orb_false_elim in Hc. destruct Hc as [Hc1 Hc2].
  simpl in Hp. apply andb_prop in Hp. destruct Hp as [_ Hp].
  change (String c t ++ x) with (String c (t ++ x)).
  cbn [FixAffinity.sub_white_space].
  rewrite match_white_space_none.
  - rewrite (IH x Hp Hc2 Hx). reflexivity.
  - change (String c (t ++ x)) with (String c t ++ x).
    apply drop_prefix_stops; [reflexivity | exact Hx|].
    rewrite prefix_drop_prefix in Hc1.
    destruct (FixAffinity.drop_prefix "white-space" (String c t));
      [discriminate Hc1 | reflexivity].
Qed.

Lemma span_stops :
  forall p v x,
    Style.all_chars p v = true ->
    x = "" \/ (exists c r, x = String c r /\ p c = false) ->
    FixAffinity.span p (v ++ x) = (v, x).
Proof.
  intros p v x. induction v as [|c t IH]; intros Hv Hx.
  - destruct Hx as [->|(c & r & -> & Hc)]; [reflexivity|].
    simpl. rewrite Hc. reflexivity.
  - simpl in *. apply andb_prop in Hv. destruct Hv as [Hc Ht].
    rewrite Hc, (IH Ht Hx). reflexivity.
Qed.

Lemma span_lstrip :
  forall p s,
    exists w,
      s = w ++ lstrip p s /\ Style.all_chars p w = true
      /\ FixAffinity.span p s = (w, lstrip p s).
Proof.
  intros p s. induction s as [|c t (w & E & A & S)].
  - exists "". repeat split.
  - simpl. destruct (p c) eqn:Hc.
    + exists (String c w). simpl. rewrite Hc, A, S, <- E. repeat split.
    + exists "". repeat split.
Qed.

Lemma lstrip_stops :
  forall p s c v, lstrip p s = String c v -> p c = false.
Proof.
  intros p s c v. induction s as [|a t IH]; intros H; [discriminate H|].
  simpl in H. destruct (p a) eqn:E; [apply IH, H|].
  injection H as -> _. exact E.
Qed.

Local Open Scope string_scope.

Lemma drop_prefix_self :
  forall p r, FixAffinity.drop_prefix p (p ++ r) = Some r.
Proof.
  induction p as [|a p IH]; intros r; [reflexivity|].
  simpl. rewrite Ascii.eqb_refl. apply IH.
Qed.

(** The shape of a declaration of [white-space]. *)
Lemma white_space_declaration_shape :
  forall d,
    Style.white_space_declaration d = true ->
    exists w v,
      d = "white-space" ++ w ++ String ":" v
      /\ Style.all_chars is_space w = true
      /\ truthy v = true
      /\ Style.all_chars FixAffinity.not_semicolon v = true.
Proof.
  intros d H. unfold Style.white_space_declaration in H.
  apply andb_prop in H. destruct H as [Hp H].
  destruct (FixAffinity.drop_prefix "white-space" d) as [r|] eqn:E;
    [|discriminate H].
  apply drop_prefix_spec in E.
  destruct (span_lstrip is_space r) as (w & Er & Hw & _).
  destruct (lstrip is_space r) as [|c v]; [discriminate H|].
  apply andb_prop in H. destruct H as [Hc Hv].
  apply Ascii.eqb_eq in Hc. subst c.
  exists w, v. rewrite <- Er. split; [exact E|]. split; [exact Hw|].
  split; [exact Hv|].
  rewrite E, Er, !all_chars_append in Hp.
  apply andb_prop in Hp. destruct Hp as [_ Hp].
  apply andb_prop in Hp. destruct Hp as [_ Hp].
  simpl in Hp. exact Hp.
Qed.

Lemma match_white_space_declaration :
  forall d x,
    Style.white_space_declaration d = true ->
    x = "" \/ (exists r, x = String ";" r) ->
    FixAffinity.match_white_space (d ++ x)
    = Some (String.length d + (if prefix ";" x then 1 else 0)).
Proof.
  intros d x H Hx.
  destruct (white_space_declaration_shape d H) as (w & v & -> & Hw & Hv & Hs).
  unfold FixAffinity.match_white_space.
  rewrite append_assoc, drop_prefix_self, append_assoc.
  change (String ":" v ++ x) with (String ":" (v ++ x)).
  rewrite (span_stops is_space w (String ":" (v ++ x)) Hw).
  2:{ right. exists ":"%char, (v ++ x). split; reflexivity. }
  cbn [Ascii.eqb Bool.eqb]. cbn match.
  rewrite (span_stops FixAffinity.not_semicolon v x Hs).
  2:{ destruct Hx as [->|(r & ->)]; [left; reflexivity|].
      right. exists ";"%char, r. split; reflexivity. }
  rewrite Hv. f_equal. rewrite !length_append. simpl. lia.
Qed.

(** The substitution drops a declaration of [white-space] together with
    the semicolon that follows it. *)
Lemma sub_white_space_declaration :
  forall d x,
    Style.white_space_declaration d = true ->
    x = "" \/ (exists r, x = String ";" r) ->
    FixAffinity.sub_white_space 0 (d ++ x)
    = FixAffinity.sub_white_space 0
        match x with
        | String _ r => r
        | EmptyString => EmptyString
        end.
Proof.
  intros d x H Hx. pose proof (match_white_space_declaration d x H Hx) as M.
  destruct (white_space_declaration_shape d H) as (w & v & E & _).
  destruct d as [|c t]; [discriminate E|]. clear E.
  change (String c t ++ x) with (String c (t ++ x)) in *.
  cbn [FixAffinity.sub_white_space]. rewrite M.
  destruct Hx as [->|(r & ->)].
  - replace (prefix ";" "") with false by reflexivity.
    replace (String.length (String c t) + 0 - 1)
      with (String.length t) by (simpl; lia).
    apply (sub_white_space_skip t "").
  - replace (prefix ";" (String ";" r)) with true by (destruct r; reflexivity).
    replace (String.length (String c t) + 1 - 1)
      with (String.length (t ++ ";")) by (rewrite length_append; simpl; lia).
    change (t ++ String ";" r) with (t ++ (";" ++ r)).
    rewrite <- append_assoc. apply sub_white_space_skip.
Qed.

Lemma other_declaration_facts :
  forall d,
    Style.other_declaration d = true ->
    d <> ""
    /\ Style.all_chars FixAffinity.not_semicolon d = true
    /\ contains "white-space" d = false
    /\ lstrip is_space d = d
    /\ rstrip is_space d = d.
Proof.
  intros d H. unfold Style.other_declaration in H.
  repeat (apply andb_prop in H; destruct H as [H ?]).
  repeat split.
  - destruct d; [discriminate H | discriminate].
  - assumption.
  - apply negb_true_iff. assumption.
  - apply String.eqb_eq. assumption.
  - apply String.eqb_eq. assumption.
Qed.

Lemma other_not_white_space :
  forall d,
    Style.other_declaration d = true ->
    Style.white_space_declaration d = false.
Proof.
  intros d H. destruct (other_declaration_facts d H) as (_ & _ & Hc & _).
  destruct (Style.white_space_declaration d) eqn:W; [|reflexivity].
  destruct (white_space_declaration_shape d W) as (w & v & -> & _).
  destruct (w ++ String ":" v); discriminate Hc.
Qed.

Lemma join_cons_cons :
  forall sep x y r, join sep (x :: y :: r) = x ++ sep ++ join sep (y :: r).
Proof. reflexivity. Qed.

(** After the substitution: the other declarations, joined, and perhaps
    one semicolon at the end. *)
Lemma sub_white_space_join :
  forall ds,
    Style.tidy ds = true ->
    let kept := filter Style.other_declaration ds in
    FixAffinity.sub_white_space 0 (join ";" ds) = join ";" kept
    \/ (kept <> []
        /\ FixAffinity.sub_white_space 0 (join ";" ds) = join ";" kept ++ ";").
Proof.
  induction ds as [|d r IH]; intros T kept; [left; reflexivity|].
  cbn [Style.tidy forallb] in T. apply andb_prop in T. destruct T as [Td Tr].
  specialize (IH Tr). cbn zeta in IH. subst kept. cbn [filter].
  destruct (Style.other_declaration d) eqn:O.
  - destruct (other_declaration_facts d O) as (_ & Hp & Hc & _).
    destruct r as [|d' r'].
    + left. simpl. rewrite <- (append_empty_r d) at 1.
      rewrite (sub_white_space_other d "" Hp Hc); [|left; reflexivity].
      apply append_empty_r.
    + rewrite join_cons_cons.
      change (d ++ ";" ++ join ";" (d' :: r'))
        with (d ++ String ";" (join ";" (d' :: r'))).
      rewrite (sub_white_space_other d _ Hp Hc);
        [|right; eexists; reflexivity].
      rewrite sub_white_space_semicolon.
      destruct (filter Style.other_declaration (d' :: r')) as [|k ks] eqn:F.
      * right. split; [discriminate|].
        destruct IH as [-> | [N _]]; [reflexivity | contradiction].
      * rewrite join_cons_cons. destruct IH as [-> | [_ ->]].
        -- left. reflexivity.
        -- right. split; [discriminate|]. rewrite !append_assoc. reflexivity.
  - rewrite orb_false_r in Td. destruct r as [|d' r'].
    + left. simpl. rewrite <- (append_empty_r d).
      rewrite (sub_white_space_declaration d "" Td); [|left; reflexivity].
      reflexivity.
    + rewrite join_cons_cons.
      change (d ++ ";" ++ join ";" (d' :: r'))
        with (d ++ String ";" (join ";" (d' :: r'))).
      rewrite (sub_white_space_declaration d _ Td);
        [|right; eexists; reflexivity].
      exact IH.
Qed.

Local Open Scope string_scope.

Lemma collapse_plain :
  forall d y,
    Style.all_chars FixAffinity.not_semicolon d = true ->
    FixAffinity.collapse_semicolons (d ++ y)
    = d ++ FixAffinity.collapse_semicolons y.
Proof.
  induction d as [|c t IH]; intros y H; [reflexivity|].
  simpl in *. apply andb_prop in H. destruct H as [Hc Ht].
  unfold FixAffinity.not_semicolon in Hc. apply negb_true_iff in Hc.
  rewrite Hc, (IH y Ht). reflexivity.
Qed.

Lemma prefix_semicolon :
  forall c t, prefix ";" (String c t) = Ascii.eqb c ";".
Proof.
  intros c t. cbn [prefix]. destruct (ascii_dec ";" c) as [<-|N].
  - destruct t; reflexivity.
  - destruct (Ascii.eqb c ";") eqn:E; [|reflexivity].
    apply Ascii.eqb_eq in E. congruence.
Qed.

(** The first character of an other declaration, and of a join of other
    declarations: neither white space nor a semicolon. *)
Lemma other_first :
  forall d,
    Style.other_declaration d = true ->
    exists c t, d = String c t /\ is_space c = false /\ Ascii.eqb c ";" = false.
Proof.
  intros d H. destruct (other_declaration_facts d H) as (N & Hp & _ & Hl & _).
  destruct d as [|c t]; [contradiction|]. exists c, t.
  split; [reflexivity|]. simpl in Hp, Hl.
  apply andb_prop in Hp. destruct Hp as [Hc _].
  unfold FixAffinity.not_semicolon in Hc. apply negb_true_iff in Hc.
  split; [|exact Hc].
  destruct (is_space c) eqn:E; [|reflexivity].
  exfalso. assert (L : String.length (lstrip is_space t) = S (String.length t))
    by (rewrite Hl; reflexivity).
  clear - L. assert (B : forall s, String.length (lstrip is_space s)
                                   <= String.length s).
  { induction s as [|a s IH]; simpl; [lia|].
    destruct (is_space a); simpl; lia. }
  specialize (B t). lia.
Qed.

Lemma join_first :
  forall k ks,
    Style.other_declaration k = true ->
    exists c t,
      join ";" (k :: ks) = String c t
      /\ is_space c = false /\ Ascii.eqb c ";" = false.
Proof.
  intros k ks H. destruct (other_first k H) as (c & t & -> & Hs & Hc).
  destruct ks as [|k' ks'].
  - exists c, t. repeat split; assumption.
  - exists c, (t ++ ";" ++ join ";" (k' :: ks')). repeat split; assumption.
Qed.

Lemma collapse_after_semicolon :
  forall c t,
    Ascii.eqb c ";" = false ->
    FixAffinity.collapse_semicolons (String ";" (String c t))
    = String ";" (FixAffinity.collapse_semicolons (String c t)).
Proof.
  intros c t H.
  change (FixAffinity.collapse_semicolons (String ";" (String c t)))
    with (if Ascii.eqb ";" ";" && prefix ";" (String c t)
          then FixAffinity.collapse_semicolons (String c t)
          else String ";" (FixAffinity.collapse_semicolons (String c t))).
  rewrite prefix_semicolon, H, andb_false_r. reflexivity.
Qed.

Lemma collapse_join :
  forall ks x,
    forallb Style.other_declaration ks = true ->
    x = "" \/ x = ";" ->
    FixAffinity.collapse_semicolons (join ";" ks ++ x) = join ";" ks ++ x.
Proof.
  induction ks as [|k r IH]; intros x H Hx.
  - destruct Hx as [-> | ->]; reflexivity.
  - cbn [forallb] in H. apply andb_prop in H. destruct H as [Hk Hr].
    destruct (other_declaration_facts k Hk) as (_ & Hp & _).
    destruct r as [|k' r'].
    + cbn [join]. rewrite (collapse_plain k x Hp).
      destruct Hx as [-> | ->]; reflexivity.
    + rewrite join_cons_cons, !append_assoc, (collapse_plain k _ Hp).
      f_equal. specialize (IH x Hr Hx).
      cbn [forallb] in Hr. apply andb_prop in Hr. destruct Hr as [Hk' _].
      destruct (join_first k' r' Hk') as (c & t & E & _ & Hc).
      rewrite E in *.
      change (";" ++ String c t ++ x) with (String ";" (String c (t ++ x))).
      change (String c t ++ x) with (String c (t ++ x)) in IH.
      rewrite (collapse_after_semicolon c (t ++ x) Hc), IH. reflexivity.
Qed.

Lemma rstrip_append_keep :
  forall p a b,
    rstrip p b <> "" -> rstrip p (a ++ b) = a ++ rstrip p b.
Proof.
  intros p a b H. induction a as [|c t IH]; [reflexivity|].
  simpl. rewrite IH. destruct (t ++ rstrip p b) eqn:E; [|reflexivity].
  destruct t; [simpl in E; contradiction | discriminate E].
Qed.

Lemma rstrip_append_drop :
  forall p a b, rstrip p b = "" -> rstrip p (a ++ b) = rstrip p a.
Proof.
  intros p a b H. induction a as [|c t IH]; [exact H|].
  simpl. rewrite IH. reflexivity.
Qed.

Lemma rstrip_tail :
  forall p c t,
    rstrip p (String c t) = String c t -> rstrip p t = t.
Proof.
  intros p c t H. simpl in H. destruct (rstrip p t) as [|a r] eqn:E.
  - destruct (p c); [discriminate H|]. injection H as <-. reflexivity.
  - injection H as <-. reflexivity.
Qed.

(** An other declaration does not end in a semicolon or a blank. *)
Lemma rstrip_other :
  forall d,
    Style.all_chars FixAffinity.not_semicolon d = true ->
    rstrip is_space d = d ->
    rstrip FixAffinity.semicolon_or_blank d = d.
Proof.
  induction d as [|c t IH]; intros Hp Hr; [reflexivity|].
  pose proof (rstrip_tail _ _ _ Hr) as Ht.
  simpl in Hp. apply andb_prop in Hp. destruct Hp as [Hc Hp].
  specialize (IH Hp Ht). simpl. rewrite IH.
  destruct t as [|a r]; [|reflexivity].
  simpl in Hr. destruct (is_space c) eqn:E; [discriminate Hr|].
  unfold FixAffinity.semicolon_or_blank.
  unfold FixAffinity.not_semicolon in Hc. apply negb_true_iff in Hc.
  rewrite Hc. destruct (Ascii.eqb c " ") eqn:B; [|reflexivity].
  apply Ascii.eqb_eq in B. subst c. discriminate E.
Qed.

Lemma rstrip_join :
  forall p ks,
    ks <> [] ->
    Forall (fun k => rstrip p k = k /\ k <> "") ks ->
    p ";"%char = false ->
    rstrip p (join ";" ks) = join ";" ks /\ join ";" ks <> "".
Proof.
  intros p ks N H Hs. induction H as [|k r [Hk Nk] Hr IH]; [contradiction|].
  destruct r as [|k' r'].
  - split; assumption.
  - destruct IH as [IH1 IH2]; [discriminate|].
    rewrite join_cons_cons. split.
    + rewrite rstrip_append_keep; rewrite rstrip_append_keep; rewrite ?IH1;
        try reflexivity; try assumption.
      destruct (join ";" (k' :: r')); [contradiction | discriminate].
    + destruct k; [contradiction | discriminate].
Qed.

Lemma clean_unfold :
  forall s,
    FixAffinity.clean_white_space_in_style s
    = strip_by FixAffinity.semicolon_or_blank
        (strip (FixAffinity.collapse_semicolons
                  (FixAffinity.sub_white_space 0 s))).
Proof. intros [|c t]; reflexivity. Qed.

(** The last three steps of the sanitizer on a join of other
    declarations that may be followed by one semicolon. *)
Lemma tidy_up_join :
  forall ks x,
    forallb Style.other_declaration ks = true ->
    x = "" \/ (ks <> [] /\ x = ";") ->
    strip_by FixAffinity.semicolon_or_blank
      (strip (FixAffinity.collapse_semicolons (join ";" ks ++ x)))
    = join ";" ks.
Proof.
  intros ks x H Hx.
  rewrite collapse_join; [|exact H | destruct Hx as [->|[_ ->]]; auto].
  destruct ks as [|k r].
  - destruct Hx as [->|[N _]]; [reflexivity | contradiction].
  - assert (Hk : Style.other_declaration k = true)
      by (cbn [forallb] in H; apply andb_prop in H; apply H).
    destruct (join_first k r Hk) as (c & t & E & Hs & Hc).
    assert (F : Forall (fun k => Style.other_declaration k = true) (k :: r))
      by (apply Forall_forall; apply forallb_forall; exact H).
    assert (R1 : rstrip is_space (join ";" (k :: r)) = join ";" (k :: r)
                 /\ join ";" (k :: r) <> "").
    { apply rstrip_join; [discriminate | | reflexivity].
      eapply Forall_impl; [|exact F]. intros d Hd.
      destruct (other_declaration_facts d Hd) as (N & _ & _ & _ & Hr).
      split; assumption. }
    assert (R2 : rstrip FixAffinity.semicolon_or_blank (join ";" (k :: r))
                 = join ";" (k :: r)).
    { (* the last declaration ends the join *)
      clear - F. induction F as [|d l Hd Hl IH]; [reflexivity|].
      destruct (other_declaration_facts d Hd) as (N & Hp & _ & _ & Hr).
      pose proof (rstrip_other d Hp Hr) as Rd.
      destruct l as [|d' l']; [exact Rd|].
      rewrite join_cons_cons.
      assert (J : join ";" (d' :: l') <> "").
      { inversion Hl as [|? ? Hd' _]; subst.
        destruct (join_first d' l' Hd') as (c & t & -> & _). discriminate. }
      rewrite rstrip_append_keep; rewrite rstrip_append_keep; rewrite ?IH;
        try reflexivity; try assumption.
      destruct (join ";" (d' :: l')); [contradiction | discriminate]. }
    destruct R1 as [R1 N1].
    assert (L1 : forall y, lstrip is_space (join ";" (k :: r) ++ y)
                           = join ";" (k :: r) ++ y).
    { intros y. rewrite E. simpl. rewrite Hs. reflexivity. }
    assert (L2 : forall y,
               lstrip FixAffinity.semicolon_or_blank (join ";" (k :: r) ++ y)
               = join ";" (k :: r) ++ y).
    { intros y. rewrite E. simpl. unfold FixAffinity.semicolon_or_blank.
      rewrite Hc. destruct (Ascii.eqb c " ") eqn:B; [|reflexivity].
      apply Ascii.eqb_eq in B. subst c. discriminate Hs. }
    unfold strip, strip_by. rewrite L1.
    destruct Hx as [->|[_ ->]].
    + rewrite append_empty_r, R1.
      rewrite <- (append_empty_r (join ";" (k :: r))) at 1.
      rewrite L2, append_empty_r. exact R2.
    + rewrite (rstrip_append_keep is_space _ ";") by discriminate.
      change (rstrip is_space ";") with ";". rewrite L2.
      rewrite (rstrip_append_drop FixAffinity.semicolon_or_blank _ ";"
                 eq_refl).
      exact R2.
Qed.

(** On a tidy style string the sanitizer removes the declarations of
    [white-space] and nothing else. *)
Lemma clean_tidy :
  forall ds,
    Style.tidy ds = true ->
    FixAffinity.clean_white_space_in_style (join ";" ds)
    = join ";" (filter Style.other_declaration ds).
Proof.
  intros ds T. rewrite clean_unfold.
  assert (K : forallb Style.other_declaration
                (filter Style.other_declaration ds) = true).
  { apply forallb_forall. intros d Hd. apply filter_In in Hd. apply Hd. }
  destruct (sub_white_space_join ds T) as [-> | [N ->]].
  - rewrite <- (append_empty_r (join ";" _)) at 1.
    apply tidy_up_join; [exact K | left; reflexivity].
  - apply tidy_up_join; [exact K | right; split; [exact N | reflexivity]].
Qed.

Local Open Scope string_scope.

Lemma get_set_same :
  forall key value a, get key (set key value a) = Some value.
Proof.
  intros key value a. induction a as [|[k v] r IH]; simpl.
  - rewrite String.eqb_refl. reflexivity.
  - destruct (String.eqb k key) eqn:E; simpl; rewrite E; [reflexivity|exact IH].
Qed.

Lemma get_set_other :
  forall key other value a,
    String.eqb other key = false ->
    get key (set other value a) = get key a.
Proof.
  intros key other value a H. induction a as [|[k v] r IH]; simpl.
  - rewrite H. reflexivity.
  - destruct (String.eqb k other) eqn:E; simpl.
    + apply String.eqb_eq in E. subst k. rewrite H. reflexivity.
    + rewrite IH. reflexivity.
Qed.

Lemma contains_prefix :
  forall p s, prefix p s = true -> contains p s = true.
Proof.
  intros p [|c t] H; [exact H|]. cbn [contains]. rewrite H. reflexivity.
Qed.

Lemma prefix_append :
  forall p a b, prefix p a = true -> prefix p (a ++ b) = true.
Proof.
  intros p a b H. rewrite prefix_drop_prefix in *.
  destruct (FixAffinity.drop_prefix p a) as [r|] eqn:E; [|discriminate H].
  rewrite (drop_prefix_append _ _ _ b E). reflexivity.
Qed.

Lemma contains_append_r :
  forall p a b, contains p b = true -> contains p (a ++ b) = true.
Proof.
  intros p a b H. induction a as [|c t IH]; [exact H|].
  cbn [append contains]. rewrite IH. apply orb_true_r.
Qed.

Lemma contains_append_l :
  forall p a b, contains p a = true -> contains p (a ++ b) = true.
Proof.
  intros p a b. induction a as [|c t IH]; intros H.
  - apply contains_prefix. apply (prefix_append p "" b). exact H.
  - cbn [contains] in H. apply orb_prop in H. destruct H as [H|H].
    + apply contains_prefix. apply prefix_append. exact H.
    + cbn [append contains]. rewrite (IH H). apply orb_true_r.
Qed.

Lemma contains_join :
  forall p sep ds d,
    In d ds -> contains p d = true -> contains p (join sep ds) = true.
Proof.
  intros p sep ds d. induction ds as [|x r IH]; intros Hin H; [contradiction|].
  destruct r as [|y r'].
  - destruct Hin as [->|[]]. exact H.
  - rewrite join_cons_cons. destruct Hin as [->|Hin].
    + apply contains_append_l. exact H.
    + apply contains_append_r, contains_append_r, IH; assumption.
Qed.

Lemma white_space_declaration_contains :
  forall d,
    Style.white_space_declaration d = true ->
    contains "white-space" d = true.
Proof.
  intros d H. destruct (white_space_declaration_shape d H) as (w & v & -> & _).
  apply contains_prefix. rewrite prefix_drop_prefix, drop_prefix_self.
  reflexivity.
Qed.

(** The claim C7 as it is written holds for every style string.  In
    [white-space:nowrap;-x-white-space:pre;fill:red] the second
    declaration is not a declaration of [white-space], yet the sanitizer
    cuts its end off together with the separator, and what is left of it
    runs into the declaration that follows. *)
Lemma C7_other_declaration_damaged_counterexample :
  let s := "white-space:nowrap;-x-white-space:pre;fill:red" in
  FixAffinity.clean_white_space_in_style s = "-x-fill:red"
  /\ Style.white_space_declaration "-x-white-space:pre" = false
  /\ In "-x-white-space:pre" (Style.declarations s)
  /\ ~ In "-x-white-space:pre"
       (Style.declarations (FixAffinity.clean_white_space_in_style s))
  /\ In "fill:red" (Style.declarations s)
  /\ ~ In "fill:red"
       (Style.declarations (FixAffinity.clean_white_space_in_style s)).
Proof.
  cbv zeta. split; [reflexivity|]. split; [reflexivity|].
  split; [vm_compute; auto|].
  split; [vm_compute; intros [H|[]]; discriminate H|].
  split; [vm_compute; auto|].
  vm_compute. intros [H|[]]. discriminate H.
Qed.

Local Open Scope list_scope.

(** ** The second loop of [process_text_node] *)

Lemma index_of_app :
  forall i done c rest,
    (forall s, In s done -> fst s <> Some i) ->
    FixAffinity.index_of i (done ++ (Some i, c) :: rest) = List.length done.
Proof.
  intros i done c rest. induction done as [|[[k|] x] r IH]; intros H.
  - simpl. rewrite Nat.eqb_refl. reflexivity.
  - simpl. destruct (Nat.eqb k i) eqn:E.
    + apply Nat.eqb_eq in E. subst k.
      exfalso. apply (H (Some i, x)); [left|]; reflexivity.
    + rewrite IH; [reflexivity|]. intros s Hs. apply H. right. exact Hs.
  - simpl. rewrite IH; [reflexivity|]. intros s Hs. apply H. right. exact Hs.
Qed.

Lemma insert_at_app :
  forall A (x : A) pre post,
    FixAffinity.insert_at (List.length pre) x (pre ++ post)
    = pre ++ x :: post.
Proof.
  intros A x pre post. unfold FixAffinity.insert_at.
  induction pre as [|y r IH]; [reflexivity|].
  simpl. rewrite IH. reflexivity.
Qed.

Lemma remove_at_app :
  forall A (x : A) pre post,
    FixAffinity.remove_at (List.length pre) (pre ++ x :: post) = pre ++ post.
Proof.
  intros A x pre post. unfold FixAffinity.remove_at.
  induction pre as [|y r IH]; [reflexivity|].
  simpl in *. rewrite IH. reflexivity.
Qed.

(** The new tspans go, in order, where the old child was. *)
Lemma insert_lines_spec :
  forall child bx fs idx lines j pre post,
    List.length pre = idx + j ->
    FixAffinity.insert_lines child bx fs idx j lines (pre ++ post)
    = pre
      ++ map (fun t => (None, t)) (Normal.rebuilt_tspans child bx fs j lines)
      ++ post.
Proof.
  intros child bx fs idx lines.
  induction lines as [|l r IH]; intros j pre post H; [reflexivity|].
  cbn [FixAffinity.insert_lines Normal.rebuilt_tspans map].
  rewrite <- H, insert_at_app.
  change (pre ++ (None, FixAffinity.rebuilt_tspan child bx fs j l) :: post)
    with (pre ++ [(None, FixAffinity.rebuilt_tspan child bx fs j l)] ++ post).
  rewrite app_assoc, IH.
  - rewrite <- app_assoc. reflexivity.
  - unfold FixAffinity.slot in *. rewrite length_app. simpl. lia.
Qed.

Lemma number_from_snd :
  forall l i, map snd (FixAffinity.number_from i l) = l.
Proof.
  induction l as [|c r IH]; intros i; [reflexivity|].
  simpl. rewrite IH. reflexivity.
Qed.

(** The loop replaces each child by its replacement, in place. *)
Lemma rebuild_loop_spec :
  forall bx fs snapshot i done changed,
    (forall s k, In s done -> fst s = Some k -> k < i) ->
    map snd
      (fst (FixAffinity.rebuild_loop bx fs i snapshot
              (done ++ FixAffinity.number_from i snapshot, changed)))
    = map snd done ++ flat_map (Normal.replacement bx fs) snapshot.
Proof.
  intros bx fs snapshot.
  induction snapshot as [|c r IH]; intros i done changed H.
  - simpl. rewrite !app_nil_r. reflexivity.
  - cbn [FixAffinity.rebuild_loop FixAffinity.number_from flat_map].
    unfold FixAffinity.rebuild_child, Normal.replacement.
    destruct (FixAffinity.needs_split c) eqn:E.
    + rewrite index_of_app.
      2:{ intros s Hs E'. destruct s as [[k|] x]; [|discriminate E'].
          specialize (H _ k Hs eq_refl). simpl in E'. injection E' as ->. lia. }
      rewrite remove_at_app.
      rewrite (insert_lines_spec c bx fs (List.length done) _ 0 done)
        by apply plus_n_O.
      rewrite app_assoc, IH.
      * rewrite map_app, map_map. cbn [snd]. rewrite map_id, <- app_assoc.
        reflexivity.
      * intros s k Hs Hk. apply in_app_or in Hs. destruct Hs as [Hs|Hs].
        -- specialize (H s k Hs Hk). lia.
        -- apply in_map_iff in Hs. destruct Hs as (t & <- & _).
           discriminate Hk.
    + change (done ++ (Some i, c) :: FixAffinity.number_from (S i) r)
        with (done ++ [(Some i, c)] ++ FixAffinity.number_from (S i) r).
      rewrite app_assoc, IH.
      * rewrite map_app, <- app_assoc. reflexivity.
      * intros s k Hs Hk. apply in_app_or in Hs. destruct Hs as [Hs|Hs].
        -- specialize (H s k Hs Hk). lia.
        -- destruct Hs as [<-|[]]. simpl in Hk. injection Hk as <-. lia.
Qed.

Lemma sanitize_own_fields :
  forall e,
    FixAffinity.sanitize e
    = set_attrib (attrib (FixAffinity.sanitize e)) e.
Proof.
  intros e. unfold FixAffinity.sanitize.
  destruct (get "style" (attrib e)) as [s|]; [|reflexivity].
  destruct (truthy s && contains "white-space" s); [|reflexivity].
  destruct (negb _); reflexivity.
Qed.

(** [process_text_node] on an element whose leading text does not hold
    the marker. *)
Lemma process_text_node_runs :
  forall el,
    FixAffinity.has_marker (text el) = false ->
    fst (FixAffinity.process_text_node el)
    = set_children
        (flat_map
           (Normal.replacement (FixAffinity.get_text_x el)
              (PyFloat.or_else
                 (FixAffinity.parse_font_size (get "style" (attrib el)))
                 (FixAffinity.parse_font_size (get "style" (attrib el)))))
           (children el))
        (FixAffinity.sanitize el).
Proof.
  intros el H. unfold FixAffinity.process_text_node.
  rewrite sanitize_text, H, sanitize_children.
  pose proof (rebuild_loop_spec (FixAffinity.get_text_x el)
                (PyFloat.or_else
                   (FixAffinity.parse_font_size (get "style" (attrib el)))
                   (FixAffinity.parse_font_size (get "style" (attrib el))))
                (children el) 0 [] false) as S.
  cbn [app map] in S.
  destruct (FixAffinity.rebuild_loop _ _ 0 (children el) _) as [cur ch].
  cbn [fst] in *. rewrite S; [reflexivity|]. intros s k [].
Qed.

Lemma attrib_eqb_eq :
  forall a b, Normal.attrib_eqb a b = true <-> a = b.
Proof.
  induction a as [|[k v] a IH]; intros [|[k' v'] b]; simpl;
    try (split; [discriminate | discriminate]); [split; reflexivity|].
  split.
  - intros H. apply andb_prop in H. destruct H as [H Hb].
    apply andb_prop in H. destruct H as [Hk Hv].
    apply String.eqb_eq in Hk. apply String.eqb_eq in Hv.
    apply IH in Hb. congruence.
  - intros H. injection H as -> -> ->.
    rewrite !String.eqb_refl. simpl. apply IH. reflexivity.
Qed.

Lemma set_present :
  forall key value a, get key a = Some value -> set key value a = a.
Proof.
  intros key value a. induction a as [|[k v] r IH]; intros H; [discriminate H|].
  simpl in *. destruct (String.eqb k key); [injection H as ->; reflexivity|].
  rewrite (IH H). reflexivity.
Qed.

Lemma set_attrib_same : forall e, set_attrib (attrib e) e = e.
Proof. intros [tg a tx tl cs]. reflexivity. Qed.

(** The attributes after [sanitize], from the attributes before. *)
Lemma sanitize_attrib :
  forall e,
    attrib (FixAffinity.sanitize e)
    = let a1 := set FixAffinity.xml_space "preserve" (attrib e) in
      match get "style" (attrib e) with
      | Some s =>
          if truthy s && contains "white-space" s then
            if negb (String.eqb (FixAffinity.clean_white_space_in_style s) s)
            then set "style" (FixAffinity.clean_white_space_in_style s) a1
            else a1
          else a1
      | None => a1
      end.
Proof.
  intros e. unfold FixAffinity.sanitize.
  destruct (get "style" (attrib e)) as [s|]; [|reflexivity].
  destruct (truthy s && contains "white-space" s); [|reflexivity].
  destruct (negb _); reflexivity.
Qed.

(** On stable styles [sanitize] settles in one step. *)
Lemma sanitize_settles :
  forall x y,
    Normal.stable_style (attrib x) = true ->
    attrib y = attrib (FixAffinity.sanitize x) ->
    attrib (FixAffinity.sanitize y) = attrib y.
Proof.
  intros x y Hs Hy. rewrite (sanitize_attrib y), Hy, (sanitize_attrib x).
  cbv zeta. unfold Normal.stable_style in Hs.
  set (a1 := set FixAffinity.xml_space "preserve" (attrib x)).
  assert (G1 : get "style" a1 = get "style" (attrib x))
    by (apply get_set_other; reflexivity).
  assert (X1 : set FixAffinity.xml_space "preserve" a1 = a1)
    by (apply set_present, get_set_same).
  destruct (get "style" (attrib x)) as [s|] eqn:Es.
  - destruct (truthy s && contains "white-space" s) eqn:G.
    + destruct (negb (String.eqb (FixAffinity.clean_white_space_in_style s) s))
        eqn:C.
      * set (c := FixAffinity.clean_white_space_in_style s) in *.
        rewrite get_set_same.
        assert (X2 : set FixAffinity.xml_space "preserve" (set "style" c a1)
                     = set "style" c a1).
        { apply set_present. rewrite get_set_other by reflexivity.
          apply get_set_same. }
        rewrite X2. simpl in Hs. apply String.eqb_eq in Hs. rewrite Hs.
        rewrite String.eqb_refl. cbn [negb].
        destruct (truthy c && contains "white-space" c); reflexivity.
      * rewrite G1, G, C, X1. reflexivity.
    + rewrite G1, G, X1. reflexivity.
  - rewrite G1, X1. reflexivity.
Qed.

Lemma piece_has_no_marker :
  forall l, contains marker l = false -> FixAffinity.has_marker (Some l) = false.
Proof. intros l H. unfold FixAffinity.has_marker. rewrite H. apply andb_false_r. Qed.

Lemma no_split_app :
  forall a b, Normal.no_split (a ++ b) = Normal.no_split a && Normal.no_split b.
Proof. intros a b. unfold Normal.no_split. apply forallb_app. Qed.

Lemma no_split_build_tspans :
  forall lines i bx lh,
    Forall (fun l => contains marker l = false) lines ->
    Normal.no_split (FixAffinity.build_tspans i lines bx lh) = true.
Proof.
  intros lines i bx lh H. revert i.
  induction H as [|l r Hl Hr IH]; intros i; [reflexivity|].
  cbn [FixAffinity.build_tspans Normal.no_split forallb].
  fold (Normal.no_split (FixAffinity.build_tspans (S i) r bx lh)).
  rewrite IH. unfold FixAffinity.needs_split.
  cbn [FixAffinity.new_tspan text]. rewrite (piece_has_no_marker l Hl).
  rewrite andb_false_r. reflexivity.
Qed.

Lemma no_split_rebuilt_tspans :
  forall lines child bx fs j,
    Forall (fun l => contains marker l = false) lines ->
    Normal.no_split (Normal.rebuilt_tspans child bx fs j lines) = true.
Proof.
  intros lines child bx fs j H. revert j.
  induction H as [|l r Hl Hr IH]; intros j; [reflexivity|].
  cbn [Normal.rebuilt_tspans Normal.no_split forallb].
  fold (Normal.no_split (Normal.rebuilt_tspans child bx fs (S j) r)).
  rewrite IH. unfold FixAffinity.needs_split, FixAffinity.rebuilt_tspan.
  cbn [FixAffinity.new_tspan text]. rewrite (piece_has_no_marker l Hl).
  rewrite andb_false_r. reflexivity.
Qed.

(** After the second loop no line run holds the marker. *)
Lemma no_split_replacements :
  forall bx fs l,
    Normal.no_split (flat_map (Normal.replacement bx fs) l) = true.
Proof.
  intros bx fs l. induction l as [|c r IH]; [reflexivity|].
  cbn [flat_map]. rewrite no_split_app, IH, andb_true_r.
  unfold Normal.replacement. destruct (FixAffinity.needs_split c) eqn:E.
  - apply no_split_rebuilt_tspans.
    destruct (text c) as [s|]; [apply split_marker_pieces | constructor].
  - unfold Normal.no_split. cbn [forallb]. rewrite E. reflexivity.
Qed.

(** Without a line run that holds the marker the second loop changes
    nothing. *)
Lemma replacements_settled :
  forall bx fs l,
    Normal.no_split l = true ->
    flat_map (Normal.replacement bx fs) l = l.
Proof.
  intros bx fs l. induction l as [|c r IH]; intros H; [reflexivity|].
  unfold Normal.no_split in H. cbn [forallb] in H.
  apply andb_prop in H. destruct H as [Hc Hr].
  cbn [flat_map]. rewrite (IH Hr). unfold Normal.replacement.
  apply negb_true_iff in Hc. rewrite Hc. reflexivity.
Qed.

Lemma process_attrib :
  forall x,
    attrib (fst (FixAffinity.process_text_node x))
    = attrib (FixAffinity.sanitize x).
Proof.
  intros x. destruct (FixAffinity.has_marker (text x)) eqn:M.
  - destruct (text x) as [t|] eqn:T; [|discriminate M].
    rewrite (process_text_node_direct x t T M). reflexivity.
  - rewrite (process_text_node_runs x M). reflexivity.
Qed.

Lemma process_tag :
  forall x, tag (fst (FixAffinity.process_text_node x)) = tag x.
Proof.
  intros x. destruct (FixAffinity.has_marker (text x)) eqn:M.
  - destruct (text x) as [t|] eqn:T; [|discriminate M].
    rewrite (process_text_node_direct x t T M). apply sanitize_tag.
  - rewrite (process_text_node_runs x M). apply sanitize_tag.
Qed.

(** One call of [process_text_node] settles a stable element. *)
Lemma process_settles :
  forall x,
    Normal.stable x = true ->
    Normal.settled (fst (FixAffinity.process_text_node x)) = true.
Proof.
  intros x H. unfold Normal.stable in H. apply andb_prop in H.
  destruct H as [Hs Hm]. unfold Normal.settled.
  assert (A : Normal.attrib_eqb
                (attrib (FixAffinity.sanitize
                           (fst (FixAffinity.process_text_node x))))
                (attrib (fst (FixAffinity.process_text_node x))) = true).
  { apply attrib_eqb_eq. apply (sanitize_settles x); [exact Hs|].
    apply process_attrib. }
  rewrite A, andb_true_r.
  destruct (FixAffinity.has_marker (text x)) eqn:M.
  - destruct (text x) as [t|] eqn:T; [|discriminate M].
    rewrite (process_text_node_direct x t T M).
    rewrite split_into_tspans_children, sanitize_children, no_split_app.
    simpl in Hm. rewrite Hm.
    rewrite no_split_build_tspans by apply split_marker_pieces.
    reflexivity.
  - rewrite (process_text_node_runs x M).
    cbn [text children set_children]. rewrite sanitize_text, M.
    rewrite no_split_replacements. reflexivity.
Qed.

(** [process_text_node] leaves a settled element as it is. *)
Lemma process_settled :
  forall x,
    Normal.settled x = true -> fst (FixAffinity.process_text_node x) = x.
Proof.
  intros x H. unfold Normal.settled in H.
  apply andb_prop in H. destruct H as [H Ha].
  apply andb_prop in H. destruct H as [Hm Hn].
  apply negb_true_iff in Hm. apply attrib_eqb_eq in Ha.
  rewrite (process_text_node_runs x Hm), (replacements_settled _ _ _ Hn).
  rewrite sanitize_own_fields, Ha, set_attrib_same.
  apply set_children_same.
Qed.

Lemma settled_stable :
  forall x, Normal.settled x = true -> Normal.stable x = true.
Proof.
  intros x H. unfold Normal.settled in H.
  apply andb_prop in H. destruct H as [H Ha].
  apply andb_prop in H. destruct H as [Hm Hn].
  apply attrib_eqb_eq in Ha. unfold Normal.stable.
  rewrite Hm, orb_true_l, andb_true_r.
  unfold Normal.stable_style. rewrite sanitize_attrib in Ha. cbv zeta in Ha.
  destruct (get "style" (attrib x)) as [s|] eqn:Es; [|reflexivity].
  destruct (truthy s && contains "white-space" s) eqn:G; [|reflexivity].
  cbn [negb orb].
  destruct (String.eqb (FixAffinity.clean_white_space_in_style s) s) eqn:C.
  - apply String.eqb_eq in C. rewrite !C. apply String.eqb_refl.
  - cbn [negb] in Ha. exfalso.
    assert (K : get "style"
                  (set "style" (FixAffinity.clean_white_space_in_style s)
                     (set FixAffinity.xml_space "preserve" (attrib x)))
                = Some s) by (rewrite Ha; exact Es).
    rewrite get_set_same in K. injection K as K.
    rewrite K, String.eqb_refl in C. discriminate C.
Qed.

(** ** The whole-document pass *)

Lemma process_all_unfold :
  forall sel e,
    FixAffinity.process_all sel e
    = let e' :=
        set_children (map (FixAffinity.process_all sel) (children e)) e in
      if sel e then fst (FixAffinity.process_text_node e') else e'.
Proof. intros sel [tg a tx tl cs]. reflexivity. Qed.

Lemma everywhere_unfold :
  forall p e,
    Normal.everywhere p e
    = p e && forallb (Normal.everywhere p) (children e).
Proof. intros p [tg a tx tl cs]. reflexivity. Qed.

Lemma everywhere_weaken :
  forall (p q : Element -> bool),
    (forall e, p e = true -> q e = true) ->
    forall t, Normal.everywhere p t = true -> Normal.everywhere q t = true.
Proof.
  intros p q H. induction t as [t IH] using Element_induction. intros Ht.
  rewrite everywhere_unfold in *. apply andb_prop in Ht.
  destruct Ht as [Hp Hc]. rewrite (H t Hp). cbn [andb].
  apply forallb_forall. intros c Hin.
  rewrite Forall_forall in IH. apply (IH c Hin).
  rewrite forallb_forall in Hc. apply Hc, Hin.
Qed.

(** The children after [process_text_node] are children from before or
    new tspans, which have no children. *)
Lemma process_children :
  forall x c,
    In c (children (fst (FixAffinity.process_text_node x))) ->
    In c (children x) \/ (tag c = "tspan" /\ children c = []).
Proof.
  intros x c. destruct (FixAffinity.has_marker (text x)) eqn:M.
  - destruct (text x) as [t|] eqn:T; [|discriminate M].
    rewrite (process_text_node_direct x t T M), split_into_tspans_children.
    rewrite sanitize_children. intros H. apply in_app_or in H.
    destruct H as [H|H]; [left; exact H | right].
    revert H. generalize 0. induction (split_marker t) as [|l r IH];
      intros i H; [contradiction|].
    destruct H as [<-|H]; [split; reflexivity | apply (IH _ H)].
  - rewrite (process_text_node_runs x M). cbn [children set_children].
    intros H. apply in_flat_map in H. destruct H as (y & Hy & H).
    unfold Normal.replacement in H.
    destruct (FixAffinity.needs_split y).
    + right. revert H. generalize 0.
      induction (match text y with
                 | Some s => split_marker s
                 | None => []
                 end) as [|l r IH]; intros j H; [contradiction|].
      destruct H as [<-|H]; [split; reflexivity | apply (IH _ H)].
    + destruct H as [<-|[]]. left. exact Hy.
Qed.

Lemma stable_set_children :
  forall l x,
    Normal.no_split l = Normal.no_split (children x) ->
    Normal.stable (set_children l x) = Normal.stable x.
Proof. intros l x H. unfold Normal.stable. cbn [set_children attrib text children]. rewrite H. reflexivity. Qed.

Lemma settled_set_children :
  forall l x,
    Normal.no_split l = Normal.no_split (children x) ->
    Normal.settled (set_children l x) = Normal.settled x.
Proof.
  intros l x H. unfold Normal.settled. rewrite !sanitize_attrib.
  cbn [set_children attrib text children]. rewrite H. reflexivity.
Qed.

Section Pass.

(** [sel] selects the elements of one loop of [main], [wide] those of
    any loop. *)
Variables sel wide : Element -> bool.

Hypothesis sel_not_run :
  forall e, sel e = true -> FixAffinity.is_line_run e = false.
Hypothesis sel_tag : forall a b, tag a = tag b -> sel a = sel b.
Hypothesis wide_tag : forall a b, tag a = tag b -> wide a = wide b.
Hypothesis sel_wide : forall e, sel e = true -> wide e = true.
Hypothesis wide_tspan : forall e, tag e = "tspan" -> wide e = false.

Lemma process_all_tag :
  forall e, tag (FixAffinity.process_all sel e) = tag e.
Proof.
  intros e. rewrite process_all_unfold. cbv zeta.
  destruct (sel e); [rewrite process_tag|]; reflexivity.
Qed.

(** The pass does not change which children are line runs that hold the
    marker. *)
Lemma process_all_needs_split :
  forall c,
    FixAffinity.needs_split (FixAffinity.process_all sel c)
    = FixAffinity.needs_split c.
Proof.
  intros c. unfold FixAffinity.needs_split, FixAffinity.is_line_run.
  rewrite process_all_tag. rewrite process_all_unfold. cbv zeta.
  destruct (sel c) eqn:E; [|reflexivity].
  apply sel_not_run in E. unfold FixAffinity.is_line_run in E.
  rewrite E. reflexivity.
Qed.

Lemma process_all_no_split :
  forall l,
    Normal.no_split (map (FixAffinity.process_all sel) l) = Normal.no_split l.
Proof.
  intros l. unfold Normal.no_split.
  induction l as [|c r IH]; [reflexivity|].
  cbn [map forallb]. rewrite process_all_needs_split, IH. reflexivity.
Qed.

(** After the pass the selected elements are settled, and the elements
    of the other loop are still stable. *)
Lemma pass_settles :
  forall t,
    Normal.everywhere (fun e => negb (wide e) || Normal.stable e) t = true ->
    Normal.everywhere
      (fun e => (negb (sel e) || Normal.settled e)
                && (negb (wide e) || Normal.stable e))
      (FixAffinity.process_all sel t) = true.
Proof.
  induction t as [t IH] using Element_induction. intros H.
  rewrite everywhere_unfold in H. apply andb_prop in H.
  destruct H as [Hroot Hkids].
  rewrite process_all_unfold. cbv zeta.
  set (cs := map (FixAffinity.process_all sel) (children t)).
  assert (K : forall c, In c cs ->
                Normal.everywhere
                  (fun e => (negb (sel e) || Normal.settled e)
                            && (negb (wide e) || Normal.stable e)) c = true).
  { intros c Hc. subst cs. apply in_map_iff in Hc.
    destruct Hc as (y & <- & Hy). rewrite Forall_forall in IH.
    apply (IH y Hy). rewrite forallb_forall in Hkids. apply Hkids, Hy. }
  assert (St : Normal.stable (set_children cs t) = Normal.stable t).
  { apply stable_set_children. subst cs. apply process_all_no_split. }
  destruct (sel t) eqn:E.
  - rewrite (sel_wide t E) in Hroot. simpl in Hroot.
    assert (Se : Normal.settled
                   (fst (FixAffinity.process_text_node (set_children cs t)))
                 = true)
      by (apply process_settles; rewrite St; exact Hroot).
    rewrite everywhere_unfold. cbv beta.
    rewrite Se, (settled_stable _ Se), !orb_true_r.
    cbn [andb]. apply forallb_forall. intros c Hc.
    apply process_children in Hc. cbn [children set_children] in Hc.
    destruct Hc as [Hc | [Ht Hn]]; [apply K, Hc|].
    rewrite everywhere_unfold, Hn. cbv beta. rewrite (wide_tspan c Ht).
    destruct (sel c) eqn:Ec; [|reflexivity].
    pose proof (sel_wide c Ec) as W. rewrite (wide_tspan c Ht) in W.
    discriminate W.
  - rewrite everywhere_unfold. cbv beta. cbn [children set_children].
    rewrite (sel_tag (set_children cs t) t eq_refl), E.
    rewrite (wide_tag (set_children cs t) t eq_refl), St, Hroot.
    cbn [negb orb andb]. apply forallb_forall. exact K.
Qed.

(** The pass changes nothing when the selected elements are settled. *)
Lemma pass_fixed :
  forall t,
    Normal.everywhere (fun e => negb (sel e) || Normal.settled e) t = true ->
    FixAffinity.process_all sel t = t.
Proof.
  induction t as [t IH] using Element_induction. intros H.
  rewrite everywhere_unfold in H. apply andb_prop in H.
  destruct H as [Hroot Hkids].
  rewrite process_all_unfold. cbv zeta.
  assert (M : map (FixAffinity.process_all sel) (children t) = children t).
  { rewrite <- (map_id (children t)) at 2. apply map_ext_in.
    intros c Hc. rewrite Forall_forall in IH. apply (IH c Hc).
    rewrite forallb_forall in Hkids. apply Hkids, Hc. }
  rewrite M, set_children_same.
  destruct (sel t); [|reflexivity].
  apply process_settled. exact Hroot.
Qed.

End Pass.

Lemma split_char_nonempty : forall sep s, split_char sep s <> [].
Proof.
  intros sep s. destruct s as [|c t]; simpl; [discriminate|].
  destruct (Ascii.eqb c sep); [discriminate|].
  destruct (split_char sep t); discriminate.
Qed.

Lemma join_split_char :
  forall sep s, join (String sep EmptyString) (split_char sep s) = s.
Proof.
  intros sep s. induction s as [|c t IH]; [reflexivity|].
  pose proof (split_char_nonempty sep t) as N. simpl.
  destruct (split_char sep t) as [|h r]; [contradiction|].
  destruct (Ascii.eqb c sep) eqn:E.
  - apply Ascii.eqb_eq in E. subst c. rewrite join_cons_cons, IH. reflexivity.
  - rewrite join_cons_char, IH. reflexivity.
Qed.

Lemma endswith_tspan_text :
  forall ns, endswith "tspan" (ns ++ "}text")%string = false.
Proof.
  induction ns as [|c t IH]; [reflexivity|].
  cbn [append endswith]. rewrite IH, orb_false_r.
  apply String.eqb_neq. intros H.
  assert (L : String.length "tspan" = String.length (String c (t ++ "}text")))
    by (rewrite <- H; reflexivity).
  rewrite <- H in L. simpl in L.
  assert (B : String.length (String c (t ++ "}text")) = 5)
    by (rewrite <- H; reflexivity).
  simpl in B. rewrite length_append in B. simpl in B. lia.
Qed.

Lemma svg_text_not_run :
  forall e, FixAffinity.is_svg_text e = true -> FixAffinity.is_line_run e = false.
Proof.
  intros e H. unfold FixAffinity.is_svg_text in H.
  apply String.eqb_eq in H. unfold FixAffinity.is_line_run. rewrite H.
  reflexivity.
Qed.

Lemma any_text_not_run :
  forall e, FixAffinity.is_any_text e = true -> FixAffinity.is_line_run e = false.
Proof.
  intros e H. unfold FixAffinity.is_any_text in H.
  unfold FixAffinity.is_line_run.
  rewrite <- (join_split_char "}" (tag e)).
  destruct (split_char "}" (tag e)) as [|a [|b [|c r]]]; try discriminate H.
  - apply String.eqb_eq in H. subst a. reflexivity.
  - apply andb_prop in H. destruct H as [_ H].
    apply String.eqb_eq in H. subst b. apply endswith_tspan_text.
Qed.

Lemma svg_text_any_text :
  forall e, FixAffinity.is_svg_text e = true -> FixAffinity.is_any_text e = true.
Proof.
  intros e H. unfold FixAffinity.is_svg_text in H.
  apply String.eqb_eq in H. unfold FixAffinity.is_any_text. rewrite H.
  reflexivity.
Qed.

Lemma svg_text_tag :
  forall a b, tag a = tag b -> FixAffinity.is_svg_text a = FixAffinity.is_svg_text b.
Proof. intros a b H. unfold FixAffinity.is_svg_text. rewrite H. reflexivity. Qed.

Lemma any_text_tag :
  forall a b, tag a = tag b -> FixAffinity.is_any_text a = FixAffinity.is_any_text b.
Proof. intros a b H. unfold FixAffinity.is_any_text. rewrite H. reflexivity. Qed.

Lemma any_text_tspan :
  forall e, tag e = "tspan" -> FixAffinity.is_any_text e = false.
Proof. intros e H. unfold FixAffinity.is_any_text. rewrite H. reflexivity. Qed.

(** After [main] every [<text>] element below the root is settled, and
    so is the root if the first loop takes it. *)
Lemma main_settles :
  forall doc,
    Normal.well_behaved doc = true ->
    Normal.everywhere
      (fun e => negb (FixAffinity.is_svg_text e) || Normal.settled e)
      (FixAffinity.main doc) = true
    /\ forallb
         (Normal.everywhere
            (fun e => negb (FixAffinity.is_any_text e) || Normal.settled e))
         (children (FixAffinity.main doc)) = true.
Proof.
  intros doc H. unfold Normal.well_behaved in H.
  pose proof (pass_settles FixAffinity.is_svg_text FixAffinity.is_any_text
                svg_text_not_run svg_text_tag any_text_tag svg_text_any_text
                any_text_tspan doc H) as H1.
  unfold FixAffinity.main.
  set (d1 := FixAffinity.process_all FixAffinity.is_svg_text doc) in *.
  rewrite everywhere_unfold in H1. apply andb_prop in H1.
  destruct H1 as [Hroot Hkids]. apply andb_prop in Hroot.
  destruct Hroot as [Hroot _].
  set (cs := map (FixAffinity.process_all FixAffinity.is_any_text)
               (children d1)).
  assert (K : forall c,
            In c cs ->
            Normal.everywhere
              (fun e => negb (FixAffinity.is_any_text e) || Normal.settled e)
              c = true).
  { intros c Hc. subst cs. apply in_map_iff in Hc.
    destruct Hc as (y & <- & Hy). rewrite forallb_forall in Hkids.
    eapply everywhere_weaken;
      [| apply (pass_settles FixAffinity.is_any_text FixAffinity.is_any_text
                  any_text_not_run any_text_tag any_text_tag
                  (fun e h => h) any_text_tspan y)].
    - intros e He. apply andb_prop in He. apply He.
    - eapply everywhere_weaken; [|apply (Hkids y Hy)].
      intros e He. apply andb_prop in He. apply He. }
  split; [|cbn [children set_children]; apply forallb_forall; exact K].
  rewrite everywhere_unfold. cbv beta. cbn [children set_children].
  rewrite (svg_text_tag (set_children cs d1) d1 eq_refl).
  rewrite settled_set_children
    by (subst cs; apply (process_all_no_split FixAffinity.is_any_text
                           any_text_not_run)).
  rewrite Hroot. cbn [andb]. apply forallb_forall. intros c Hc.
  eapply everywhere_weaken; [|apply (K c Hc)].
  intros e He. cbv beta in *.
  destruct (FixAffinity.is_svg_text e) eqn:E; [|reflexivity].
  rewrite (svg_text_any_text e E) in He. exact He.
Qed.

(** [main] changes nothing on a tree whose [<text>] elements are
    settled. *)
Lemma main_fixed :
  forall t,
    Normal.everywhere
      (fun e => negb (FixAffinity.is_svg_text e) || Normal.settled e) t = true ->
    forallb
      (Normal.everywhere
         (fun e => negb (FixAffinity.is_any_text e) || Normal.settled e))
      (children t) = true ->
    FixAffinity.main t = t.
Proof.
  intros t H1 H2. unfold FixAffinity.main.
  rewrite (pass_fixed FixAffinity.is_svg_text t H1).
  assert (M : map (FixAffinity.process_all FixAffinity.is_any_text)
                (children t) = children t).
  { rewrite <- (map_id (children t)) at 2. apply map_ext_in.
    intros c Hc. apply (pass_fixed FixAffinity.is_any_text).
    rewrite forallb_forall in H2. apply H2, Hc. }
  rewrite M. apply set_children_same.
Qed.

(** C5, as the code has it.  The line-normalization pass is idempotent
    on the documents in which every [<text>] element has a style that
    the sanitizer settles in one step and does not hold the marker both
    in its leading text and in one of its line runs.  On these, one run
    of [main] settles every [<text>] element below the root: neither its
    leading text nor any of its line runs holds the marker; so running
    [main] on the result of [main] gives the same tree. *)
Theorem C5_normalization_is_idempotent_on_stable_documents :
  forall doc : Element,
    Normal.well_behaved doc = true ->
    FixAffinity.main (FixAffinity.main doc) = FixAffinity.main doc
    /\ forallb
         (Normal.everywhere
            (fun e => negb (FixAffinity.is_any_text e)
                      || (negb (FixAffinity.has_marker (text e))
                          && Normal.no_split (children e))))
         (children (FixAffinity.main doc)) = true.
Proof.
  intros doc H. destruct (main_settles doc H) as [H1 H2]. split.
  - apply main_fixed; assumption.
  - apply forallb_forall. intros c Hc. rewrite forallb_forall in H2.
    eapply everywhere_weaken; [|apply (H2 c Hc)].
    intros e He. cbv beta in *.
    destruct (FixAffinity.is_any_text e); [|reflexivity].
    simpl in *. unfold Normal.settled in He.
    apply andb_prop in He. apply He.
Qed.

Lemma C5_normalization_is_idempotent_on_stable_documents_witness :
  Normal.well_behaved Samples.label = true
  /\ FixAffinity.main (FixAffinity.main Samples.label)
     = FixAffinity.main Samples.label.
Proof.
  split; [reflexivity|].
  apply (proj1 (C5_normalization_is_idempotent_on_stable_documents
                  Samples.label eq_refl)).
Defined.

(** The claim C5 as it is written holds for every document.  On
    [<text style="white-white-space:a;space:b">] the first run leaves
    the style [white-space:b], which the second run removes. *)
Lemma C5_second_run_changes_style_counterexample :
  FixAffinity.main (FixAffinity.main Samples.nested_white_space)
  <> FixAffinity.main Samples.nested_white_space.
Proof. vm_compute. discriminate. Qed.

(** The pass is not idempotent either when the marker is both in the
    leading text and in a line run: [split_into_tspans] keeps the old
    run, and only a second run splits it. *)
Example second_run_splits_the_old_run :
  map text
    (flat_map children (children (FixAffinity.main Samples.marker_twice)))
  = [Some (Samples.esc "C" "D"); Some "A"; Some "B"]
  /\ map text
       (flat_map children
          (children (FixAffinity.main (FixAffinity.main Samples.marker_twice))))
     = [Some "C"; Some "D"; Some "A"; Some "B"].
Proof. vm_compute. split; reflexivity. Qed.

(** ** Sample values of the float model *)

Example float_literals :
  PyFloat.float_of_string "12.0" = Some FixAffinity.twelve
  /\ PyFloat.float_of_string "1.2" = Some FixAffinity.one_point_two
  /\ PyFloat.float_of_string "10" = Some Samples.ten
  /\ PyFloat.float_of_string "1.2.3" = None
  /\ PyFloat.float_of_string "." = None.
Proof. vm_compute. repeat split. Qed.

Example line_heights_printed :
  PyFloat.repr (PyFloat.mul Samples.ten FixAffinity.one_point_two) = "12.0"
  /\ PyFloat.repr (PyFloat.mul FixAffinity.twelve FixAffinity.one_point_two)
     = "14.399999999999999".
Proof. vm_compute. split; reflexivity. Qed.

Example font_sizes_parsed :
  FixAffinity.parse_font_size (Some "fill:red; font-size : 10px")
  = Some Samples.ten
  /\ FixAffinity.parse_font_size (Some "font-size:10pt") = None
  /\ FixAffinity.parse_font_size (Some "") = None
  /\ FixAffinity.parse_font_size None = None.
Proof. vm_compute. repeat split. Qed.

(** ** Local names *)

Local Open Scope string_scope.

Lemma split_char_last_clean :
  forall sep s,
    contains (String sep "") (last (split_char sep s) "") = false.
Proof.
  intros sep s; induction s as [|c t IH]; [reflexivity|].
  cbn [split_char].
  destruct (Ascii.eqb c sep) eqn:E.
  - pose proof (split_char_nonempty sep t) as N.
    destruct (split_char sep t) as [|h r]; [contradiction|exact IH].
  - pose proof (split_char_nonempty sep t) as N.
    destruct (split_char sep t) as [|h r] eqn:S; [contradiction|].
    destruct r as [|h' r'].
    + cbn [last] in *. cbn [contains prefix].
      destruct (ascii_dec sep c) as [->|_].
      * rewrite Ascii.eqb_refl in E; discriminate E.
      * exact IH.
    + exact IH.
Qed.

Lemma split_char_clean :
  forall sep s,
    contains (String sep "") s = false -> split_char sep s = [s]%list.
Proof.
  intros sep s; induction s as [|c t IH]; intros H; [reflexivity|].
  cbn [contains prefix] in H.
  cbn [split_char].
  destruct (ascii_dec sep c) as [->|D].
  - destruct t; discriminate H.
  - destruct (Ascii.eqb c sep) eqn:E.
    + apply Ascii.eqb_eq in E; subst; contradiction.
    + rewrite (IH H). reflexivity.
Qed.

Lemma split_char_app :
  forall sep a b,
    split_char sep (a ++ String sep b)
    = (split_char sep a ++ split_char sep b)%list.
Proof.
  intros sep a b; induction a as [|c t IH].
  - cbn [append split_char]. rewrite Ascii.eqb_refl. reflexivity.
  - cbn [append split_char]. rewrite IH.
    pose proof (split_char_nonempty sep t) as N.
    destruct (Ascii.eqb c sep); [reflexivity|].
    destruct (split_char sep t) as [|h r]; [contradiction|reflexivity].
Qed.

Lemma last_app_nonempty :
  forall A (l1 l2 : list A) d,
    l2 <> []%list -> last (l1 ++ l2)%list d = last l2 d.
Proof.
  intros A l1 l2 d N; induction l1 as [|x r IH]; [reflexivity|].
  cbn [app last]. rewrite IH.
  destruct (r ++ l2)%list eqn:E; [|reflexivity].
  apply app_eq_nil in E. destruct E as [_ E]. contradiction.
Qed.

Lemma localname_clean :
  forall t, contains "}" (RenameTest.localname t) = false.
Proof.
  intros t; unfold RenameTest.localname.
  destruct (contains "}" t) eqn:E; [|exact E].
  apply split_char_last_clean.
Qed.

(** X1.  [localname] gives the part of a tag after its last closing
    brace: the result holds no closing brace, taking the local name twice
    is the same as taking it once, and a tag in Clark notation,
    [{namespace}local], is mapped to [local]. *)
Theorem localname_is_the_part_after_the_last_brace :
  forall t : string,
    contains "}" (RenameTest.localname t) = false
    /\ RenameTest.localname (RenameTest.localname t) = RenameTest.localname t
    /\ (contains "}" t = false ->
        RenameTest.localname t = t
        /\ forall ns, RenameTest.localname (ns ++ "}" ++ t) = t).
Proof.
  intros t; split; [apply localname_clean|split].
  - unfold RenameTest.localname at 1. rewrite localname_clean. reflexivity.
  - intros H; split.
    + unfold RenameTest.localname. rewrite H. reflexivity.
    + intros ns. unfold RenameTest.localname.
      assert (C : contains "}" (ns ++ "}" ++ t) = true).
      { apply contains_append_r. apply contains_prefix.
        cbn [append prefix].
        destruct (ascii_dec "}" "}"); [destruct t; reflexivity|contradiction]. }
      rewrite C. cbn [append].
      rewrite split_char_app, last_app_nonempty
        by apply split_char_nonempty.
      rewrite (split_char_clean _ _ H). reflexivity.
Qed.

Lemma localname_is_the_part_after_the_last_brace_witness :
  contains "}" "text" = false
  /\ RenameTest.localname "{http://www.w3.org/2000/svg}text" = "text".
Proof.
  split; [reflexivity|].
  destruct (localname_is_the_part_after_the_last_brace "text")
    as [_ [_ H]].
  destruct (H eq_refl) as [_ H'].
  exact (H' "{http://www.w3.org/2000/svg").
Defined.

(** ** The first coordinate of a text element *)

Local Open Scope string_scope.

Lemma split_ws_cons :
  forall c d u,
    split_ws (String c (String d u))
    = if is_space c then split_ws (String d u)
      else if is_space d
           then (String c EmptyString :: split_ws (String d u))%list
           else match split_ws (String d u) with
                | (h :: r)%list => (String c h :: r)%list
                | []%list => [String c EmptyString]%list
                end.
Proof. reflexivity. Qed.

Lemma span_cons :
  forall p c t,
    FixAffinity.span p (String c t)
    = if p c then (String c (fst (FixAffinity.span p t)),
                   snd (FixAffinity.span p t))
      else (EmptyString, String c t).
Proof.
  intros p c t. cbn [FixAffinity.span].
  destruct (p c); [|reflexivity].
  destruct (FixAffinity.span p t); reflexivity.
Qed.

Lemma split_ws_head :
  forall c t,
    is_space c = false ->
    exists r,
      split_ws (String c t)
      = (fst (FixAffinity.span (fun a => negb (is_space a)) (String c t))
         :: r)%list.
Proof.
  intros c t; revert c; induction t as [|d u IH]; intros c Hc.
  - cbn. rewrite Hc. cbn. eexists; reflexivity.
  - rewrite split_ws_cons, Hc, span_cons, Hc. cbn [negb fst].
    destruct (is_space d) eqn:Hd.
    + rewrite span_cons, Hd. cbn [negb fst]. eexists; reflexivity.
    + destruct (IH d Hd) as [r Hr]. rewrite Hr.
      eexists; reflexivity.
Qed.

Lemma span_rstrip_token :
  forall s,
    fst (FixAffinity.span (fun a => negb (is_space a)) (rstrip is_space s))
    = fst (FixAffinity.span (fun a => negb (is_space a)) s).
Proof.
  induction s as [|c t IH]; [reflexivity|].
  rewrite span_cons. cbn [rstrip].
  destruct (is_space c) eqn:Hc; cbn [negb fst].
  - destruct (rstrip is_space t); [reflexivity|].
    rewrite span_cons, Hc. reflexivity.
  - destruct (rstrip is_space t) as [|d u] eqn:R.
    + rewrite span_cons, Hc. cbn [negb fst]. rewrite <- IH. reflexivity.
    + rewrite span_cons, Hc. cbn [negb fst]. rewrite IH. reflexivity.
Qed.

Lemma rstrip_starts :
  forall p c t,
    p c = false -> exists t', rstrip p (String c t) = String c t'.
Proof.
  intros p c t Hc. cbn [rstrip]. rewrite Hc.
  destruct (rstrip p t); eexists; reflexivity.
Qed.

Lemma span_parts :
  forall p s,
    s = fst (FixAffinity.span p s) ++ snd (FixAffinity.span p s)
    /\ Style.all_chars p (fst (FixAffinity.span p s)) = true
    /\ match snd (FixAffinity.span p s) with
       | String c _ => p c = false
       | EmptyString => True
       end.
Proof.
  intros p s; induction s as [|c t IH]; [cbn; auto|].
  cbn [FixAffinity.span].
  destruct (p c) eqn:Hc.
  - destruct (FixAffinity.span p t) as [a b]. cbn [fst snd] in *.
    destruct IH as [E [A B]].
    split; [cbn [append]; congruence|].
    split; [cbn [Style.all_chars]; rewrite Hc; exact A|exact B].
  - cbn. auto.
Qed.

(** X2.  [get_text_x] gives the first token of the [x] attribute: the
    attribute is some white space, the token, and a rest that is empty
    or starts with white space; the token is not empty and holds no
    white space.  It gives [None] exactly when the attribute is missing
    or holds nothing but white space. *)
Theorem get_text_x_is_the_first_token :
  forall element : Element,
    match FixAffinity.get_text_x element with
    | Some part =>
        part <> ""
        /\ Style.all_chars (fun c => negb (is_space c)) part = true
        /\ exists x blank rest,
             get "x" (attrib element) = Some x
             /\ x = blank ++ part ++ rest
             /\ Style.all_chars is_space blank = true
             /\ match rest with
                | String c _ => is_space c = true
                | EmptyString => True
                end
    | None =>
        match get "x" (attrib element) with
        | Some x => Style.all_chars is_space x = true
        | None => True
        end
    end.
Proof.
  intros element. unfold FixAffinity.get_text_x.
  destruct (get "x" (attrib element)) as [x|]; [|exact I].
  destruct (truthy x) eqn:T.
  2:{ destruct x; [reflexivity|discriminate T]. }
  unfold strip, strip_by.
  destruct (span_lstrip is_space x) as [w [Ex [Aw _]]].
  destruct (lstrip is_space x) as [|c t] eqn:L.
  - cbn. rewrite Ex, append_empty_r. exact Aw.
  - pose proof (lstrip_stops _ _ _ _ L) as Hc.
    destruct (rstrip_starts is_space c t Hc) as [t' R].
    pose proof (span_rstrip_token (String c t)) as Tok.
    rewrite R in *.
    destruct (split_ws_head c t' Hc) as [r Hr]. rewrite Hr, Tok.
    destruct (span_parts (fun a => negb (is_space a)) (String c t))
      as [E [A B]].
    split; [|split].
    + rewrite span_cons, Hc. cbn [negb fst]. discriminate.
    + exact A.
    + exists x, w,
        (snd (FixAffinity.span (fun a => negb (is_space a)) (String c t))).
      split; [reflexivity|]. split; [rewrite <- E; exact Ex|].
      split; [exact Aw|].
      destruct (snd (FixAffinity.span (fun a => negb (is_space a))
                       (String c t))); [exact I|].
      destruct (is_space a); [reflexivity|discriminate B].
Qed.

(** ** The shape of a cleaned style *)

Local Open Scope string_scope.

Lemma lstrip_fixed :
  forall p c t, p c = false -> lstrip p (String c t) = String c t.
Proof. intros p c t H. cbn [lstrip]. rewrite H. reflexivity. Qed.

Lemma lstrip_idempotent :
  forall p s, lstrip p (lstrip p s) = lstrip p s.
Proof.
  intros p s; induction s as [|c t IH]; [reflexivity|].
  cbn [lstrip]. destruct (p c) eqn:H; [exact IH|].
  apply lstrip_fixed; exact H.
Qed.

Lemma rstrip_cons :
  forall p c t,
    rstrip p (String c t)
    = match rstrip p t with
      | EmptyString => if p c then EmptyString else String c EmptyString
      | r => String c r
      end.
Proof. reflexivity. Qed.

Lemma rstrip_idempotent :
  forall p s, rstrip p (rstrip p s) = rstrip p s.
Proof.
  intros p s; induction s as [|c t IH]; [reflexivity|].
  rewrite (rstrip_cons p c t).
  destruct (rstrip p t) as [|d u] eqn:R.
  - destruct (p c) eqn:H; [reflexivity|].
    rewrite rstrip_cons. cbn [rstrip]. rewrite H. reflexivity.
  - rewrite rstrip_cons, IH. reflexivity.
Qed.

Lemma lstrip_rstrip :
  forall p s, lstrip p s = s -> lstrip p (rstrip p s) = rstrip p s.
Proof.
  intros p s H; destruct s as [|c t]; [reflexivity|].
  destruct (p c) eqn:Hc.
  - exfalso. cbn [lstrip] in H. rewrite Hc in H.
    destruct (span_lstrip p t) as [w [E _]].
    apply (f_equal String.length) in E. rewrite length_append, H in E.
    cbn [String.length] in E. lia.
  - destruct (rstrip_starts p c t Hc) as [t' R]. rewrite R.
    apply lstrip_fixed; exact Hc.
Qed.

Lemma strip_by_fixed :
  forall p s,
    lstrip p (strip_by p s) = strip_by p s
    /\ rstrip p (strip_by p s) = strip_by p s.
Proof.
  intros p s; unfold strip_by; split.
  - apply lstrip_rstrip, lstrip_idempotent.
  - apply rstrip_idempotent.
Qed.

Lemma rstrip_is_prefix :
  forall p s, exists w, s = rstrip p s ++ w.
Proof.
  intros p s; induction s as [|c t [w IH]]; [exists ""; reflexivity|].
  cbn [rstrip].
  destruct (rstrip p t) as [|d u].
  - destruct (p c).
    + exists (String c t); reflexivity.
    + exists t; reflexivity.
  - exists w. rewrite IH at 1. reflexivity.
Qed.

Lemma contains_strip_by :
  forall sub p s, contains sub s = false -> contains sub (strip_by p s) = false.
Proof.
  intros sub p s H; unfold strip_by.
  destruct (span_lstrip p s) as [w [E _]].
  destruct (rstrip_is_prefix p (lstrip p s)) as [w' E'].
  destruct (contains sub (rstrip p (lstrip p s))) eqn:C; [|reflexivity].
  rewrite <- H, E, E'.
  symmetry. apply contains_append_r, contains_append_l. exact C.
Qed.

Lemma collapse_first :
  forall s,
    prefix ";" (FixAffinity.collapse_semicolons s) = prefix ";" s.
Proof.
  induction s as [|c t IH]; [reflexivity|].
  cbn [FixAffinity.collapse_semicolons].
  destruct (Ascii.eqb c ";") eqn:E.
  - apply Ascii.eqb_eq in E; subst c.
    destruct (prefix ";" t) eqn:P; cbn [andb].
    + rewrite IH, prefix_semicolon. reflexivity.
    + rewrite !prefix_semicolon. reflexivity.
  - cbn [andb]. rewrite !prefix_semicolon. reflexivity.
Qed.

Lemma prefix_cons :
  forall a p c s,
    prefix (String a p) (String c s) = Ascii.eqb a c && prefix p s.
Proof.
  intros a p c s. cbn [prefix].
  destruct (ascii_dec a c) as [->|N].
  - rewrite Ascii.eqb_refl. reflexivity.
  - destruct (Ascii.eqb a c) eqn:E; [|reflexivity].
    apply Ascii.eqb_eq in E. contradiction.
Qed.

Lemma collapse_no_double :
  forall s, contains ";;" (FixAffinity.collapse_semicolons s) = false.
Proof.
  induction s as [|c t IH]; [reflexivity|].
  cbn [FixAffinity.collapse_semicolons].
  destruct (Ascii.eqb c ";" && prefix ";" t) eqn:E; [exact IH|].
  cbn [contains]. rewrite IH, orb_false_r.
  rewrite prefix_cons, collapse_first, Ascii.eqb_sym. exact E.
Qed.

(** X3.  Whatever the style, the string that
    [clean_white_space_in_style] gives neither starts nor ends with a
    semicolon or a blank, and holds no two semicolons in a row. *)
Theorem cleaned_style_is_trimmed :
  forall style_attr : string,
    let cleaned := FixAffinity.clean_white_space_in_style style_attr in
    lstrip FixAffinity.semicolon_or_blank cleaned = cleaned
    /\ rstrip FixAffinity.semicolon_or_blank cleaned = cleaned
    /\ contains ";;" cleaned = false.
Proof.
  intros s cleaned; subst cleaned. rewrite clean_unfold.
  split; [apply strip_by_fixed|split; [apply strip_by_fixed|]].
  apply contains_strip_by. unfold strip. apply contains_strip_by.
  apply collapse_no_double.
Qed.

(** ** The declared font size *)

Local Open Scope string_scope.

Lemma lstrip_all :
  forall p w s, Style.all_chars p w = true -> lstrip p (w ++ s) = lstrip p s.
Proof.
  intros p w s; induction w as [|c t IH]; intros H; [reflexivity|].
  cbn [Style.all_chars] in H. apply andb_prop in H. destruct H as [Hc Ht].
  cbn [append lstrip]. rewrite Hc. exact (IH Ht).
Qed.

Lemma digit_is_not_space :
  forall c, is_digit_or_dot c = true -> is_space c = false.
Proof.
  intros c; destruct c as [[] [] [] [] [] [] [] []];
    intros H; try reflexivity; discriminate H.
Qed.

Lemma match_font_size_declaration :
  forall ws1 ws2 num rest,
    Style.all_chars is_space ws1 = true ->
    Style.all_chars is_space ws2 = true ->
    Style.all_chars is_digit_or_dot num = true ->
    num <> "" ->
    FixAffinity.match_font_size
      ("font-size" ++ ws1 ++ ":" ++ ws2 ++ num ++ "px" ++ rest)
    = Some num.
Proof.
  intros ws1 ws2 num rest H1 H2 Hn Ne.
  unfold FixAffinity.match_font_size.
  rewrite drop_prefix_self.
  rewrite (lstrip_all _ _ _ H1).
  change (":" ++ ws2 ++ num ++ "px" ++ rest)
    with (String ":" (ws2 ++ num ++ "px" ++ rest)).
  rewrite lstrip_fixed by reflexivity.
  rewrite Ascii.eqb_refl.
  rewrite (lstrip_all _ _ _ H2).
  destruct num as [|c t]; [contradiction|].
  cbn [Style.all_chars] in Hn. pose proof Hn as Hn'.
  apply andb_prop in Hn'. destruct Hn' as [Hc _].
  change (String c t ++ "px" ++ rest) with (String c (t ++ "px" ++ rest)).
  rewrite lstrip_fixed by (apply digit_is_not_space; exact Hc).
  change (String c (t ++ "px" ++ rest)) with (String c t ++ "px" ++ rest).
  rewrite (span_stops is_digit_or_dot (String c t) ("px" ++ rest)).
  - cbn [truthy andb]. rewrite prefix_append by reflexivity. reflexivity.
  - exact Hn.
  - right. exists "p"%char, ("x" ++ rest). split; reflexivity.
Qed.

(** X4.  The first [font-size] declaration decides: on a style that
    starts with [font-size], white space, a colon, white space, a run of
    digits and points that is not empty and [px], [parse_font_size] gives
    what [float] makes of that run, whatever follows; a run that [float]
    rejects gives [None] even when a well-formed declaration comes
    later. *)
Theorem parse_font_size_first_declaration_decides :
  forall ws1 ws2 num rest : string,
    Style.all_chars is_space ws1 = true ->
    Style.all_chars is_space ws2 = true ->
    Style.all_chars is_digit_or_dot num = true ->
    num <> "" ->
    FixAffinity.parse_font_size
      (Some ("font-size" ++ ws1 ++ ":" ++ ws2 ++ num ++ "px" ++ rest))
    = PyFloat.float_of_string num.
Proof.
  intros ws1 ws2 num rest H1 H2 Hn Ne.
  unfold FixAffinity.parse_font_size.
  change ("font-size" ++ ws1 ++ ":" ++ ws2 ++ num ++ "px" ++ rest)
    with (String "f" ("ont-size" ++ ws1 ++ ":" ++ ws2 ++ num ++ "px" ++ rest)).
  cbn [truthy negb].
  change (String "f" ("ont-size" ++ ws1 ++ ":" ++ ws2 ++ num ++ "px" ++ rest))
    with ("font-size" ++ ws1 ++ ":" ++ ws2 ++ num ++ "px" ++ rest).
  assert (S : FixAffinity.search_font_size
                ("font-size" ++ ws1 ++ ":" ++ ws2 ++ num ++ "px" ++ rest)
              = Some num).
  { pose proof (match_font_size_declaration ws1 ws2 num rest H1 H2 Hn Ne)
      as M.
    destruct ("font-size" ++ ws1 ++ ":" ++ ws2 ++ num ++ "px" ++ rest);
      cbn [FixAffinity.search_font_size]; rewrite M; reflexivity. }
  rewrite S. reflexivity.
Qed.

Lemma parse_font_size_first_declaration_decides_witness :
  FixAffinity.parse_font_size (Some "font-size: 1.2.3px;font-size:10px")
  = None.
Proof.
  exact (parse_font_size_first_declaration_decides
           "" " " "1.2.3" ";font-size:10px"
           eq_refl eq_refl eq_refl
           (fun H => match H in (_ = s)
                           return match s with
                                  | EmptyString => False
                                  | String _ _ => True
                                  end
                     with eq_refl => I end)).
Defined.

(** X5.  A declared font size of zero counts as no font size: the test
    [font_size or 12.0] takes the float [0.0] for false, so the line
    runs built from a leading text are set 1.2 x 12.0 apart, printed
    [14.399999999999999px]. *)
Theorem zero_font_size_falls_back_to_the_default :
  forall (el : Element) (t : string) (z : PyFloat.float),
    text el = Some t ->
    FixAffinity.has_marker (Some t) = true ->
    FixAffinity.parse_font_size (get "style" (attrib el)) = Some z ->
    PyFloat.truthy z = false ->
    exists runs,
      children (fst (FixAffinity.process_text_node el))
      = (children el ++ runs)%list
      /\ map (fun r => get "dy" (attrib r)) runs
         = (None :: repeat (Some "14.399999999999999px") (count_marker t))%list.
Proof.
  intros el t z Ht Hm Hp Hz.
  rewrite (process_text_node_direct el t Ht Hm).
  rewrite split_into_tspans_children, sanitize_children.
  eexists; split; [reflexivity|].
  rewrite Hp. unfold PyFloat.or_default. rewrite Hz.
  pose proof (split_marker_length t) as L.
  destruct (split_marker t) as [|l r]; [discriminate L|].
  cbn [FixAffinity.build_tspans map FixAffinity.new_tspan attrib].
  rewrite build_tspans_dy_later. injection L as L. rewrite L.
  rewrite app_nil_r.
  replace (FixAffinity.px
             (PyFloat.mul FixAffinity.twelve FixAffinity.one_point_two))
    with "14.399999999999999px" by (vm_compute; reflexivity).
  destruct (FixAffinity.get_text_x el); reflexivity.
Qed.

Lemma zero_font_size_falls_back_to_the_default_witness :
  let el :=
    mkElement "text" [("style", "font-size:0px")] (Some (Samples.esc "a" "b"))
      None [] in
  map (fun r => get "dy" (attrib r))
    (children (fst (FixAffinity.process_text_node el)))
  = [None; Some "14.399999999999999px"]%list.
Proof.
  intros el.
  destruct (zero_font_size_falls_back_to_the_default el (Samples.esc "a" "b")
              (S754_zero false) eq_refl eq_refl eq_refl eq_refl)
    as [runs [Hc Hd]].
  rewrite Hc. exact Hd.
Defined.

(** ** What [process_text_node] does to the element itself *)

Lemma sanitize_tail : forall e, tail (FixAffinity.sanitize e) = tail e.
Proof.
  intros e. unfold FixAffinity.sanitize.
  destruct (get "style" (attrib e)) as [s|]; [|reflexivity].
  destruct (truthy s && contains "white-space" s); [|reflexivity].
  destruct (negb _); reflexivity.
Qed.

Lemma process_tail :
  forall x, tail (fst (FixAffinity.process_text_node x)) = tail x.
Proof.
  intros x. destruct (FixAffinity.has_marker (text x)) eqn:M.
  - destruct (text x) as [t|] eqn:T; [|discriminate M].
    rewrite (process_text_node_direct x t T M). apply sanitize_tail.
  - rewrite (process_text_node_runs x M). apply sanitize_tail.
Qed.

(** X6.  [process_text_node] always leaves [xml:space] set to
    [preserve]; it keeps the tag and the tail of the element and every
    attribute other than [xml:space] and [style]; and it keeps the style
    too unless the text [white-space] occurs in it. *)
Theorem process_text_node_keeps_the_other_attributes :
  forall el : Element,
    let el' := fst (FixAffinity.process_text_node el) in
    get FixAffinity.xml_space (attrib el') = Some "preserve"
    /\ tag el' = tag el
    /\ tail el' = tail el
    /\ (forall key,
          key <> FixAffinity.xml_space -> key <> "style" ->
          get key (attrib el') = get key (attrib el))
    /\ (forall s,
          get "style" (attrib el) = Some s ->
          contains "white-space" s = false ->
          get "style" (attrib el') = Some s)
    /\ (get "style" (attrib el) = None -> get "style" (attrib el') = None).
Proof.
  intros el el'; subst el'.
  rewrite process_attrib, process_tag, process_tail, sanitize_attrib.
  assert (X : String.eqb FixAffinity.xml_space "style" = false)
    by reflexivity.
  split; [|split; [reflexivity|split; [reflexivity|split; [|split]]]].
  - destruct (get "style" (attrib el)) as [s|]; [|apply get_set_same].
    destruct (truthy s && contains "white-space" s); [|apply get_set_same].
    destruct (negb _); [|apply get_set_same].
    rewrite get_set_other by reflexivity. apply get_set_same.
  - intros key K1 K2.
    assert (E1 : String.eqb FixAffinity.xml_space key = false)
      by (apply String.eqb_neq; congruence).
    assert (E2 : String.eqb "style" key = false)
      by (apply String.eqb_neq; congruence).
    destruct (get "style" (attrib el)) as [s|];
      [|apply get_set_other; exact E1].
    destruct (truthy s && contains "white-space" s);
      [|apply get_set_other; exact E1].
    destruct (negb _); [|apply get_set_other; exact E1].
    rewrite get_set_other by exact E2. apply get_set_other; exact E1.
  - intros s Hs Hc. rewrite Hs, Hc, andb_false_r.
    rewrite get_set_other by exact X. exact Hs.
  - intros Hs. rewrite Hs. rewrite get_set_other by exact X. exact Hs.
Qed.

Lemma process_text_node_keeps_the_other_attributes_witness :
  let el :=
    mkElement "text" [("style", "fill:red"); ("x", "4 8")]
      (Some (Samples.esc "a" "b")) (Some " ") [] in
  let el' := fst (FixAffinity.process_text_node el) in
  get "x" (attrib el') = Some "4 8"
  /\ get "style" (attrib el') = Some "fill:red".
Proof.
  intros el el'.
  destruct (process_text_node_keeps_the_other_attributes el)
    as (_ & _ & _ & Hk & Hs & _).
  split.
  - apply (Hk "x"); discriminate.
  - apply (Hs "fill:red"); reflexivity.
Defined.

(** ** The flag that [process_text_node] returns *)

Lemma rebuild_loop_flag :
  forall bx fs snapshot i cur changed,
    snd (FixAffinity.rebuild_loop bx fs i snapshot (cur, changed))
    = changed || existsb FixAffinity.needs_split snapshot.
Proof.
  intros bx fs snapshot; induction snapshot as [|c r IH];
    intros i cur changed.
  - cbn. rewrite orb_false_r. reflexivity.
  - cbn [FixAffinity.rebuild_loop FixAffinity.rebuild_child existsb].
    destruct (FixAffinity.needs_split c).
    + rewrite IH. cbn [orb]. rewrite orb_true_r. reflexivity.
    + rewrite IH. reflexivity.
Qed.

Lemma existsb_no_split :
  forall l, existsb FixAffinity.needs_split l = negb (Normal.no_split l).
Proof.
  induction l as [|c r IH]; [reflexivity|].
  cbn [existsb Normal.no_split forallb]. fold (Normal.no_split r).
  rewrite IH, negb_andb, negb_involutive. reflexivity.
Qed.

Lemma process_text_node_flag :
  forall el,
    snd (FixAffinity.process_text_node el)
    = FixAffinity.has_marker (text el)
      || existsb FixAffinity.needs_split (children el).
Proof.
  intros el. unfold FixAffinity.process_text_node.
  rewrite sanitize_text, sanitize_children.
  destruct (FixAffinity.has_marker (text el)) eqn:M.
  - destruct (text el); reflexivity.
  - pose proof (rebuild_loop_flag (FixAffinity.get_text_x el)
                  (PyFloat.or_else
                     (FixAffinity.parse_font_size (get "style" (attrib el)))
                     (FixAffinity.parse_font_size (get "style" (attrib el))))
                  (children el) 0
                  (FixAffinity.number_from 0 (children el)) false) as R.
    destruct (FixAffinity.rebuild_loop _ _ 0 (children el) _) as [cur ch].
    exact R.
Qed.

(** X7.  [process_text_node] returns [True] exactly when the marker is in
    the leading text or in the text of a child whose tag ends in
    [tspan].  When it returns [False] the text and the children are the
    ones it was given; the attributes may have changed all the same,
    since setting [xml:space] and cleaning the style do not count. *)
Theorem process_text_node_reports_the_marker :
  forall el : Element,
    snd (FixAffinity.process_text_node el)
    = FixAffinity.has_marker (text el)
      || existsb FixAffinity.needs_split (children el)
    /\ (snd (FixAffinity.process_text_node el) = false ->
        text (fst (FixAffinity.process_text_node el)) = text el
        /\ children (fst (FixAffinity.process_text_node el)) = children el).
Proof.
  intros el. pose proof (process_text_node_flag el) as F.
  split; [exact F|].
  rewrite F. intros H. apply orb_false_elim in H. destruct H as [M N].
  rewrite existsb_no_split in N. apply negb_false_iff in N.
  rewrite (process_text_node_runs el M), (replacements_settled _ _ _ N).
  cbn [text children set_children]. split; [apply sanitize_text|reflexivity].
Qed.

Lemma process_text_node_reports_the_marker_witness :
  let el :=
    mkElement "text" [("style", "white-space:pre;fill:red")] (Some "plain")
      None [Samples.tspan "run"] in
  snd (FixAffinity.process_text_node el) = false
  /\ children (fst (FixAffinity.process_text_node el)) = [Samples.tspan "run"]
  /\ attrib (fst (FixAffinity.process_text_node el))
     = [("style", "fill:red"); (FixAffinity.xml_space, "preserve")].
Proof.
  intros el.
  destruct (process_text_node_reports_the_marker el) as [F H].
  split; [exact F|].
  split; [exact (proj2 (H F))|reflexivity].
Defined.

(** ** A line run that is split where it stands *)

Local Open Scope list_scope.

Lemma or_else_same : forall a, PyFloat.or_else a a = a.
Proof.
  intros [x|]; [|reflexivity].
  unfold PyFloat.or_else. destruct (PyFloat.truthy x); reflexivity.
Qed.

Lemma rebuilt_tspans_text :
  forall lines c bx fs j,
    map text (Normal.rebuilt_tspans c bx fs j lines) = map Some lines.
Proof.
  induction lines as [|l r IH]; intros c bx fs j; [reflexivity|].
  cbn [Normal.rebuilt_tspans map]. rewrite IH. reflexivity.
Qed.

Lemma rebuilt_tspans_dy_later :
  forall lines c bx fs j,
    map (fun r => get "dy" (attrib r))
      (Normal.rebuilt_tspans c bx fs (S j) lines)
    = repeat
        (Some (FixAffinity.px
                 (PyFloat.mul
                    (PyFloat.or_default
                       (PyFloat.or_else
                          (FixAffinity.parse_font_size
                             (get "style" (attrib c))) fs)
                       FixAffinity.twelve)
                    FixAffinity.one_point_two)))
        (List.length lines).
Proof.
  induction lines as [|l r IH]; intros c bx fs j; [reflexivity|].
  cbn [Normal.rebuilt_tspans map List.length repeat]. rewrite IH.
  f_equal. unfold FixAffinity.rebuilt_tspan, FixAffinity.new_tspan.
  cbn [attrib]. rewrite get_dy_opt_x. reflexivity.
Qed.

Lemma rebuilt_tspan_shape :
  forall c bx fs j line,
    let r := FixAffinity.rebuilt_tspan c bx fs j line in
    tag r = "tspan"%string /\ tail r = None /\ children r = []
    /\ get "x" (attrib r) = FixAffinity.or_str (get "x" (attrib c)) bx
    /\ forall key,
         key <> "x"%string -> key <> "dy"%string -> get key (attrib r) = None.
Proof.
  intros c bx fs j line r; subst r.
  unfold FixAffinity.rebuilt_tspan, FixAffinity.new_tspan.
  cbn [tag tail children attrib].
  split; [reflexivity|split; [reflexivity|split; [reflexivity|]]].
  assert (G : forall key rest,
            key <> "dy"%string ->
            (rest = [] \/ exists v, rest = [("dy"%string, v)]) ->
            get key rest = None).
  { intros key rest K [->|[v ->]]; [reflexivity|].
    cbn [get]. apply String.eqb_neq in K. rewrite String.eqb_sym, K.
    reflexivity. }
  assert (R : forall (j : nat),
            (match j with
             | O => if opt_truthy (get "dy" (attrib c))
                    then FixAffinity.opt_attr "dy" (get "dy" (attrib c))
                    else []
             | S _ =>
                 [("dy"%string,
                   FixAffinity.px
                     (PyFloat.mul
                        (PyFloat.or_default
                           (PyFloat.or_else
                              (FixAffinity.parse_font_size
                                 (get "style" (attrib c))) fs)
                           FixAffinity.twelve)
                        FixAffinity.one_point_two))]
             end) = []
            \/ exists v,
                (match j with
                 | O => if opt_truthy (get "dy" (attrib c))
                        then FixAffinity.opt_attr "dy" (get "dy" (attrib c))
                        else []
                 | S _ =>
                     [("dy"%string,
                       FixAffinity.px
                         (PyFloat.mul
                            (PyFloat.or_default
                               (PyFloat.or_else
                                  (FixAffinity.parse_font_size
                                     (get "style" (attrib c))) fs)
                               FixAffinity.twelve)
                            FixAffinity.one_point_two))]
                 end) = [("dy"%string, v)]).
  { intros [|k].
    - destruct (opt_truthy (get "dy" (attrib c))); [|left; reflexivity].
      destruct (get "dy" (attrib c)) as [v|];
        [right; exists v; reflexivity|left; reflexivity].
    - right; eexists; reflexivity. }
  split.
  - destruct (FixAffinity.or_str (get "x" (attrib c)) bx) as [v|].
    + reflexivity.
    + cbn [FixAffinity.opt_attr app]. apply G; [discriminate|apply R].
  - intros key K1 K2.
    destruct (FixAffinity.or_str (get "x" (attrib c)) bx) as [v|].
    + cbn [FixAffinity.opt_attr app get].
      apply String.eqb_neq in K1. rewrite String.eqb_sym, K1.
      apply G; [exact K2|apply R].
    + cbn [FixAffinity.opt_attr app]. apply G; [exact K2|apply R].
Qed.

Lemma rebuilt_tspans_shape :
  forall lines c bx fs j,
    Forall
      (fun r =>
         tag r = "tspan"%string /\ tail r = None /\ children r = []
         /\ get "x" (attrib r) = FixAffinity.or_str (get "x" (attrib c)) bx
         /\ forall key,
              key <> "x"%string -> key <> "dy"%string ->
              get key (attrib r) = None)
      (Normal.rebuilt_tspans c bx fs j lines).
Proof.
  induction lines as [|l r IH]; intros c bx fs j; constructor.
  - apply rebuilt_tspan_shape.
  - apply IH.
Qed.

(** X8.  The second loop of [process_text_node] replaces a line run that
    holds the marker where it stands: the children before and after it
    keep their places, and between them come one new [tspan] for each
    piece of its text.  The first new run takes over the [dy] of the old
    one, if it has one that is not empty; the later ones are set one
    line height apart, 1.2 times the font size declared by the old run,
    or else by the text element, or else 12.0.  Every new run has the
    [x] of the old one, or else the first [x] of the text element, and
    nothing else of the old run: no other attribute, no tail, no
    child. *)
Theorem line_run_is_replaced_in_place :
  forall (el : Element) (pre post : list Element) (c : Element) (t : string),
    FixAffinity.has_marker (text el) = false ->
    children el = pre ++ c :: post ->
    Normal.no_split pre = true ->
    Normal.no_split post = true ->
    FixAffinity.is_line_run c = true ->
    text c = Some t ->
    FixAffinity.has_marker (Some t) = true ->
    exists runs,
      children (fst (FixAffinity.process_text_node el)) = pre ++ runs ++ post
      /\ map text runs = map Some (split_marker t)
      /\ map (fun r => get "dy" (attrib r)) runs
         = (if opt_truthy (get "dy" (attrib c))
            then get "dy" (attrib c) else None)
           :: repeat
                (Some (FixAffinity.px
                         (PyFloat.mul
                            (PyFloat.or_default
                               (PyFloat.or_else
                                  (FixAffinity.parse_font_size
                                     (get "style" (attrib c)))
                                  (FixAffinity.parse_font_size
                                     (get "style" (attrib el))))
                               FixAffinity.twelve)
                            FixAffinity.one_point_two)))
                (count_marker t)
      /\ Forall
           (fun r =>
              tag r = "tspan"%string /\ tail r = None /\ children r = []
              /\ get "x" (attrib r)
                 = FixAffinity.or_str (get "x" (attrib c))
                     (FixAffinity.get_text_x el)
              /\ forall key,
                   key <> "x"%string -> key <> "dy"%string ->
                   get key (attrib r) = None)
           runs.
Proof.
  intros el pre post c t Hm Hc Hpre Hpost Hrun Ht Hmt.
  rewrite (process_text_node_runs el Hm). cbn [children set_children].
  rewrite Hc, flat_map_app. cbn [flat_map].
  rewrite (replacements_settled _ _ _ Hpre), (replacements_settled _ _ _ Hpost).
  rewrite or_else_same.
  unfold Normal.replacement at 1. unfold FixAffinity.needs_split.
  rewrite Hrun, Ht, Hmt. cbn [andb].
  eexists; split; [reflexivity|].
  split; [apply rebuilt_tspans_text|].
  split; [|apply rebuilt_tspans_shape].
  pose proof (split_marker_length t) as L.
  destruct (split_marker t) as [|l r]; [discriminate L|].
  injection L as L.
  cbn [Normal.rebuilt_tspans map]. rewrite rebuilt_tspans_dy_later, L.
  f_equal. unfold FixAffinity.rebuilt_tspan, FixAffinity.new_tspan.
  cbn [attrib]. rewrite get_dy_opt_x.
  destruct (get "dy" (attrib c)) as [v|]; [|reflexivity].
  cbn [opt_truthy]. destruct (truthy v); [|reflexivity].
  cbn [FixAffinity.opt_attr get]. reflexivity.
Qed.

Lemma line_run_is_replaced_in_place_witness :
  let old :=
    mkElement "tspan" [("dy", "3"); ("style", "font-size:10px")]
      (Some (Samples.esc "C" "D")) (Some " after") [] in
  let el :=
    mkElement "text" [("x", "4 8")] None None
      [Samples.tspan "first"; old; Samples.tspan "last"] in
  exists runs,
    children (fst (FixAffinity.process_text_node el))
    = [Samples.tspan "first"] ++ runs ++ [Samples.tspan "last"]
    /\ map text runs = [Some "C"; Some "D"]%string
    /\ map (fun r => get "dy" (attrib r)) runs
       = [Some "3"; Some "12.0px"]%string.
Proof.
  intros old el.
  destruct (line_run_is_replaced_in_place el [Samples.tspan "first"]
              [Samples.tspan "last"] old (Samples.esc "C" "D")
              eq_refl eq_refl eq_refl eq_refl eq_refl eq_refl eq_refl)
    as [runs (Hc & Ht & Hd & _)].
  exists runs. split; [exact Hc|]. split; [exact Ht|].
  rewrite Hd. vm_compute. reflexivity.
Defined.

(** ** The children that [process_text_node] leaves alone *)

Local Open Scope list_scope.

Lemma build_tspans_no_others :
  forall lines i bx lh,
    filter (fun c => negb (FixAffinity.is_line_run c))
      (FixAffinity.build_tspans i lines bx lh) = [].
Proof.
  induction lines as [|l r IH]; intros i bx lh; [reflexivity|].
  cbn [FixAffinity.build_tspans filter]. rewrite IH. reflexivity.
Qed.

Lemma rebuilt_tspans_no_others :
  forall lines c bx fs j,
    filter (fun c => negb (FixAffinity.is_line_run c))
      (Normal.rebuilt_tspans c bx fs j lines) = [].
Proof.
  induction lines as [|l r IH]; intros c bx fs j; [reflexivity|].
  cbn [Normal.rebuilt_tspans filter]. rewrite IH. reflexivity.
Qed.

Lemma replacements_others :
  forall bx fs l,
    filter (fun c => negb (FixAffinity.is_line_run c))
      (flat_map (Normal.replacement bx fs) l)
    = filter (fun c => negb (FixAffinity.is_line_run c)) l.
Proof.
  intros bx fs l; induction l as [|c r IH]; [reflexivity|].
  cbn [flat_map]. rewrite filter_app, IH. unfold Normal.replacement.
  destruct (FixAffinity.needs_split c) eqn:N.
  - rewrite rebuilt_tspans_no_others. cbn [filter app].
    unfold FixAffinity.needs_split in N. apply andb_prop in N.
    destruct N as [N _]. rewrite N. reflexivity.
  - cbn [filter]. destruct (negb (FixAffinity.is_line_run c)); reflexivity.
Qed.

(** X9.  [process_text_node] only adds or replaces line runs: the
    children whose tag does not end in [tspan] are the same after the
    call, in the same order, and every child that is not a line run
    holding the marker is still a child after the call. *)
Theorem process_text_node_keeps_the_other_children :
  forall el : Element,
    filter (fun c => negb (FixAffinity.is_line_run c))
      (children (fst (FixAffinity.process_text_node el)))
    = filter (fun c => negb (FixAffinity.is_line_run c)) (children el)
    /\ forall c,
         In c (children el) ->
         FixAffinity.needs_split c = false ->
         In c (children (fst (FixAffinity.process_text_node el))).
Proof.
  intros el. destruct (FixAffinity.has_marker (text el)) eqn:M.
  - destruct (text el) as [t|] eqn:T; [|discriminate M].
    rewrite (process_text_node_direct el t T M).
    rewrite split_into_tspans_children, sanitize_children. split.
    + rewrite filter_app, build_tspans_no_others. apply app_nil_r.
    + intros c Hc _. apply in_or_app. left. exact Hc.
  - rewrite (process_text_node_runs el M). cbn [children set_children].
    split; [apply replacements_others|].
    intros c Hc N. apply in_flat_map. exists c. split; [exact Hc|].
    unfold Normal.replacement. rewrite N. left. reflexivity.
Qed.

Lemma process_text_node_keeps_the_other_children_witness :
  let link := mkElement "a" [] (Some "link") (Some " ") [] in
  let el :=
    mkElement "text" [] None None [Samples.tspan (Samples.esc "C" "D"); link] in
  In link (children (fst (FixAffinity.process_text_node el))).
Proof.
  intros link el.
  destruct (process_text_node_keeps_the_other_children el) as [_ H].
  apply H; [right; left; reflexivity|reflexivity].
Defined.

(** X10.  A document without any [<text>] element is written back as it
    was read. *)
Theorem main_leaves_a_document_without_text_alone :
  forall doc : Element,
    Normal.everywhere (fun e => negb (FixAffinity.is_any_text e)) doc = true ->
    FixAffinity.main doc = doc.
Proof.
  intros doc H. apply main_fixed.
  - eapply everywhere_weaken; [|exact H].
    intros e He. cbv beta in *.
    destruct (FixAffinity.is_svg_text e) eqn:S; [|reflexivity].
    rewrite (svg_text_any_text e S) in He. discriminate He.
  - rewrite everywhere_unfold in H. apply andb_prop in H.
    destruct H as [_ H]. apply forallb_forall. intros c Hc.
    rewrite forallb_forall in H.
    eapply everywhere_weaken; [|exact (H c Hc)].
    intros e He. cbv beta in *. rewrite He. reflexivity.
Qed.

Lemma main_leaves_a_document_without_text_alone_witness :
  FixAffinity.main Samples.empty_group = Samples.empty_group.
Proof.
  exact (main_leaves_a_document_without_text_alone Samples.empty_group
           eq_refl).
Defined.

(** ** The field locator *)

Local Open Scope list_scope.

(** X12.  The search below a group ends, and it fails exactly when no
    element below the group is a [<text>] or a [<tspan>]; what it gives
    is such an element, below the group and never the group itself. *)
Theorem inner_search_fails_only_without_text :
  forall elem : Element,
    (RenameTest._find_text_or_tspan_descendant elem = None
     <-> forall q, In q (descendant_paths elem) ->
                   RenameTest.text_bearing elem q = false)
    /\ forall p,
         RenameTest._find_text_or_tspan_descendant elem = Some p ->
         p <> [] /\ In p (descendant_paths elem)
         /\ RenameTest.text_bearing elem p = true.
Proof.
  intros elem. rewrite find_descendant_first. split; [split|].
  - intros F q Hq. exact (find_none _ _ F q Hq).
  - intros H.
    destruct (find (RenameTest.text_bearing elem) (descendant_paths elem))
      as [p|] eqn:F; [|reflexivity].
    apply find_some in F. destruct F as [Hin Hp].
    rewrite (H p Hin) in Hp. discriminate Hp.
  - intros p F. apply find_some in F. destruct F as [Hin Hp].
    split; [exact (descendant_paths_proper elem p Hin)|].
    split; assumption.
Qed.

Lemma inner_search_fails_only_without_text_witness :
  RenameTest._find_text_or_tspan_descendant
    (mkElement "text" [] (Some "own") None
       [mkElement "rect" [] None None []]) = None.
Proof.
  apply (proj1 (inner_search_fails_only_without_text _)).
  intros q [<-|[]]. reflexivity.
Defined.

(** ** What a run of [main] leaves alone *)

Lemma skeleton_update_fields :
  forall inv root,
    Frame.skeleton root (fst (RenameTest.update_fields inv root)).
Proof.
  intros inv root. unfold RenameTest.update_fields.
  destruct (RenameTest.title inv) as [t|].
  - pose proof (skeleton_set_text_by_id root "TITLE" t) as S1.
    destruct (RenameTest.set_text_by_id root "TITLE" t) as [r1 b1].
    cbn [fst] in S1.
    destruct (RenameTest.description inv) as [d|]; [|exact S1].
    pose proof (skeleton_set_text_by_id r1 "DESCRIPTION" d) as S2.
    destruct (RenameTest.set_text_by_id r1 "DESCRIPTION" d) as [r2 b2].
    cbn [fst] in *. exact (skeleton_trans _ _ _ S1 S2).
  - destruct (RenameTest.description inv) as [d|]; [|apply skeleton_refl].
    pose proof (skeleton_set_text_by_id root "DESCRIPTION" d) as S2.
    destruct (RenameTest.set_text_by_id root "DESCRIPTION" d) as [r2 b2].
    exact S2.
Qed.

(** X13.  The tree that [main] writes has the elements of the tree it
    has parsed: at every path the same tag, the same attributes and the
    same number of children, so that only texts and tails can differ;
    and every identifier is bound to the same element as before. *)
Theorem main_writes_the_elements_it_has_read :
  forall (inv : RenameTest.Invocation) (t : Element),
    RenameTest.written (RenameTest.main inv) = Some t ->
    exists root,
      RenameTest.parsed inv = Some root
      /\ Frame.skeleton root t
      /\ forall elem_id,
           RenameTest._find_by_id t elem_id
           = RenameTest._find_by_id root elem_id.
Proof.
  intros inv t H. unfold RenameTest.main in H.
  destruct (negb (RenameTest.svg_exists inv)); [discriminate H|].
  destruct (negb _); [discriminate H|].
  destruct (RenameTest.parsed inv) as [root|]; [|discriminate H].
  pose proof (skeleton_update_fields inv root) as S.
  destruct (RenameTest.update_fields inv root) as [root' updated_any].
  destruct (RenameTest.write_ok inv); [|discriminate H].
  cbn [RenameTest.written fst] in *. injection H as <-.
  exists root. split; [reflexivity|]. split; [exact S|].
  intros elem_id. apply skeleton_find_by_id, S.
Qed.

Lemma main_writes_the_elements_it_has_read_witness :
  exists t root,
    RenameTest.written
      (RenameTest.main (Samples.both_fields Samples.title_only)) = Some t
    /\ RenameTest.parsed (Samples.both_fields Samples.title_only) = Some root
    /\ Frame.skeleton root t.
Proof.
  eexists.
  destruct (main_writes_the_elements_it_has_read
              (Samples.both_fields Samples.title_only) _ eq_refl)
    as [root [Hp [Hs _]]].
  exists root. split; [reflexivity|]. split; assumption.
Defined.

(** ** Where a write can reach *)

Lemma update_path_apart :
  forall f t r q,
    ~ Frame.above t q -> ~ Frame.above q t ->
    get_path (update_path f t r) q = get_path r q.
Proof.
  intros f t; induction t as [|i t IH]; intros r q N1 N2.
  - exfalso. apply N1. exists q. reflexivity.
  - destruct q as [|j q].
    + exfalso. apply N2. exists (i :: t). reflexivity.
    + cbn [get_path update_path children set_children].
      destruct (Nat.eq_dec i j) as [<-|D].
      * destruct (nth_error (children r) i) as [c|] eqn:E.
        -- rewrite (update_nth_same _ _ _ _ _ E). apply IH.
           ++ intros (s & ->). apply N1. exists s. reflexivity.
           ++ intros (s & ->). apply N2. exists s. reflexivity.
        -- assert (L : nth_error
                         (update_nth (update_path f t) i (children r)) i
                       = None).
           { apply nth_error_None. rewrite update_nth_length.
             apply nth_error_None. exact E. }
           rewrite L. reflexivity.
      * rewrite (update_nth_other _ _ _ _ _ D). reflexivity.
Qed.

(** X14.  A write by identifier stays below the element it has located:
    an element that is not below it keeps its tag, its attributes, its
    text and its tail, and a subtree that neither holds the located
    element nor lies below it is the same as before. *)
Theorem write_stays_below_the_located_element :
  forall (root : Element) (field_id value : string) (p : path),
    RenameTest._find_by_id root field_id = Some p ->
    let root' := fst (RenameTest.set_text_by_id root field_id value) in
    (forall q n,
       get_path root q = Some n ->
       ~ Frame.above p q ->
       exists n',
         get_path root' q = Some n'
         /\ tag n' = tag n /\ attrib n' = attrib n
         /\ text n' = text n /\ tail n' = tail n)
    /\ (forall q,
          ~ Frame.above p q -> ~ Frame.above q p ->
          get_path root' q = get_path root q).
Proof.
  intros root field_id value p F root'; subst root'.
  unfold RenameTest.set_text_by_id. rewrite F. cbn [fst]. split.
  - intros q n Hq N. apply update_path_frame; assumption.
  - intros q N1 N2. apply update_path_apart; assumption.
Qed.

Lemma write_stays_below_the_located_element_witness :
  let doc :=
    mkElement "svg" [] None None
      [mkElement "text" [("id", "TITLE")] (Some "Old") None [];
       mkElement "text" [("id", "OTHER")] (Some "Other") None []] in
  get_path (fst (RenameTest.set_text_by_id doc "TITLE" "New")) [1]
  = Some (mkElement "text" [("id", "OTHER")] (Some "Other") None []).
Proof.
  intros doc.
  destruct (write_stays_below_the_located_element doc "TITLE" "New" [0]
              eq_refl) as [_ H].
  apply (H [1]).
  - intros (s & E). discriminate E.
  - intros (s & E). discriminate E.
Defined.

(** X15.  A write onto an element that is neither a group nor a
    [<tspan>] keeps its tag, its attributes and its tail, and leaves the
    children that are not [<tspan>]s as they are, in their order. *)
Theorem write_keeps_the_children_that_are_not_runs :
  forall (e : Element) (value : string),
    RenameTest.localname (tag e) <> "g"%string ->
    RenameTest.localname (tag e) <> "tspan"%string ->
    let e' := RenameTest._set_text e value in
    tag e' = tag e /\ attrib e' = attrib e /\ tail e' = tail e
    /\ filter (fun c => negb (RenameTest.is_tspan c)) (children e')
       = filter (fun c => negb (RenameTest.is_tspan c)) (children e).
Proof.
  intros e value Hg Ht e'; subst e'.
  unfold RenameTest._set_text, RenameTest.set_text_node.
  apply String.eqb_neq in Hg. apply String.eqb_neq in Ht.
  rewrite Hg, Ht.
  destruct (String.eqb (RenameTest.localname (tag e)) "text");
    [|repeat split].
  destruct (RenameTest._children_tspans e); [repeat split|].
  cbn [tag attrib tail children set_text set_children].
  split; [reflexivity|split; [reflexivity|split; [reflexivity|]]].
  apply distribute_others.
Qed.

Lemma write_keeps_the_children_that_are_not_runs_witness :
  let link := mkElement "a" [] (Some "link") (Some " ") [] in
  let e :=
    mkElement "text" [] (Some "Old") (Some " tail")
      [Samples.tspan "run"; link] in
  tail (RenameTest._set_text e "New") = Some " tail"%string
  /\ filter (fun c => negb (RenameTest.is_tspan c))
       (children (RenameTest._set_text e "New")) = [link].
Proof.
  intros link e.
  assert (G : RenameTest.localname (tag e) <> "g"%string) by discriminate.
  assert (T : RenameTest.localname (tag e) <> "tspan"%string) by discriminate.
  destruct (write_keeps_the_children_that_are_not_runs e "New" G T)
    as (_ & _ & Htail & Hc).
  split; [exact Htail|exact Hc].
Defined.

(** ** A write through a group *)

Local Open Scope list_scope.

Lemma filter_tspan_tags :
  forall l l',
    map tag l = map tag l' ->
    map tag (filter RenameTest.is_tspan l)
    = map tag (filter RenameTest.is_tspan l').
Proof.
  induction l as [|a r IH]; intros [|b r'] H; try discriminate H;
    [reflexivity|].
  cbn [map] in H. injection H as Hab Hr.
  assert (E : RenameTest.is_tspan a = RenameTest.is_tspan b)
    by (unfold RenameTest.is_tspan; rewrite Hab; reflexivity).
  cbn [filter]. rewrite E.
  destruct (RenameTest.is_tspan b); cbn [map]; rewrite ?Hab, (IH r' Hr);
    reflexivity.
Qed.

Lemma clearing_children_tags :
  forall a b p n m,
    Frame.clearing a b ->
    get_path a p = Some n ->
    get_path b p = Some m ->
    map tag (children m) = map tag (children n).
Proof.
  intros a b p n m C Hn Hm.
  destruct (C p n Hn) as (m' & Hm' & _ & _ & L & _).
  rewrite Hm in Hm'. injection Hm' as <-.
  apply nth_error_ext. intros i. rewrite !nth_error_map.
  rewrite <- (get_path_child a p n i Hn), <- (get_path_child b p m i Hm).
  destruct (get_path a (p ++ [i])) as [c|] eqn:E.
  - destruct (C _ c E) as (c' & -> & T & _). cbn. rewrite T. reflexivity.
  - rewrite (get_path_child a p n i Hn) in E.
    rewrite (get_path_child b p m i Hm).
    apply nth_error_None in E. rewrite <- L in E.
    apply nth_error_None in E. rewrite E. reflexivity.
Qed.

(** X16.  A write through a group puts the value on the element that the
    inner search has found: when that element is a [<tspan>], or a
    [<text>] without [<tspan>] children, the value becomes its text;
    when it is a [<text>] with [<tspan>] children, its text becomes
    [None] and its [k]-th [<tspan>] child receives line [k] of the
    value, or the empty string. *)
Theorem group_write_lands_on_the_first_text :
  forall (g : Element) (value : string) (target : path),
    RenameTest.localname (tag g) = "g"%string ->
    RenameTest._find_text_or_tspan_descendant g = Some target ->
    exists n n',
      get_path g target = Some n
      /\ get_path (RenameTest._set_text g value) target = Some n'
      /\ tag n' = tag n
      /\ (RenameTest.is_tspan n = true \/ RenameTest._children_tspans n = [] ->
          text n' = Some value)
      /\ (RenameTest.is_tspan n = false ->
          RenameTest._children_tspans n <> [] ->
          text n' = None
          /\ forall k c,
               nth_error (RenameTest._children_tspans n) k = Some c ->
               exists c',
                 nth_error (RenameTest._children_tspans n') k = Some c'
                 /\ text c'
                    = Some (nth k (split_char line_feed value) ""%string)).
Proof.
  intros g value target Hg Hf.
  rewrite (set_text_on_group g value target Hg Hf).
  pose proof Hf as Hf'. rewrite find_descendant_first in Hf'.
  apply find_some in Hf'. destruct Hf' as [Hin Hb].
  unfold RenameTest.text_bearing in Hb.
  destruct (get_path g target) as [n|] eqn:Hn; [|discriminate Hb].
  destruct (clear_all_text_descendants_blanks g (Some target)) as [C _].
  destruct (C target n Hn) as (m & Hm & Tm & _).
  pose proof (clearing_children_tags _ _ _ _ _ C Hn Hm) as Tags.
  pose proof (filter_tspan_tags _ _ Tags) as Runs.
  exists n, (RenameTest.set_text_node m value).
  split; [reflexivity|].
  split;
    [exact (get_path_update_same
              (fun e => RenameTest.set_text_node e value) target _ m Hm)|].
  assert (Sk : tag (RenameTest.set_text_node m value) = tag m).
  { destruct (skeleton_set_text_node m value [] m eq_refl)
      as (x & Hx & Tx & _).
    cbn in Hx. injection Hx as <-. exact Tx. }
  split; [congruence|].
  unfold RenameTest.is_text_or_tspan in Hb.
  unfold RenameTest.set_text_node, RenameTest._children_tspans.
  change (RenameTest.is_tspan n)
    with (String.eqb (RenameTest.localname (tag n)) "tspan").
  rewrite Tm.
  destruct (String.eqb (RenameTest.localname (tag n)) "tspan") eqn:Etspan.
  - split; [reflexivity|]. intros D; discriminate D.
  - rewrite orb_false_r in Hb. rewrite Hb. split.
    + intros [D|E]; [discriminate D|].
      rewrite E in Runs.
      destruct (filter RenameTest.is_tspan (children m));
        [reflexivity|discriminate Runs].
    + intros _ Ne.
      destruct (filter RenameTest.is_tspan (children m)) as [|c0 r0] eqn:Fm.
      * destruct (filter RenameTest.is_tspan (children n));
          [contradiction|discriminate Runs].
      * cbn [text set_text children set_children].
        split; [reflexivity|]. intros k c Hk.
        assert (Hk' : exists cm,
                   nth_error (filter RenameTest.is_tspan (children m)) k
                   = Some cm).
        { destruct (nth_error (filter RenameTest.is_tspan (children m)) k)
            as [cm|] eqn:E; [exists cm; reflexivity|].
          exfalso. apply nth_error_None in E.
          assert (K : k < List.length
                            (filter RenameTest.is_tspan (children n))).
          { apply nth_error_Some. rewrite Hk. discriminate. }
          apply (f_equal (@List.length string)) in Runs.
          rewrite !length_map in Runs. rewrite Fm in E.
          cbn [List.length] in *. lia. }
        destruct Hk' as [cm Hcm].
        rewrite (distribute_nth _ _ 0 k cm Hcm).
        eexists; split; [reflexivity|reflexivity].
Qed.

Lemma group_write_lands_on_the_first_text_witness :
  exists n',
    get_path (RenameTest._set_text Samples.nested_group "New") [0; 0]
    = Some n'
    /\ text n' = Some "New"%string.
Proof.
  destruct (group_write_lands_on_the_first_text Samples.nested_group "New"
              [0; 0] eq_refl eq_refl) as (n & n' & Hn & Hn' & _ & Ht & _).
  exists n'. split; [exact Hn'|].
  apply Ht. right. cbn in Hn. injection Hn as <-. reflexivity.
Defined.

(** ** The ways a run of [main] ends *)

(** A run of [main] whose command line has been read ends with status
    0 or 1. *)
Lemma main_after_the_command_line :
  forall inv : RenameTest.Invocation,
    let run := RenameTest.main inv in
    let reaches_the_write :=
      RenameTest.svg_exists inv = true
      /\ opt_truthy (RenameTest.title inv)
         || opt_truthy (RenameTest.description inv) = true
      /\ RenameTest.parsed inv <> None in
    (RenameTest.exit_status run = 0 \/ RenameTest.exit_status run = 1)
    /\ (RenameTest.exit_status run = 0
        <-> reaches_the_write /\ RenameTest.write_ok inv = true)
    /\ (RenameTest.written run <> None <-> RenameTest.exit_status run = 0)
    /\ (RenameTest.backup_made run = true
        <-> reaches_the_write /\ RenameTest.out inv = None)
    /\ (RenameTest.exit_status run = 1 -> RenameTest.stderr run <> []).
Proof.
  intros inv run reaches_the_write; subst run reaches_the_write.
  unfold RenameTest.main.
  destruct (RenameTest.svg_exists inv);
    [|cbn; intuition (discriminate || congruence)].
  destruct (opt_truthy (RenameTest.title inv)
            || opt_truthy (RenameTest.description inv));
    [|cbn; intuition (discriminate || congruence)].
  destruct (RenameTest.parsed inv) as [root|];
    [|cbn; intuition (discriminate || congruence)].
  destruct (RenameTest.update_fields inv root) as [root' updated_any].
  cbn [negb].
  destruct (RenameTest.write_ok inv), (RenameTest.out inv);
    cbn [RenameTest.exit_status RenameTest.written RenameTest.backup_made
         RenameTest.stderr];
    repeat split; try (left; reflexivity); try (right; reflexivity);
    try discriminate; try congruence; try tauto;
    try (intros; destruct updated_any; discriminate);
    try (intros [_ H]; discriminate H).
Qed.

(** X17.  A run of [main] ends with status 0, 1 or 2.  It ends with 2
    exactly when [parse_args] cannot read the command line.  It ends
    with 0 exactly when the help is asked for, or when the command line
    is read, the input exists, a title or a description that is not
    empty is given, the input parses and the output can be written; a
    tree is written exactly in the second of these cases.  The backup,
    whose copy is taken to succeed, is made exactly when the run gets as
    far as the write and no output path is given, be the write a
    success or not.  A run that does not end with status 0 prints
    something on the error stream. *)
Theorem main_ends_with_status_zero_one_or_two :
  forall cl : RenameTest.CommandLine,
    let run := RenameTest.main_from_command_line cl in
    let reaches_the_write (inv : RenameTest.Invocation) :=
      RenameTest.svg_exists inv = true
      /\ opt_truthy (RenameTest.title inv)
         || opt_truthy (RenameTest.description inv) = true
      /\ RenameTest.parsed inv <> None in
    (RenameTest.exit_status run = 0 \/ RenameTest.exit_status run = 1
     \/ RenameTest.exit_status run = 2)
    /\ (RenameTest.exit_status run = 2 <-> cl = RenameTest.UsageError)
    /\ (RenameTest.exit_status run = 0
        <-> cl = RenameTest.AskForHelp
            \/ exists inv,
                 cl = RenameTest.Accepted inv
                 /\ reaches_the_write inv
                 /\ RenameTest.write_ok inv = true)
    /\ (RenameTest.written run <> None
        <-> exists inv,
              cl = RenameTest.Accepted inv
              /\ reaches_the_write inv
              /\ RenameTest.write_ok inv = true)
    /\ (RenameTest.backup_made run = true
        <-> exists inv,
              cl = RenameTest.Accepted inv
              /\ reaches_the_write inv
              /\ RenameTest.out inv = None)
    /\ (RenameTest.exit_status run <> 0 -> RenameTest.stderr run <> []).
Proof.
  intros cl run reaches_the_write; subst run reaches_the_write.
  destruct cl as [| |inv]; cbn [RenameTest.main_from_command_line].
  - cbn. split; [left; reflexivity|]. split; [split; discriminate|].
    split; [split; [left; reflexivity|reflexivity]|].
    split; [split; [intros H; contradiction
                   |intros (inv & E & _); discriminate E]|].
    split; [split; [discriminate|intros (inv & E & _); discriminate E]|].
    intros H. contradiction.
  - cbn. split; [right; right; reflexivity|]. split; [split; reflexivity|].
    split; [split; [discriminate
                   |intros [E|(inv & E & _)]; discriminate E]|].
    split; [split; [intros H; contradiction
                   |intros (inv & E & _); discriminate E]|].
    split; [split; [discriminate|intros (inv & E & _); discriminate E]|].
    discriminate.
  - destruct (main_after_the_command_line inv) as (S & Z & W & B & E).
    split; [destruct S as [S|S]; [left|right; left]; exact S|].
    split.
    { split; [|discriminate]. intros H.
      destruct S as [S|S]; rewrite S in H; discriminate H. }
    split.
    { split.
      - intros H. right. exists inv. split; [reflexivity|apply Z, H].
      - intros [H|(inv' & H & R)]; [discriminate H|].
        injection H as <-. apply Z, R. }
    split.
    { split.
      - intros H. exists inv. split; [reflexivity|]. apply Z, W, H.
      - intros (inv' & H & R). injection H as <-. apply W, Z, R. }
    split.
    { split.
      - intros H. exists inv. split; [reflexivity|apply B, H].
      - intros (inv' & H & R). injection H as <-. apply B, R. }
    intros H. apply E. destruct S as [S|S]; [contradiction|exact S].
Qed.

Lemma main_ends_with_status_zero_one_or_two_witness :
  let inv :=
    RenameTest.mkInvocation (Some ""%string) None None true
      (Some Samples.title_only) true in
  RenameTest.exit_status
    (RenameTest.main_from_command_line (RenameTest.Accepted inv)) = 1
  /\ RenameTest.stderr
       (RenameTest.main_from_command_line (RenameTest.Accepted inv)) <> []
  /\ RenameTest.exit_status
       (RenameTest.main_from_command_line RenameTest.UsageError) = 2.
Proof.
  intros inv.
  destruct (main_ends_with_status_zero_one_or_two (RenameTest.Accepted inv))
    as (_ & _ & _ & _ & _ & H).
  split; [reflexivity|]. split; [apply H; discriminate|].
  apply (proj1 (proj2 (main_ends_with_status_zero_one_or_two
                         RenameTest.UsageError))).
  reflexivity.
Defined.

(** ** Lines and runs *)

Local Open Scope list_scope.

Lemma distribute_texts :
  forall lines l i,
    map text (filter RenameTest.is_tspan (RenameTest.distribute lines i l))
    = map (fun k => Some (nth k lines ""%string))
        (seq i (List.length (filter RenameTest.is_tspan l))).
Proof.
  intros lines l; induction l as [|c r IH]; intros i; [reflexivity|].
  cbn [RenameTest.distribute filter].
  destruct (RenameTest.is_tspan c) eqn:E.
  - cbn [filter]. rewrite is_tspan_written, E.
    cbn [map List.length seq]. rewrite IH. reflexivity.
  - cbn [filter]. rewrite E. apply IH.
Qed.

Lemma nth_over_seq :
  forall (l : list string) N,
    map (fun k => Some (nth k l ""%string)) (seq 0 N)
    = map Some (firstn N l)
      ++ repeat (Some ""%string) (N - List.length l).
Proof.
  induction l as [|a r IH]; intros N.
  - rewrite firstn_nil, Nat.sub_0_r. cbn [map app List.length].
    generalize 0. induction N as [|N IHN]; intros i; [reflexivity|].
    cbn [seq map repeat]. rewrite IHN. destruct i; reflexivity.
  - destruct N as [|N]; [reflexivity|].
    cbn [seq map firstn List.length Nat.sub app nth].
    rewrite <- seq_shift, map_map. cbn [nth]. rewrite IH. reflexivity.
Qed.

(** X18.  When a value is written onto a [<text>] with [N] [<tspan>]
    children, the texts of the runs are the lines of the value: with at
    most [N] lines, every line is there, in order, followed by empty
    runs, and joining the lines with line feeds gives the value back;
    with more than [N] lines, only the first [N] lines are there and the
    others are dropped. *)
Theorem lines_are_kept_up_to_the_number_of_runs :
  forall (e : Element) (value : string),
    RenameTest.localname (tag e) = "text"%string ->
    RenameTest._children_tspans e <> [] ->
    let lines := split_char line_feed value in
    let N := List.length (RenameTest._children_tspans e) in
    let texts :=
      map text (RenameTest._children_tspans (RenameTest._set_text e value)) in
    (List.length lines <= N ->
     texts = map Some lines
             ++ repeat (Some ""%string) (N - List.length lines)
     /\ join (String line_feed EmptyString) lines = value)
    /\ (N <= List.length lines -> texts = map Some (firstn N lines)).
Proof.
  intros e value Ht Hr lines N texts.
  assert (T : texts
              = map Some (firstn N lines)
                ++ repeat (Some ""%string) (N - List.length lines)).
  { subst texts. rewrite (set_text_on_runs e value Ht Hr).
    unfold RenameTest._children_tspans.
    cbn [children set_text set_children].
    rewrite distribute_texts, nth_over_seq. reflexivity. }
  rewrite T. split.
  - intros L. rewrite firstn_all2 by exact L.
    split; [reflexivity|apply join_split_char].
  - intros L. replace (N - List.length lines) with 0 by lia.
    apply app_nil_r.
Qed.

Lemma lines_are_kept_up_to_the_number_of_runs_witness :
  map text
    (RenameTest._children_tspans
       (RenameTest._set_text Samples.description_two_runs
          (Samples.lines ["NEW1"; "NEW2"; "NEW3"]%string)))
  = [Some "NEW1"; Some "NEW2"]%string.
Proof.
  assert (N : RenameTest._children_tspans Samples.description_two_runs <> [])
    by discriminate.
  destruct (lines_are_kept_up_to_the_number_of_runs
              Samples.description_two_runs
              (Samples.lines ["NEW1"; "NEW2"; "NEW3"]%string) eq_refl N)
    as [_ H].
  apply H. cbn. lia.
Defined.

(** ** The elements that a write through a group leaves alone *)

Lemma update_path_below :
  forall f p r s,
    get_path (update_path f p r) (p ++ s)
    = match get_path r p with
      | Some n => get_path (f n) s
      | None => None
      end.
Proof.
  intros f p; induction p as [|i p IH]; intros r s; [reflexivity|].
  cbn [app get_path update_path children set_children].
  destruct (nth_error (children r) i) as [c|] eqn:E.
  - rewrite (update_nth_same _ _ _ _ _ E). apply IH.
  - assert (L : nth_error (update_nth (update_path f p) i (children r)) i
                = None).
    { apply nth_error_None. rewrite update_nth_length.
      apply nth_error_None. exact E. }
    rewrite L. reflexivity.
Qed.

Lemma clear_child_below :
  forall c j s,
    get_path (RenameTest.clear_child c) (j :: s) = get_path c (j :: s).
Proof. reflexivity. Qed.

Lemma above_or_not :
  forall p q : path, (exists s, q = p ++ s) \/ ~ Frame.above p q.
Proof.
  induction p as [|i p IH]; intros q.
  - left. exists q. reflexivity.
  - destruct q as [|j q].
    + right. intros (s & E). discriminate E.
    + destruct (Nat.eq_dec i j) as [<-|D].
      * destruct (IH q) as [(s & ->)|N].
        -- left. exists s. reflexivity.
        -- right. intros (s & E). injection E as ->. apply N.
           exists s. reflexivity.
      * right. intros (s & E). injection E as E _. congruence.
Qed.

Lemma get_path_prefix :
  forall e p s n,
    get_path e (p ++ s) = Some n ->
    exists m, get_path e p = Some m /\ get_path m s = Some n.
Proof.
  intros e p s n H. rewrite get_path_app in H.
  destruct (get_path e p) as [m|]; [|discriminate H].
  exists m. split; [reflexivity|exact H].
Qed.

Lemma sparing_refl : forall e, Frame.sparing e e.
Proof. intros e q n H _. exists n. repeat split. exact H. Qed.

Section Sparing.

Variable f : Element -> Element.

Hypothesis f_spares :
  forall x, RenameTest.is_text_or_tspan x = true -> Frame.sparing x (f x).

Lemma sparing_update_path :
  forall elem0 elem p node,
    Frame.clearing elem0 elem ->
    Frame.sparing elem0 elem ->
    get_path elem p = Some node ->
    RenameTest.is_text_or_tspan node = true ->
    Frame.sparing elem0 (update_path f p elem).
Proof.
  intros elem0 elem p node C Sp Hp Ht q n Hq A.
  destruct (Sp q n Hq A) as (n1 & Hn1 & T1 & T2).
  destruct A as [A1 A2].
  destruct (above_or_not p q) as [(s & ->)|N].
  - rewrite update_path_below, Hp.
    destruct (get_path_prefix _ _ _ _ Hn1) as (node' & Hp' & Hs).
    rewrite Hp in Hp'. injection Hp' as <-.
    assert (Tags : forall r m0,
               get_path elem0 (p ++ r) = Some m0 ->
               RenameTest.text_bearing node r
               = RenameTest.text_bearing elem0 (p ++ r)).
    { intros r m0 H0. unfold RenameTest.text_bearing. rewrite H0.
      destruct (C _ _ H0) as (m1 & H1 & Tm & _).
      rewrite get_path_app, Hp in H1. rewrite H1.
      apply is_text_or_tspan_tag. exact Tm. }
    destruct (f_spares node Ht s n1 Hs) as (n' & Hn' & T1' & T2').
    + split.
      * rewrite (Tags s n Hq). exact A1.
      * intros parent i E. subst s.
        rewrite app_assoc in Hq.
        destruct (get_path_prefix _ _ _ _ Hq) as (m0 & H0 & _).
        rewrite (Tags parent m0 H0).
        apply (A2 (p ++ parent) i). apply app_assoc.
    + exists n'. split; [exact Hn'|]. split; congruence.
  - destruct (update_path_frame f p elem q n1 Hn1 N)
      as (n' & Hn' & _ & _ & T1' & T2').
    exists n'. split; [exact Hn'|]. split; congruence.
Qed.

End Sparing.

Lemma apart_is_deep :
  forall x s,
    RenameTest.is_text_or_tspan x = true ->
    Frame.apart_from_text x s ->
    exists i j s', s = i :: j :: s'.
Proof.
  intros x s Hx [A1 A2]. destruct s as [|i [|j s']].
  - unfold RenameTest.text_bearing in A1. cbn in A1. congruence.
  - pose proof (A2 [] i eq_refl) as B.
    unfold RenameTest.text_bearing in B. cbn in B. congruence.
  - exists i, j, s'. reflexivity.
Qed.

Lemma clear_node_spares :
  forall x,
    RenameTest.is_text_or_tspan x = true ->
    Frame.sparing x (RenameTest.clear_node x).
Proof.
  intros x Hx s n Hs A.
  destruct (apart_is_deep x s Hx A) as (i & j & s' & ->).
  exists n. split; [|split; reflexivity].
  cbn [get_path RenameTest.clear_node children set_tail set_children] in *.
  rewrite nth_error_map.
  destruct (nth_error (children x) i) as [c|]; [|discriminate Hs].
  exact Hs.
Qed.

Lemma apply_value_spares :
  forall v x,
    RenameTest.is_text_or_tspan x = true ->
    Frame.sparing x (RenameTest._apply_value_to_node x v).
Proof.
  intros v x Hx s n Hs A.
  destruct (apart_is_deep x s Hx A) as (i & j & s' & ->).
  exists n. split; [|split; reflexivity].
  cbn [get_path RenameTest._apply_value_to_node children set_tail
       set_children] in *.
  rewrite nth_error_map.
  destruct (nth_error (children x) i) as [c|]; [|discriminate Hs].
  exact Hs.
Qed.

Lemma distribute_nth_error :
  forall lines l i0 i c,
    nth_error l i = Some c ->
    exists c',
      nth_error (RenameTest.distribute lines i0 l) i = Some c'
      /\ (RenameTest.is_tspan c = false -> c' = c)
      /\ (RenameTest.is_tspan c = true ->
          exists line,
            c' = set_tail (Some ""%string)
                   (RenameTest._apply_value_to_node c line)).
Proof.
  intros lines l; induction l as [|a r IH]; intros i0 i c H.
  - destruct i; discriminate H.
  - cbn [RenameTest.distribute]. destruct i as [|i].
    + cbn in H. injection H as ->.
      destruct (RenameTest.is_tspan c) eqn:E; eexists;
        (split; [reflexivity|]); split; intros D; try discriminate D;
        [eexists; reflexivity|reflexivity].
    + cbn [nth_error] in H.
      destruct (RenameTest.is_tspan a).
      * cbn [nth_error]. apply IH, H.
      * cbn [nth_error]. apply IH, H.
Qed.

Lemma is_tspan_text_bearing :
  forall c, RenameTest.is_tspan c = true ->
            RenameTest.is_text_or_tspan c = true.
Proof.
  intros c H. unfold RenameTest.is_tspan in H.
  unfold RenameTest.is_text_or_tspan. rewrite H. apply orb_true_r.
Qed.

Lemma set_text_node_spares :
  forall v x,
    RenameTest.is_text_or_tspan x = true ->
    Frame.sparing x (RenameTest.set_text_node x v).
Proof.
  intros v x Hx. unfold RenameTest.set_text_node.
  destruct (String.eqb (RenameTest.localname (tag x)) "tspan");
    [apply apply_value_spares; exact Hx|].
  destruct (String.eqb (RenameTest.localname (tag x)) "text").
  2:{ intros s n Hs A.
      destruct (apart_is_deep x s Hx A) as (i & j & s' & ->).
      exists n. split; [exact Hs|split; reflexivity]. }
  destruct (RenameTest._children_tspans x) as [|r0 rs].
  { intros s n Hs A.
    destruct (apart_is_deep x s Hx A) as (i & j & s' & ->).
    exists n. split; [exact Hs|split; reflexivity]. }
  intros s n Hs A.
  destruct (apart_is_deep x s Hx A) as (i & j & s' & ->).
  destruct A as [A1 A2].
  exists n. split; [|split; reflexivity].
  cbn [get_path children set_text set_children] in *.
  destruct (nth_error (children x) i) as [c|] eqn:Ei; [|discriminate Hs].
  destruct (distribute_nth_error (split_char line_feed v) _ 0 i c Ei)
    as (c' & -> & Hn & Hy).
  destruct (RenameTest.is_tspan c) eqn:Ec.
  - destruct (Hy eq_refl) as [line ->].
    cbn [children set_tail RenameTest._apply_value_to_node set_children].
    rewrite nth_error_map.
    destruct (nth_error (children c) j) as [cj|] eqn:Ej; [|discriminate Hs].
    cbn [option_map].
    destruct s' as [|k s'']; [|exact Hs].
    exfalso.
    pose proof (A2 [i] j eq_refl) as B.
    unfold RenameTest.text_bearing in B. cbn [get_path] in B.
    rewrite Ei in B. rewrite (is_tspan_text_bearing c Ec) in B.
    discriminate B.
  - rewrite (Hn eq_refl). exact Hs.
Qed.

Lemma clear_loop_spares :
  forall except elem0 fuel elem stack elem',
    Frame.clearing elem0 elem ->
    Frame.sparing elem0 elem ->
    RenameTest.clear_loop fuel except elem stack = Some elem' ->
    Frame.sparing elem0 elem'.
Proof.
  intros except elem0 fuel; induction fuel as [|fuel IH];
    intros elem stack elem' C Sp H.
  - destruct stack; [|discriminate H]. injection H as <-. exact Sp.
  - destruct stack as [|p rest]; [injection H as <-; exact Sp|].
    cbn [RenameTest.clear_loop] in H.
    destruct (get_path elem p) as [node|] eqn:Hp; [|discriminate H].
    destruct (match except with
              | Some q => path_eqb p q
              | None => false
              end).
    + exact (IH _ _ _ C Sp H).
    + destruct (RenameTest.is_text_or_tspan node) eqn:Ht.
      * refine (IH _ _ _ _ _ H).
        -- apply (clearing_trans _ elem); [exact C|].
           apply clearing_update_path. exact clearing_clear_node.
        -- apply (sparing_update_path _ clear_node_spares _ _ _ node);
             assumption.
      * exact (IH _ _ _ C Sp H).
Qed.

(** X19.  A write through a group changes the text and the tail of
    [<text>] and [<tspan>] elements and of their children only: every
    other element of the group, and the group itself, keeps its text
    and its tail, so the white space between the elements stays. *)
Theorem group_write_spares_the_other_elements :
  forall (g : Element) (value : string) (q : path) (n : Element),
    RenameTest.localname (tag g) = "g"%string ->
    get_path g q = Some n ->
    RenameTest.text_bearing g q = false ->
    (forall parent i,
       q = parent ++ [i] -> RenameTest.text_bearing g parent = false) ->
    exists n',
      get_path (RenameTest._set_text g value) q = Some n'
      /\ text n' = text n /\ tail n' = tail n.
Proof.
  intros g value q n Hg Hq A1 A2.
  assert (S : Frame.sparing g (RenameTest._set_text g value)).
  { unfold RenameTest._set_text. rewrite Hg. cbn [String.eqb Ascii.eqb].
    change (String.eqb "g" "g") with true. cbv iota.
    destruct (RenameTest._find_text_or_tspan_descendant g) as [target|] eqn:F;
      [|apply sparing_refl].
    destruct (clear_all_text_descendants_blanks g (Some target)) as [C _].
    assert (Sc : Frame.sparing g
                   (RenameTest._clear_all_text_descendants g (Some target))).
    { unfold RenameTest._clear_all_text_descendants.
      destruct (RenameTest.clear_loop (size g) (Some target) g
                  (child_paths [] g)) as [elem'|] eqn:L;
        [|apply sparing_refl].
      apply (clear_loop_spares _ _ _ _ _ _ (clearing_refl g)
               (sparing_refl g) L). }
    rewrite find_descendant_first in F. apply find_some in F.
    destruct F as [_ Hb]. unfold RenameTest.text_bearing in Hb.
    destruct (get_path g target) as [t0|] eqn:Ht0; [|discriminate Hb].
    destruct (C target t0 Ht0) as (t1 & Ht1 & Tt & _).
    apply (sparing_update_path
             (fun e => RenameTest.set_text_node e value)
             (set_text_node_spares value) _ _ _ t1);
      [exact C|exact Sc|exact Ht1|].
    rewrite (is_text_or_tspan_tag t1 t0 Tt). exact Hb. }
  exact (S q n Hq (conj A1 A2)).
Qed.

Lemma group_write_spares_the_other_elements_witness :
  let g :=
    mkElement "g" [] (Some " ") None
      [mkElement "g" [] (Some "  ") (Some " ")
         [mkElement "text" [] (Some "Old") (Some " ") []];
       mkElement "text" [] (Some "Other") None []] in
  exists n',
    get_path (RenameTest._set_text g "New") [0] = Some n'
    /\ text n' = Some "  "%string /\ tail n' = Some " "%string.
Proof.
  intros g.
  refine (group_write_spares_the_other_elements g "New" [0] _
            eq_refl eq_refl eq_refl _).
  intros parent i E.
  destruct parent as [|a [|b r]]; [reflexivity|discriminate E|discriminate E].
Defined.

(** ** The elements that the line splitter leaves alone *)

Local Open Scope list_scope.

Lemma process_all_path :
  forall sel q e n,
    get_path e q = Some n ->
    (forall k m,
       k < List.length q -> get_path e (firstn k q) = Some m ->
       sel m = false) ->
    get_path (FixAffinity.process_all sel e) q
    = Some (FixAffinity.process_all sel n).
Proof.
  intros sel q; induction q as [|i q IH]; intros e n H A.
  - cbn in H. injection H as <-. reflexivity.
  - rewrite process_all_unfold. cbv zeta.
    rewrite (A 0 e) by (cbn; first [lia|reflexivity]).
    cbn [get_path children set_children] in *.
    rewrite nth_error_map.
    destruct (nth_error (children e) i) as [c|] eqn:E; [|discriminate H].
    cbn [option_map]. apply IH; [exact H|].
    intros k m Hk Hm. apply (A (S k) m); [cbn [List.length]; lia|].
    cbn [firstn get_path]. rewrite E. exact Hm.
Qed.

Lemma process_all_unselected :
  forall sel n,
    sel n = false ->
    let n' := FixAffinity.process_all sel n in
    tag n' = tag n /\ attrib n' = attrib n /\ text n' = text n
    /\ tail n' = tail n
    /\ List.length (children n') = List.length (children n).
Proof.
  intros sel n H n'; subst n'. rewrite process_all_unfold. cbv zeta.
  rewrite H. cbn [tag attrib text tail children set_children].
  rewrite length_map. repeat split.
Qed.

(** X20.  [main] leaves the elements outside the [<text>] elements
    alone: an element that is not a [<text>] and does not lie inside one
    is found at the same path in the tree that is written, with its
    tag, its attributes, its text, its tail and its number of
    children. *)
Theorem main_leaves_the_elements_outside_text_alone :
  forall (doc : Element) (q : path) (n : Element),
    get_path doc q = Some n ->
    (forall k m,
       get_path doc (firstn k q) = Some m ->
       FixAffinity.is_any_text m = false) ->
    exists n',
      get_path (FixAffinity.main doc) q = Some n'
      /\ tag n' = tag n /\ attrib n' = attrib n
      /\ text n' = text n /\ tail n' = tail n
      /\ List.length (children n') = List.length (children n).
Proof.
  intros doc q n Hq A.
  assert (Svg : forall m, FixAffinity.is_any_text m = false ->
                          FixAffinity.is_svg_text m = false).
  { intros m Hm. destruct (FixAffinity.is_svg_text m) eqn:E; [|reflexivity].
    rewrite (svg_text_any_text m E) in Hm. discriminate Hm. }
  assert (P1 : forall k m,
             get_path doc (firstn k q) = Some m ->
             get_path (FixAffinity.process_all FixAffinity.is_svg_text doc)
               (firstn k q)
             = Some (FixAffinity.process_all FixAffinity.is_svg_text m)).
  { intros k m Hm. apply process_all_path; [exact Hm|].
    intros j x Hj Hx. apply Svg. apply (A (Nat.min j k)).
    rewrite <- firstn_firstn. exact Hx. }
  set (d1 := FixAffinity.process_all FixAffinity.is_svg_text doc) in *.
  assert (Hn : FixAffinity.is_any_text n = false).
  { apply (A (List.length q)). rewrite firstn_all. exact Hq. }
  assert (Hq1 : get_path d1 q
                = Some (FixAffinity.process_all FixAffinity.is_svg_text n)).
  { rewrite <- (firstn_all q). apply P1. rewrite firstn_all. exact Hq. }
  set (n1 := FixAffinity.process_all FixAffinity.is_svg_text n) in *.
  destruct (process_all_unselected FixAffinity.is_svg_text n (Svg n Hn))
    as (T1 & A1 & X1 & L1 & C1).
  fold n1 in T1, A1, X1, L1, C1.
  assert (Hn1 : FixAffinity.is_any_text n1 = false).
  { rewrite (any_text_tag n1 n T1). exact Hn. }
  assert (A' : forall k m,
             get_path d1 (firstn k q) = Some m ->
             FixAffinity.is_any_text m = false).
  { intros k m Hm.
    assert (V : exists m0, get_path doc (firstn k q) = Some m0).
    { destruct (get_path doc (firstn k q)) as [m0|] eqn:E;
        [exists m0; reflexivity|].
      exfalso. rewrite <- (firstn_skipn k q) in Hq.
      rewrite get_path_app, E in Hq. discriminate Hq. }
    destruct V as [m0 Hm0]. rewrite (P1 k m0 Hm0) in Hm.
    injection Hm as <-.
    rewrite (any_text_tag _ m0 (process_all_tag _ m0)).
    exact (A k m0 Hm0). }
  unfold FixAffinity.main. fold d1.
  destruct q as [|i q].
  - cbn in Hq1. injection Hq1 as Hd. cbn [get_path].
    eexists; split; [reflexivity|].
    cbn [tag attrib text tail children set_children].
    rewrite length_map, Hd. repeat split; assumption.
  - cbn [get_path children set_children] in *.
    rewrite nth_error_map.
    destruct (nth_error (children d1) i) as [c1|] eqn:E;
      [|discriminate Hq1].
    cbn [option_map].
    rewrite (process_all_path FixAffinity.is_any_text q c1 n1 Hq1).
    + destruct (process_all_unselected FixAffinity.is_any_text n1 Hn1)
        as (T2 & A2 & X2 & L2 & C2).
      eexists; split; [reflexivity|].
      repeat split; congruence.
    + intros k m Hk Hm. apply (A' (S k) m).
      cbn [firstn get_path]. rewrite E. exact Hm.
Qed.

Lemma main_leaves_the_elements_outside_text_alone_witness :
  exists n',
    get_path (FixAffinity.main Samples.label) [1] = Some n'
    /\ tag n' = "{http://www.w3.org/2000/svg}g"%string
    /\ List.length (children n') = 1.
Proof.
  assert (A : forall k m,
            get_path Samples.label (firstn k [1]) = Some m ->
            FixAffinity.is_any_text m = false).
  { intros [|[|k]] m H; cbn in H; injection H as <-; reflexivity. }
  destruct (main_leaves_the_elements_outside_text_alone Samples.label [1] _
              eq_refl A) as (n' & Hn' & T & _ & _ & _ & C).
  exists n'. split; [exact Hn'|]. split; [exact T|exact C].
Defined.

(** ** Text elements that both loops take *)

Local Open Scope list_scope.

Lemma process_text_no_marker :
  forall x,
    FixAffinity.has_marker (text (fst (FixAffinity.process_text_node x)))
    = false.
Proof.
  intros x. destruct (FixAffinity.has_marker (text x)) eqn:M.
  - destruct (text x) as [t|] eqn:T; [|discriminate M].
    rewrite (process_text_node_direct x t T M). reflexivity.
  - rewrite (process_text_node_runs x M). cbn [text set_children].
    rewrite sanitize_text. exact M.
Qed.

Lemma stable_style_sanitize :
  forall x,
    Normal.stable_style (attrib x) = true ->
    Normal.stable_style (attrib (FixAffinity.sanitize x)) = true.
Proof.
  intros x H. rewrite sanitize_attrib. unfold Normal.stable_style in *.
  assert (X : String.eqb FixAffinity.xml_space "style" = false)
    by reflexivity.
  destruct (get "style" (attrib x)) as [s|] eqn:S.
  - destruct (truthy s && contains "white-space" s) eqn:G.
    + cbn [negb orb] in H. apply String.eqb_eq in H.
      destruct (negb (String.eqb (FixAffinity.clean_white_space_in_style s) s)).
      * rewrite get_set_same. rewrite !H, String.eqb_refl. apply orb_true_r.
      * rewrite get_set_other by exact X. rewrite S, G.
        cbn [negb orb]. rewrite !H. apply String.eqb_refl.
    + rewrite get_set_other by exact X. rewrite S, G. reflexivity.
  - rewrite get_set_other by exact X. rewrite S. reflexivity.
Qed.

(** One call makes an element stable as soon as its style is. *)
Lemma process_makes_stable :
  forall x,
    Normal.stable_style (attrib x) = true ->
    Normal.stable (fst (FixAffinity.process_text_node x)) = true.
Proof.
  intros x H. unfold Normal.stable.
  rewrite process_attrib, (stable_style_sanitize x H).
  rewrite process_text_no_marker. reflexivity.
Qed.

Section TwoLoops.

Variables sel wide : Element -> bool.

Hypothesis wide_tag : forall a b, tag a = tag b -> wide a = wide b.
Hypothesis sel_wide : forall e, sel e = true -> wide e = true.
Hypothesis wide_tspan : forall e, tag e = "tspan"%string -> wide e = false.

(** After the first loop, the elements that it has taken are stable. *)
Lemma pass_makes_stable :
  forall t,
    Normal.everywhere
      (fun e => negb (wide e) || (sel e && Normal.stable_style (attrib e)))
      t = true ->
    Normal.everywhere (fun e => negb (wide e) || Normal.stable e)
      (FixAffinity.process_all sel t) = true.
Proof.
  induction t as [t IH] using Element_induction. intros H.
  rewrite everywhere_unfold in H. cbv beta in H. apply andb_prop in H.
  destruct H as [Hroot Hkids].
  rewrite process_all_unfold. cbv zeta.
  set (cs := map (FixAffinity.process_all sel) (children t)).
  assert (K : forall c, In c cs ->
                Normal.everywhere
                  (fun e => negb (wide e) || Normal.stable e) c = true).
  { intros c Hc. subst cs. apply in_map_iff in Hc.
    destruct Hc as (y & <- & Hy). rewrite Forall_forall in IH.
    apply (IH y Hy). rewrite forallb_forall in Hkids. apply Hkids, Hy. }
  destruct (sel t) eqn:E.
  - rewrite everywhere_unfold. cbv beta.
    assert (St : Normal.stable
                   (fst (FixAffinity.process_text_node (set_children cs t)))
                 = true).
    { apply process_makes_stable. cbn [attrib set_children].
      rewrite (sel_wide t E) in Hroot. exact Hroot. }
    rewrite St, orb_true_r. cbn [andb].
    apply forallb_forall. intros c Hc.
    apply process_children in Hc. cbn [children set_children] in Hc.
    destruct Hc as [Hc | [Ht Hn]]; [apply K, Hc|].
    rewrite everywhere_unfold, Hn. cbv beta. rewrite (wide_tspan c Ht).
    reflexivity.
  - cbn [andb] in Hroot. rewrite orb_false_r in Hroot.
    rewrite everywhere_unfold. cbv beta. cbn [children set_children].
    rewrite (wide_tag (set_children cs t) t eq_refl), Hroot.
    cbn [orb andb]. apply forallb_forall. exact K.
Qed.

End TwoLoops.

Lemma stable_style_of_stable :
  forall e, Normal.stable e = true -> Normal.stable_style (attrib e) = true.
Proof.
  intros e H. unfold Normal.stable in H. apply andb_prop in H. apply H.
Qed.

Lemma namespaced_main_settles :
  forall doc,
    Normal.namespaced doc = true ->
    Normal.everywhere
      (fun e => negb (FixAffinity.is_svg_text e) || Normal.settled e)
      (FixAffinity.main doc) = true
    /\ forallb
         (Normal.everywhere
            (fun e => negb (FixAffinity.is_any_text e) || Normal.settled e))
         (children (FixAffinity.main doc)) = true.
Proof.
  intros doc H. unfold Normal.namespaced in H. apply andb_prop in H.
  destruct H as [Hroot Hkids]. rewrite forallb_forall in Hkids.
  unfold FixAffinity.main.
  set (d1 := FixAffinity.process_all FixAffinity.is_svg_text doc).
  set (k1 := map (FixAffinity.process_all FixAffinity.is_svg_text)
               (children doc)).
  assert (K1 : forall c, In c k1 ->
                 Normal.everywhere
                   (fun e => negb (FixAffinity.is_any_text e)
                             || Normal.stable e) c = true).
  { intros c Hc. subst k1. apply in_map_iff in Hc.
    destruct Hc as (y & <- & Hy).
    apply (pass_makes_stable FixAffinity.is_svg_text FixAffinity.is_any_text
             any_text_tag svg_text_any_text any_text_tspan y).
    apply (Hkids y Hy). }
  assert (D1 : (negb (FixAffinity.is_svg_text d1) || Normal.settled d1) = true
               /\ forall c, In c (children d1) ->
                    Normal.everywhere
                      (fun e => negb (FixAffinity.is_any_text e)
                                || Normal.stable e) c = true).
  { subst d1. rewrite process_all_unfold. cbv zeta. fold k1.
    destruct (FixAffinity.is_svg_text doc) eqn:E.
    - rewrite (svg_text_any_text doc E) in Hroot. cbn [negb orb] in Hroot.
      assert (Se : Normal.settled
                     (fst (FixAffinity.process_text_node
                             (set_children k1 doc))) = true).
      { apply process_settles. rewrite stable_set_children; [exact Hroot|].
        subst k1. apply (process_all_no_split FixAffinity.is_svg_text
                           svg_text_not_run). }
      split; [rewrite Se; apply orb_true_r|].
      intros c Hc. apply process_children in Hc.
      cbn [children set_children] in Hc.
      destruct Hc as [Hc | [Ht Hn]]; [apply K1, Hc|].
      rewrite everywhere_unfold, Hn. cbv beta.
      rewrite (any_text_tspan c Ht). reflexivity.
    - split.
      + rewrite (svg_text_tag (set_children k1 doc) doc eq_refl), E.
        reflexivity.
      + exact K1. }
  destruct D1 as [R1 C1].
  set (cs := map (FixAffinity.process_all FixAffinity.is_any_text)
               (children d1)).
  assert (K : forall c,
            In c cs ->
            Normal.everywhere
              (fun e => negb (FixAffinity.is_any_text e) || Normal.settled e)
              c = true).
  { intros c Hc. subst cs. apply in_map_iff in Hc.
    destruct Hc as (y & <- & Hy).
    eapply everywhere_weaken;
      [| apply (pass_settles FixAffinity.is_any_text FixAffinity.is_any_text
                  any_text_not_run any_text_tag any_text_tag
                  (fun e h => h) any_text_tspan y (C1 y Hy))].
    intros e He. apply andb_prop in He. apply He. }
  split; [|cbn [children set_children]; apply forallb_forall; exact K].
  rewrite everywhere_unfold. cbv beta. cbn [children set_children].
  rewrite (svg_text_tag (set_children cs d1) d1 eq_refl).
  rewrite settled_set_children
    by (subst cs; apply (process_all_no_split FixAffinity.is_any_text
                           any_text_not_run)).
  rewrite R1. cbn [andb]. apply forallb_forall. intros c Hc.
  eapply everywhere_weaken; [|apply (K c Hc)].
  intros e He. cbv beta in *.
  destruct (FixAffinity.is_svg_text e) eqn:E; [|reflexivity].
  rewrite (svg_text_any_text e E) in He. exact He.
Qed.

(** X21.  In a document whose [<text>] elements below the root all are
    in the SVG namespace, both loops of [main] take each of them, so one
    run settles them even when the marker is in the leading text and in
    a line run at once: with stable styles, a second run gives the same
    tree, and after the first one no [<text>] element below the root
    holds the marker in its leading text or in a line run. *)
Theorem one_run_settles_a_namespaced_document :
  forall doc : Element,
    Normal.namespaced doc = true ->
    FixAffinity.main (FixAffinity.main doc) = FixAffinity.main doc
    /\ forallb
         (Normal.everywhere
            (fun e => negb (FixAffinity.is_any_text e)
                      || (negb (FixAffinity.has_marker (text e))
                          && Normal.no_split (children e))))
         (children (FixAffinity.main doc)) = true.
Proof.
  intros doc H. destruct (namespaced_main_settles doc H) as [H1 H2]. split.
  - apply main_fixed; assumption.
  - apply forallb_forall. intros c Hc. rewrite forallb_forall in H2.
    eapply everywhere_weaken; [|apply (H2 c Hc)].
    intros e He. cbv beta in *.
    destruct (FixAffinity.is_any_text e); [|reflexivity].
    simpl in *. unfold Normal.settled in He.
    apply andb_prop in He. apply He.
Qed.

Lemma one_run_settles_a_namespaced_document_witness :
  Normal.well_behaved Samples.marker_twice_svg = false
  /\ FixAffinity.main (FixAffinity.main Samples.marker_twice_svg)
     = FixAffinity.main Samples.marker_twice_svg.
Proof.
  split; [reflexivity|].
  exact (proj1 (one_run_settles_a_namespaced_document
                  Samples.marker_twice_svg eq_refl)).
Defined.

(** ** A second write *)

Local Open Scope list_scope.

Lemma clear_child_twice :
  forall c, RenameTest.clear_child (RenameTest.clear_child c)
            = RenameTest.clear_child c.
Proof. intros c. reflexivity. Qed.

Lemma apply_value_twice :
  forall c v1 v2,
    RenameTest._apply_value_to_node (RenameTest._apply_value_to_node c v1) v2
    = RenameTest._apply_value_to_node c v2.
Proof.
  intros c v1 v2. unfold RenameTest._apply_value_to_node.
  cbn [set_tail set_children set_text tag attrib text tail children].
  rewrite map_map. reflexivity.
Qed.

Lemma distribute_twice :
  forall l1 l2 cs i1 i2,
    RenameTest.distribute l2 i2 (RenameTest.distribute l1 i1 cs)
    = RenameTest.distribute l2 i2 cs.
Proof.
  intros l1 l2 cs; induction cs as [|c r IH]; intros i1 i2; [reflexivity|].
  cbn [RenameTest.distribute].
  destruct (RenameTest.is_tspan c) eqn:E.
  - cbn [RenameTest.distribute]. rewrite is_tspan_written, E, IH.
    f_equal. unfold RenameTest._apply_value_to_node.
    cbn [set_tail set_children set_text tag attrib text tail children].
    rewrite map_map. reflexivity.
  - cbn [RenameTest.distribute]. rewrite E, IH. reflexivity.
Qed.

Lemma set_text_node_twice :
  forall e v1 v2,
    RenameTest.set_text_node (RenameTest.set_text_node e v1) v2
    = RenameTest.set_text_node e v2.
Proof.
  intros e v1 v2.
  assert (T : tag (RenameTest.set_text_node e v1) = tag e).
  { destruct (skeleton_set_text_node e v1 [] e eq_refl) as (x & Hx & Tx & _).
    cbn in Hx. injection Hx as <-. exact Tx. }
  unfold RenameTest.set_text_node at 1. rewrite T.
  unfold RenameTest.set_text_node.
  destruct (String.eqb (RenameTest.localname (tag e)) "tspan");
    [apply apply_value_twice|].
  destruct (String.eqb (RenameTest.localname (tag e)) "text");
    [|reflexivity].
  unfold RenameTest._children_tspans.
  destruct (filter RenameTest.is_tspan (children e)) as [|c0 r0] eqn:F.
  - cbn [children set_text]. rewrite F. reflexivity.
  - cbn [children set_text set_children].
    pose proof (distribute_tspans_length (split_char line_feed v1)
                  (children e) 0) as L.
    rewrite F in L.
    destruct (filter RenameTest.is_tspan
                (RenameTest.distribute (split_char line_feed v1) 0
                   (children e))); [discriminate L|].
    rewrite distribute_twice. reflexivity.
Qed.

Lemma update_nth_twice :
  forall A (f g : A -> A) l i x,
    nth_error l i = Some x -> g (f x) = g x ->
    update_nth g i (update_nth f i l) = update_nth g i l.
Proof.
  intros A f g l; induction l as [|a r IH]; intros i x H E.
  - destruct i; discriminate H.
  - destruct i as [|i]; cbn in *.
    + injection H as ->. rewrite E. reflexivity.
    + rewrite (IH i x H E). reflexivity.
Qed.

Lemma update_path_twice :
  forall f g p r n,
    get_path r p = Some n -> g (f n) = g n ->
    update_path g p (update_path f p r) = update_path g p r.
Proof.
  intros f g p; induction p as [|i p IH]; intros r n H E.
  - cbn in *. injection H as ->. exact E.
  - cbn [get_path update_path children set_children] in *.
    destruct (nth_error (children r) i) as [c|] eqn:Ec; [|discriminate H].
    unfold set_children. cbn [tag attrib text tail]. f_equal.
    apply (update_nth_twice _ _ _ _ _ c Ec). apply (IH c n H E).
Qed.

(** X22.  The last write wins: after a value has been written to a
    field that is bound to an element other than a group, writing a
    second value gives the tree that writing the second value alone
    gives. *)
Theorem the_last_write_wins :
  forall (root : Element) (field_id v1 v2 : string) (p : path) (n : Element),
    RenameTest._find_by_id root field_id = Some p ->
    get_path root p = Some n ->
    RenameTest.localname (tag n) <> "g"%string ->
    RenameTest.set_text_by_id
      (fst (RenameTest.set_text_by_id root field_id v1)) field_id v2
    = RenameTest.set_text_by_id root field_id v2.
Proof.
  intros root field_id v1 v2 p n F Hn Hg.
  pose proof (skeleton_find_by_id root _ field_id
                (skeleton_set_text_by_id root field_id v1)) as F1.
  unfold RenameTest.set_text_by_id at 1. rewrite F1, F.
  unfold RenameTest.set_text_by_id. rewrite F. cbn [fst]. f_equal.
  apply (update_path_twice _ _ _ _ n Hn).
  apply String.eqb_neq in Hg.
  assert (T : tag (RenameTest.set_text_node n v1) = tag n).
  { destruct (skeleton_set_text_node n v1 [] n eq_refl) as (x & Hx & Tx & _).
    cbn in Hx. injection Hx as <-. exact Tx. }
  unfold RenameTest._set_text. rewrite Hg, T, Hg.
  apply set_text_node_twice.
Qed.

Lemma the_last_write_wins_witness :
  let doc :=
    mkElement "svg" [] None None
      [mkElement "text" [("id", "TITLE")] (Some "Old") None
         [Samples.tspan "a"; Samples.tspan "b"]] in
  RenameTest.set_text_by_id
    (fst (RenameTest.set_text_by_id doc "TITLE"
            (Samples.lines ["one"; "two"]%string))) "TITLE" "three"
  = RenameTest.set_text_by_id doc "TITLE" "three".
Proof.
  intros doc.
  refine (the_last_write_wins doc "TITLE" _ "three" [0] _ eq_refl eq_refl _).
  discriminate.
Defined.

(** ** A style with nothing to clean *)

Local Open Scope string_scope.

Lemma sub_white_space_fixed :
  forall s,
    contains "white-space" s = false -> FixAffinity.sub_white_space 0 s = s.
Proof.
  induction s as [|c t IH]; intros H; [reflexivity|].
  cbn [contains] in H. apply orb_false_elim in H. destruct H as [P C].
  cbn [FixAffinity.sub_white_space].
  rewrite match_white_space_none.
  - rewrite (IH C). reflexivity.
  - rewrite prefix_drop_prefix in P.
    destruct (FixAffinity.drop_prefix "white-space" (String c t));
      [discriminate P|reflexivity].
Qed.

Lemma collapse_fixed :
  forall s,
    contains ";;" s = false -> FixAffinity.collapse_semicolons s = s.
Proof.
  induction s as [|c t IH]; intros H; [reflexivity|].
  cbn [contains] in H. apply orb_false_elim in H. destruct H as [P C].
  cbn [FixAffinity.collapse_semicolons].
  destruct t as [|d u].
  - cbn [prefix]. rewrite andb_false_r. reflexivity.
  - rewrite prefix_cons in P. rewrite prefix_semicolon.
    assert (E : prefix "" u = true) by (destruct u; reflexivity).
    rewrite prefix_cons, E, andb_true_r in P.
    rewrite (Ascii.eqb_sym d), (Ascii.eqb_sym c), P, (IH C). reflexivity.
Qed.

(** X23.  [clean_white_space_in_style] gives back a style that has
    nothing to clean: one in which the text [white-space] does not
    occur, that holds no two semicolons in a row, and that neither
    starts nor ends with white space or a semicolon. *)
Theorem a_clean_style_is_kept :
  forall s : string,
    contains "white-space" s = false ->
    contains ";;" s = false ->
    lstrip is_space s = s ->
    rstrip is_space s = s ->
    lstrip FixAffinity.semicolon_or_blank s = s ->
    rstrip FixAffinity.semicolon_or_blank s = s ->
    FixAffinity.clean_white_space_in_style s = s.
Proof.
  intros s Hw Hd Hl Hr Hl' Hr'. rewrite clean_unfold.
  rewrite (sub_white_space_fixed s Hw), (collapse_fixed s Hd).
  unfold strip, strip_by. rewrite Hl, Hr, Hl', Hr'. reflexivity.
Qed.

Lemma a_clean_style_is_kept_witness :
  FixAffinity.clean_white_space_in_style "fill:red; font-size:10px"
  = "fill:red; font-size:10px".
Proof.
  exact (a_clean_style_is_kept "fill:red; font-size:10px"
           eq_refl eq_refl eq_refl eq_refl eq_refl eq_refl).
Defined.

(** ** The runs made from a leading text *)

Local Open Scope list_scope.

Lemma build_tspans_shape :
  forall lines i bx lh,
    Forall
      (fun r =>
         tag r = "tspan"%string /\ tail r = None /\ children r = []
         /\ get "x" (attrib r) = bx
         /\ forall key,
              key <> "x"%string -> key <> "dy"%string ->
              get key (attrib r) = None)
      (FixAffinity.build_tspans i lines bx lh).
Proof.
  induction lines as [|l r IH]; intros i bx lh; constructor; [|apply IH].
  unfold FixAffinity.new_tspan. cbn [tag tail children attrib].
  split; [reflexivity|split; [reflexivity|split; [reflexivity|]]].
  split.
  - destruct bx as [v|]; [reflexivity|].
    cbn [FixAffinity.opt_attr app]. destruct i; reflexivity.
  - intros key K1 K2.
    apply String.eqb_neq in K1. apply String.eqb_neq in K2.
    destruct bx as [v|]; cbn [FixAffinity.opt_attr app get];
      rewrite 1?(String.eqb_sym "x"), ?K1; destruct i; cbn [get];
      rewrite 1?(String.eqb_sym "dy"), ?K2; reflexivity.
Qed.

(** X24.  When the marker is in the leading text, [process_text_node]
    empties the leading text and appends one run for each piece after
    the children that are there.  Every new run is a [tspan] without a
    namespace, whatever the tag of the text element; it has the first
    [x] of the text element if there is one, no attribute other than
    [x] and [dy], no tail and no child. *)
Theorem leading_text_becomes_plain_tspans :
  forall (el : Element) (t : string),
    text el = Some t ->
    FixAffinity.has_marker (Some t) = true ->
    let el' := fst (FixAffinity.process_text_node el) in
    text el' = None
    /\ exists runs,
         children el' = children el ++ runs
         /\ List.length runs = S (count_marker t)
         /\ Forall
              (fun r =>
                 tag r = "tspan"%string /\ tail r = None /\ children r = []
                 /\ get "x" (attrib r) = FixAffinity.get_text_x el
                 /\ forall key,
                      key <> "x"%string -> key <> "dy"%string ->
                      get key (attrib r) = None)
              runs.
Proof.
  intros el t Ht Hm el'; subst el'.
  rewrite (process_text_node_direct el t Ht Hm).
  split; [reflexivity|].
  rewrite split_into_tspans_children, sanitize_children.
  eexists; split; [reflexivity|].
  split; [rewrite build_tspans_length; apply split_marker_length|].
  apply build_tspans_shape.
Qed.

Lemma leading_text_becomes_plain_tspans_witness :
  let el :=
    mkElement "{http://www.w3.org/2000/svg}text" [("x", " 4 8")]
      (Some (Samples.esc "A" "B")) None [] in
  exists runs,
    children (fst (FixAffinity.process_text_node el)) = runs
    /\ List.length runs = 2
    /\ Forall (fun r => tag r = "tspan"%string
                        /\ get "x" (attrib r) = Some "4"%string) runs.
Proof.
  intros el.
  destruct (leading_text_becomes_plain_tspans el (Samples.esc "A" "B")
              eq_refl eq_refl) as [_ (runs & Hc & Hl & Hf)].
  exists runs. split; [exact Hc|]. split; [exact Hl|].
  eapply Forall_impl; [|exact Hf].
  intros r (T & _ & _ & X & _). split; [exact T|exact X].
Defined.

(** ** A second call of [process_text_node] *)

Local Open Scope list_scope.

(** X25.  On an element with a stable style that does not hold the
    marker both in its leading text and in a line run, a second call of
    [process_text_node] changes nothing and returns [False]. *)
Theorem a_second_call_changes_nothing :
  forall x : Element,
    Normal.stable x = true ->
    let x1 := fst (FixAffinity.process_text_node x) in
    fst (FixAffinity.process_text_node x1) = x1
    /\ snd (FixAffinity.process_text_node x1) = false.
Proof.
  intros x H x1. pose proof (process_settles x H) as S. fold x1 in S.
  split; [apply process_settled; exact S|].
  rewrite process_text_node_flag, existsb_no_split.
  unfold Normal.settled in S. apply andb_prop in S. destruct S as [S _].
  apply andb_prop in S. destruct S as [M N].
  apply negb_true_iff in M. rewrite M, N. reflexivity.
Qed.

Lemma a_second_call_changes_nothing_witness :
  let x1 := fst (FixAffinity.process_text_node Samples.text_10px) in
  snd (FixAffinity.process_text_node Samples.text_10px) = true
  /\ fst (FixAffinity.process_text_node x1) = x1
  /\ snd (FixAffinity.process_text_node x1) = false.
Proof.
  intros x1. split; [reflexivity|].
  exact (a_second_call_changes_nothing Samples.text_10px eq_refl).
Defined.

(** ** The order of the two writes *)

Lemma forest_paths_in :
  forall l p i0 i c x,
    nth_error l i = Some c ->
    In x (subtree_paths (p ++ [i0 + i]) c) ->
    In x (forest_paths p i0 l).
Proof.
  induction l as [|a r IH]; intros p i0 i c x H Hx.
  - destruct i; discriminate H.
  - cbn [forest_paths]. apply in_or_app. destruct i as [|i].
    + cbn in H. injection H as ->. rewrite Nat.add_0_r in Hx.
      left. exact Hx.
    + right. apply (IH p (S i0) i c x H).
      rewrite Nat.add_succ_comm. exact Hx.
Qed.

Lemma subtree_paths_complete :
  forall q e p n,
    get_path e q = Some n -> In (p ++ q) (subtree_paths p e).
Proof.
  induction q as [|i q IH]; intros e p n H.
  - rewrite app_nil_r, subtree_paths_unfold. left. reflexivity.
  - rewrite subtree_paths_unfold. right.
    cbn [get_path] in H.
    destruct (nth_error (children e) i) as [c|] eqn:E; [|discriminate H].
    apply (forest_paths_in _ p 0 i c _ E). cbn [Nat.add].
    replace (p ++ i :: q) with ((p ++ [i]) ++ q)
      by (rewrite <- app_assoc; reflexivity).
    apply (IH c (p ++ [i]) n H).
Qed.

Lemma descendant_paths_complete :
  forall e q n,
    get_path e q = Some n -> q <> [] -> In q (descendant_paths e).
Proof.
  intros e q n H Ne. unfold descendant_paths.
  pose proof (subtree_paths_complete q e [] n H) as I.
  rewrite subtree_paths_unfold in *. cbn [tl app] in *.
  destruct I as [E|I]; [|exact I]. symmetry in E. contradiction.
Qed.

Lemma skeleton_below :
  forall a b p x y,
    Frame.skeleton a b ->
    get_path a p = Some x -> get_path b p = Some y ->
    Frame.skeleton x y.
Proof.
  intros a b p x y S Hx Hy s n Hs.
  assert (H : get_path a (p ++ s) = Some n)
    by (rewrite get_path_app, Hx; exact Hs).
  destruct (S _ _ H) as (n' & Hn' & R).
  rewrite get_path_app, Hy in Hn'. exists n'. split; assumption.
Qed.

Lemma skeleton_text_bearing :
  forall a b q,
    Frame.skeleton a b ->
    get_path a q <> None ->
    RenameTest.text_bearing b q = RenameTest.text_bearing a q.
Proof.
  intros a b q S V. unfold RenameTest.text_bearing.
  destruct (get_path a q) as [n|] eqn:E; [|contradiction].
  destruct (S q n E) as (n' & -> & T & _).
  apply is_text_or_tspan_tag. exact T.
Qed.

Lemma skeleton_inner_search :
  forall a b,
    Frame.skeleton a b ->
    RenameTest._find_text_or_tspan_descendant b
    = RenameTest._find_text_or_tspan_descendant a.
Proof.
  intros a b S. rewrite !find_descendant_first. unfold descendant_paths.
  rewrite (skeleton_subtree_paths a b [] S).
  apply find_ext_in. intros q Hq. apply skeleton_text_bearing; [exact S|].
  apply descendant_paths_valid. exact Hq.
Qed.

Lemma group_write_blanks :
  forall g value target q,
    RenameTest.localname (tag g) = "g"%string ->
    RenameTest._find_text_or_tspan_descendant g = Some target ->
    In q (descendant_paths g) ->
    ~ Frame.above target q ->
    RenameTest.text_bearing g q = true ->
    Frame.blank_at (RenameTest._set_text g value) q.
Proof.
  intros g value target q Hg Hf Hq Hab Ht.
  destruct (clear_all_text_descendants_blanks g (Some target)) as [_ B].
  rewrite (set_text_on_group g value target Hg Hf).
  assert (Hne : Some q <> Some target).
  { intros E. injection E as ->. apply Hab. exists [].
    rewrite app_nil_r. reflexivity. }
  destruct (B q Hq Hne Ht) as (n & Hn & Hx & Hy).
  destruct (update_path_frame
              (fun e => RenameTest.set_text_node e value) target _ q n
              Hn Hab) as (n' & Hn' & _ & _ & Hx' & Hy').
  exists n'. split; [exact Hn'|]. split; congruence.
Qed.

(** X26.  The description is written after the title.  So when
    [DESCRIPTION] is bound to a group, every [<text>] and [<tspan>] of
    that group that does not lie below the one the description goes to
    ends up blank, whatever the title write has put there: a title
    bound to such an element is lost in a run that sets both fields. *)
Theorem the_description_write_comes_last :
  forall (inv : RenameTest.Invocation) (root : Element) (d : string)
         (p : path) (g : Element) (target q : path),
    RenameTest.description inv = Some d ->
    RenameTest._find_by_id root "DESCRIPTION" = Some p ->
    get_path root p = Some g ->
    RenameTest.localname (tag g) = "g"%string ->
    RenameTest._find_text_or_tspan_descendant g = Some target ->
    q <> [] ->
    ~ Frame.above target q ->
    RenameTest.text_bearing g q = true ->
    Frame.blank_at (fst (RenameTest.update_fields inv root)) (p ++ q).
Proof.
  intros inv root d p g target q Hd Hf Hg Htag Hs Hne Hab Hb.
  set (r1 := match RenameTest.title inv with
             | Some t => fst (RenameTest.set_text_by_id root "TITLE" t)
             | None => root
             end).
  assert (U : fst (RenameTest.update_fields inv root)
              = fst (RenameTest.set_text_by_id r1 "DESCRIPTION" d)).
  { unfold RenameTest.update_fields. subst r1. rewrite Hd.
    destruct (RenameTest.title inv) as [t|].
    - destruct (RenameTest.set_text_by_id root "TITLE" t) as [r b].
      cbn [fst].
      destruct (RenameTest.set_text_by_id r "DESCRIPTION" d); reflexivity.
    - destruct (RenameTest.set_text_by_id root "DESCRIPTION" d);
        reflexivity. }
  assert (S : Frame.skeleton root r1).
  { subst r1. destruct (RenameTest.title inv) as [t|];
      [apply skeleton_set_text_by_id|apply skeleton_refl]. }
  rewrite U. unfold RenameTest.set_text_by_id.
  rewrite (skeleton_find_by_id root r1 "DESCRIPTION" S), Hf. cbn [fst].
  destruct (S p g Hg) as (g1 & Hg1 & T1 & _).
  pose proof (skeleton_below _ _ _ _ _ S Hg Hg1) as Sg.
  assert (V : get_path g q <> None).
  { unfold RenameTest.text_bearing in Hb.
    destruct (get_path g q); [discriminate|discriminate Hb]. }
  assert (B : Frame.blank_at (RenameTest._set_text g1 d) q).
  { apply (group_write_blanks g1 d target q).
    - rewrite T1. exact Htag.
    - rewrite (skeleton_inner_search g g1 Sg). exact Hs.
    - destruct (get_path g q) as [n|] eqn:E; [|contradiction].
      destruct (Sg q n E) as (n' & Hn' & _).
      apply (descendant_paths_complete g1 q n' Hn' Hne).
    - exact Hab.
    - rewrite (skeleton_text_bearing g g1 q Sg V). exact Hb. }
  destruct B as (n & Hn & Bt & Bl).
  exists n. split; [|split; assumption].
  rewrite update_path_below, Hg1. exact Hn.
Qed.

Lemma the_description_write_comes_last_witness :
  let doc :=
    mkElement "svg" [] None None
      [mkElement "g" [("id", "DESCRIPTION")] None None
         [mkElement "text" [] (Some "Old description") None [];
          mkElement "text" [("id", "TITLE")] (Some "Old title") None []]] in
  RenameTest._find_by_id doc "TITLE" = Some [0; 1]
  /\ Frame.blank_at
       (fst (RenameTest.update_fields (Samples.both_fields doc) doc)) [0; 1].
Proof.
  intros doc. split; [reflexivity|].
  refine (the_description_write_comes_last (Samples.both_fields doc) doc "D"
            [0] _ [0] [1] eq_refl eq_refl eq_refl eq_refl eq_refl _ _ eq_refl).
  - discriminate.
  - intros (s & E). discriminate E.
Defined.

(** ** The sanitizer on a style with white space and empty
    declarations *)

Local Open Scope string_scope.

Lemma space_is_not_w :
  forall c, is_space c = true -> Ascii.eqb "w" c = false.
Proof.
  intros c; destruct c as [[] [] [] [] [] [] [] []];
    intros H; try reflexivity; discriminate H.
Qed.

Lemma space_is_not_semicolon :
  forall c, is_space c = true -> FixAffinity.not_semicolon c = true.
Proof.
  intros c; destruct c as [[] [] [] [] [] [] [] []];
    intros H; try reflexivity; discriminate H.
Qed.

Lemma sub_white_space_pad :
  forall pad y,
    Style.all_chars is_space pad = true ->
    FixAffinity.sub_white_space 0 (pad ++ y)
    = pad ++ FixAffinity.sub_white_space 0 y.
Proof.
  induction pad as [|c t IH]; intros y H; [reflexivity|].
  cbn [Style.all_chars] in H. apply andb_prop in H. destruct H as [Hc Ht].
  cbn [append FixAffinity.sub_white_space].
  rewrite match_white_space_none.
  - rewrite (IH y Ht). reflexivity.
  - cbn [FixAffinity.drop_prefix]. rewrite (space_is_not_w c Hc).
    reflexivity.
Qed.

Lemma padded_shape :
  forall d,
    Style.padded_white_space_declaration d = true ->
    d = fst (FixAffinity.span is_space d) ++ lstrip is_space d
    /\ Style.all_chars is_space (fst (FixAffinity.span is_space d)) = true
    /\ Style.white_space_declaration (lstrip is_space d) = true.
Proof.
  intros d H. destruct (span_lstrip is_space d) as (w & E & A & S).
  rewrite S. cbn [fst]. split; [exact E|]. split; [exact A|exact H].
Qed.

Lemma residue_nonempty :
  forall d r, Style.residue (d :: r) <> []%list.
Proof.
  intros d r. cbn [Style.residue].
  destruct (Style.padded_white_space_declaration d); [|discriminate].
  destruct (Style.residue r); discriminate.
Qed.

Lemma join_prefix :
  forall sep a h t, join sep ((a ++ h) :: t) = a ++ join sep (h :: t).
Proof.
  intros sep a h [|y r]; [reflexivity|].
  rewrite !join_cons_cons. apply append_assoc.
Qed.

Lemma plain_facts :
  forall d,
    Style.plain_declaration d = true ->
    Style.all_chars FixAffinity.not_semicolon d = true
    /\ contains "white-space" d = false.
Proof.
  intros d H. unfold Style.plain_declaration in H.
  apply andb_prop in H. destruct H as [A C].
  apply negb_true_iff in C. split; assumption.
Qed.

Lemma padded_contains :
  forall d,
    Style.padded_white_space_declaration d = true ->
    contains "white-space" d = true.
Proof.
  intros d H. destruct (padded_shape d H) as (E & _ & W).
  rewrite E. apply contains_append_r.
  apply white_space_declaration_contains. exact W.
Qed.

Lemma padded_not_plain :
  forall d,
    Style.padded_white_space_declaration d = true ->
    Style.plain_declaration d = false.
Proof.
  intros d H. unfold Style.plain_declaration.
  rewrite (padded_contains d H). apply andb_false_r.
Qed.

Lemma clear_cut_cons :
  forall d r,
    Style.clear_cut (d :: r) = true ->
    (Style.padded_white_space_declaration d = true
     \/ (Style.padded_white_space_declaration d = false
         /\ Style.plain_declaration d = true))
    /\ Style.clear_cut r = true.
Proof.
  intros d r H. unfold Style.clear_cut in H. cbn [forallb] in H.
  apply andb_prop in H. destruct H as [Hd Hr]. split; [|exact Hr].
  destruct (Style.padded_white_space_declaration d);
    [left; reflexivity|right; split; [reflexivity|exact Hd]].
Qed.

(** What [re.sub] leaves of the style. *)
Lemma sub_white_space_residue :
  forall ds,
    Style.clear_cut ds = true ->
    FixAffinity.sub_white_space 0 (join ";" ds)
    = join ";" (Style.residue ds).
Proof.
  induction ds as [|d r IH]; intros H; [reflexivity|].
  destruct (clear_cut_cons d r H) as [K Hr]. specialize (IH Hr).
  cbn [Style.residue].
  destruct K as [W|[NW P]].
  - rewrite W. destruct (padded_shape d W) as (E & A & Wd).
    set (pad := fst (FixAffinity.span is_space d)) in *.
    destruct r as [|y r'].
    + cbn [join Style.residue]. rewrite E at 1.
      rewrite (sub_white_space_pad _ _ A).
      rewrite <- (append_empty_r (lstrip is_space d)).
      rewrite (sub_white_space_declaration _ "" Wd) by (left; reflexivity).
      cbn. apply append_empty_r.
    + rewrite join_cons_cons. rewrite E at 1. rewrite append_assoc.
      rewrite (sub_white_space_pad _ _ A).
      rewrite (sub_white_space_declaration _ (";" ++ join ";" (y :: r')) Wd)
        by (right; eexists; reflexivity).
      cbn [append]. rewrite IH.
      pose proof (residue_nonempty y r') as N.
      destruct (Style.residue (y :: r')) as [|h t]; [contradiction|].
      symmetry. apply join_prefix.
  - rewrite NW. destruct (plain_facts d P) as [A C].
    destruct r as [|y r'].
    + cbn [join Style.residue]. rewrite <- (append_empty_r d) at 1.
      rewrite (sub_white_space_other d "" A C) by (left; reflexivity).
      cbn. apply append_empty_r.
    + rewrite join_cons_cons.
      rewrite (sub_white_space_other d (";" ++ join ";" (y :: r')) A C)
        by (right; eexists; reflexivity).
      cbn [append]. rewrite sub_white_space_semicolon, IH.
      pose proof (residue_nonempty y r') as N.
      destruct (Style.residue (y :: r')) as [|h t]; [contradiction|].
      rewrite join_cons_cons. reflexivity.
Qed.

Lemma residue_pieces :
  forall ds,
    Style.clear_cut ds = true ->
    Forall (fun d => Style.all_chars FixAffinity.not_semicolon d = true)
      (Style.residue ds).
Proof.
  induction ds as [|d r IH]; intros H; [constructor|].
  destruct (clear_cut_cons d r H) as [K Hr]. specialize (IH Hr).
  cbn [Style.residue].
  assert (B : forall pad,
            Style.all_chars is_space pad = true ->
            Style.all_chars FixAffinity.not_semicolon pad = true).
  { induction pad as [|c t IHt]; intros Hp; [reflexivity|].
    cbn [Style.all_chars] in *. apply andb_prop in Hp.
    destruct Hp as [Hc Ht]. rewrite (space_is_not_semicolon c Hc).
    exact (IHt Ht). }
  destruct K as [W|[NW P]].
  - rewrite W. destruct (padded_shape d W) as (_ & A & _).
    destruct (Style.residue r) as [|h t].
    + constructor; [exact (B _ A)|constructor].
    + inversion IH as [|? ? Hh Ht]; subst. constructor; [|exact Ht].
      rewrite all_chars_append, (B _ A), Hh. reflexivity.
  - rewrite NW. constructor; [apply (plain_facts d P)|exact IH].
Qed.

Lemma strip_space_first :
  forall c h, is_space c = true -> strip (String c h) = strip h.
Proof.
  intros c h H. unfold strip, strip_by. cbn [lstrip]. rewrite H.
  reflexivity.
Qed.

Lemma strip_pad :
  forall pad h,
    Style.all_chars is_space pad = true -> strip (pad ++ h) = strip h.
Proof.
  intros pad h H. unfold strip, strip_by.
  rewrite (lstrip_all _ _ _ H). reflexivity.
Qed.

Lemma lstrip_empty_all :
  forall p s, Style.all_chars p s = true -> lstrip p s = "".
Proof.
  intros p s; induction s as [|c t IH]; intros H; [reflexivity|].
  cbn [Style.all_chars] in H. apply andb_prop in H. destruct H as [Hc Ht].
  cbn [lstrip]. rewrite Hc. exact (IH Ht).
Qed.

Lemma rstrip_empty_all :
  forall p s, Style.all_chars p s = true -> rstrip p s = "".
Proof.
  intros p s; induction s as [|c t IH]; intros H; [reflexivity|].
  cbn [Style.all_chars] in H. apply andb_prop in H. destruct H as [Hc Ht].
  rewrite rstrip_cons, (IH Ht), Hc. reflexivity.
Qed.

Lemma strip_all_space :
  forall s, Style.all_chars is_space s = true -> strip s = "".
Proof.
  intros s H. unfold strip, strip_by. rewrite (lstrip_empty_all _ _ H).
  reflexivity.
Qed.

Lemma strip_append_space :
  forall x w,
    Style.all_chars is_space w = true -> strip (x ++ w) = strip x.
Proof.
  intros x w H. unfold strip, strip_by.
  destruct (span_lstrip is_space x) as (pre & E & A & _).
  destruct (lstrip is_space x) as [|c r] eqn:L.
  - rewrite E, append_empty_r, (lstrip_all _ _ _ A).
    rewrite (lstrip_empty_all _ _ H). reflexivity.
  - pose proof (lstrip_stops _ _ _ _ L) as Hc.
    rewrite E at 1. rewrite append_assoc, (lstrip_all _ _ _ A).
    change (String c r ++ w) with (String c (r ++ w)).
    rewrite lstrip_fixed by exact Hc.
    change (String c (r ++ w)) with (String c r ++ w).
    apply rstrip_append_drop. apply rstrip_empty_all. exact H.
Qed.

Lemma trimmed_cons :
  forall d l,
    Style.trimmed (d :: l)
    = ((if truthy (strip d) then [strip d] else []) ++ Style.trimmed l)%list.
Proof.
  intros d l. unfold Style.trimmed. cbn [map filter].
  destruct (truthy (strip d)); reflexivity.
Qed.

Lemma trimmed_residue :
  forall ds,
    Style.clear_cut ds = true ->
    Style.trimmed (Style.residue ds)
    = Style.trimmed (filter Style.plain_declaration ds).
Proof.
  induction ds as [|d r IH]; intros H; [reflexivity|].
  destruct (clear_cut_cons d r H) as [K Hr]. specialize (IH Hr).
  cbn [Style.residue filter].
  destruct K as [W|[NW P]].
  - rewrite W, (padded_not_plain d W), <- IH.
    destruct (padded_shape d W) as (_ & A & _).
    destruct (Style.residue r) as [|h t].
    + rewrite trimmed_cons, (strip_all_space _ A). reflexivity.
    + rewrite !trimmed_cons, (strip_pad _ h A). reflexivity.
  - rewrite NW, P, !trimmed_cons, IH. reflexivity.
Qed.

Lemma semicolon_free :
  forall d,
    Style.all_chars FixAffinity.not_semicolon d = true ->
    contains ";" d = false.
Proof.
  induction d as [|c t IH]; intros H; [reflexivity|].
  cbn [Style.all_chars] in H. apply andb_prop in H. destruct H as [Hc Ht].
  cbn [contains]. rewrite (IH Ht), orb_false_r, prefix_cons.
  unfold FixAffinity.not_semicolon in Hc. apply negb_true_iff in Hc.
  rewrite Ascii.eqb_sym, Hc. reflexivity.
Qed.

Lemma declarations_join :
  forall d r,
    Forall (fun x => Style.all_chars FixAffinity.not_semicolon x = true)
      (d :: r) ->
    Style.declarations (join ";" (d :: r)) = (d :: r)%list.
Proof.
  intros d r; revert d; induction r as [|y r IH]; intros d H;
    inversion H as [|? ? Hd Hr]; subst.
  - cbn [join]. apply split_char_clean. apply semicolon_free, Hd.
  - rewrite join_cons_cons. unfold Style.declarations in *.
    change (";" ++ join ";" (y :: r)) with (String ";" (join ";" (y :: r))).
    rewrite split_char_app, (IH y Hr).
    rewrite (split_char_clean _ _ (semicolon_free d Hd)). reflexivity.
Qed.

Lemma declarations_unfold :
  forall s,
    Style.declarations s
    = (hd "" (Style.declarations s) :: tl (Style.declarations s))%list.
Proof.
  intros s. unfold Style.declarations.
  pose proof (split_char_nonempty ";" s) as N.
  destruct (split_char ";" s); [contradiction|reflexivity].
Qed.

Lemma declarations_semicolon :
  forall t,
    Style.declarations (String ";" t) = ("" :: Style.declarations t)%list.
Proof. reflexivity. Qed.

Lemma declarations_other :
  forall c t,
    Ascii.eqb c ";" = false ->
    Style.declarations (String c t)
    = (String c (hd "" (Style.declarations t))
       :: tl (Style.declarations t))%list.
Proof.
  intros c t H. unfold Style.declarations. cbn [split_char]. rewrite H.
  pose proof (split_char_nonempty ";" t) as N.
  destruct (split_char ";" t); [contradiction|reflexivity].
Qed.

Lemma trimmed_declarations :
  forall s,
    Style.trimmed (Style.declarations s)
    = ((if truthy (strip (hd "" (Style.declarations s)))
        then [strip (hd "" (Style.declarations s))] else [])
       ++ Style.trimmed (tl (Style.declarations s)))%list.
Proof.
  intros s. rewrite (declarations_unfold s) at 1. apply trimmed_cons.
Qed.

(** Collapsing the semicolons changes nothing but the empty
    declarations. *)
Lemma collapse_declarations :
  forall s,
    hd "" (Style.declarations (FixAffinity.collapse_semicolons s))
    = hd "" (Style.declarations s)
    /\ Style.trimmed
         (tl (Style.declarations (FixAffinity.collapse_semicolons s)))
       = Style.trimmed (tl (Style.declarations s)).
Proof.
  induction s as [|c t [IH1 IH2]]; [split; reflexivity|].
  cbn [FixAffinity.collapse_semicolons].
  destruct (Ascii.eqb c ";") eqn:E.
  - apply Ascii.eqb_eq in E. subst c.
    destruct (prefix ";" t) eqn:P; cbn [andb].
    + rewrite declarations_semicolon. cbn [hd tl].
      destruct t as [|d u]; [discriminate P|].
      rewrite prefix_semicolon in P. apply Ascii.eqb_eq in P. subst d.
      rewrite declarations_semicolon in *. cbn [hd tl] in *.
      split; [exact IH1|].
      rewrite IH2. rewrite trimmed_cons. reflexivity.
    + rewrite !declarations_semicolon. cbn [hd tl].
      split; [reflexivity|].
      rewrite (trimmed_declarations (FixAffinity.collapse_semicolons t)).
      rewrite (trimmed_declarations t), IH1, IH2. reflexivity.
  - cbn [andb]. rewrite !declarations_other by exact E. cbn [hd tl].
    split; [rewrite IH1; reflexivity|exact IH2].
Qed.

Lemma trimmed_collapse :
  forall s,
    Style.trimmed (Style.declarations (FixAffinity.collapse_semicolons s))
    = Style.trimmed (Style.declarations s).
Proof.
  intros s. destruct (collapse_declarations s) as [H1 H2].
  rewrite (trimmed_declarations (FixAffinity.collapse_semicolons s)).
  rewrite (trimmed_declarations s), H1, H2. reflexivity.
Qed.

Section Edges.

(** The characters that the two calls of [strip] take off. *)
Variable p : ascii -> bool.

Hypothesis p_edge :
  forall c, p c = true -> is_space c = true \/ Ascii.eqb c ";" = true.

Lemma trimmed_first :
  forall c t,
    p c = true ->
    Style.trimmed (Style.declarations (String c t))
    = Style.trimmed (Style.declarations t).
Proof.
  intros c t H. destruct (Ascii.eqb c ";") eqn:E.
  - apply Ascii.eqb_eq in E. subst c.
    rewrite declarations_semicolon, trimmed_cons. reflexivity.
  - destruct (p_edge c H) as [S|S]; [|congruence].
    rewrite (declarations_other c t E), trimmed_cons.
    rewrite (strip_space_first _ _ S). symmetry.
    apply trimmed_declarations.
Qed.

Lemma trimmed_lstrip :
  forall s,
    Style.trimmed (Style.declarations (lstrip p s))
    = Style.trimmed (Style.declarations s).
Proof.
  induction s as [|c t IH]; [reflexivity|].
  cbn [lstrip]. destruct (p c) eqn:H; [|reflexivity].
  rewrite IH. symmetry. apply trimmed_first. exact H.
Qed.

Lemma edge_declarations :
  forall w,
    Style.all_chars p w = true ->
    Forall (fun d => Style.all_chars is_space d = true)
      (Style.declarations w).
Proof.
  induction w as [|c t IH]; intros H; [repeat constructor|].
  cbn [Style.all_chars] in H. apply andb_prop in H. destruct H as [Hc Ht].
  specialize (IH Ht). destruct (Ascii.eqb c ";") eqn:E.
  - apply Ascii.eqb_eq in E. subst c. rewrite declarations_semicolon.
    constructor; [reflexivity|exact IH].
  - destruct (p_edge c Hc) as [S|S]; [|congruence].
    rewrite (declarations_other c t E).
    rewrite (declarations_unfold t) in IH.
    inversion IH as [|? ? Hh Hr]; subst.
    constructor; [|exact Hr]. cbn [Style.all_chars]. rewrite S. exact Hh.
Qed.

Lemma trimmed_blank :
  forall l,
    Forall (fun d => Style.all_chars is_space d = true) l ->
    Style.trimmed l = []%list.
Proof.
  induction l as [|d r IH]; intros H; [reflexivity|].
  inversion H as [|? ? Hd Hr]; subst.
  rewrite trimmed_cons, (strip_all_space d Hd). exact (IH Hr).
Qed.

(** Characters of the edge at the end of a string only add white space
    to its last declaration, or empty declarations after it. *)
Lemma append_edge :
  forall w,
    Style.all_chars p w = true ->
    forall a,
      exists w0,
        Style.all_chars is_space w0 = true
        /\ hd "" (Style.declarations (a ++ w))
           = hd "" (Style.declarations a) ++ w0
        /\ Style.trimmed (tl (Style.declarations (a ++ w)))
           = Style.trimmed (tl (Style.declarations a)).
Proof.
  intros w Hw. pose proof (edge_declarations w Hw) as B.
  induction a as [|c t (w0 & A0 & H1 & H2)].
  - cbn [append]. rewrite (declarations_unfold w) in B.
    inversion B as [|? ? Hh Hr]; subst.
    exists (hd "" (Style.declarations w)). split; [exact Hh|].
    split; [reflexivity|]. apply trimmed_blank. exact Hr.
  - cbn [append]. destruct (Ascii.eqb c ";") eqn:E.
    + apply Ascii.eqb_eq in E. subst c.
      rewrite !declarations_semicolon. cbn [hd tl].
      exists "". split; [reflexivity|]. split; [reflexivity|].
      rewrite (trimmed_declarations (t ++ w)), (trimmed_declarations t).
      rewrite H1, H2, (strip_append_space _ _ A0). reflexivity.
    + rewrite !declarations_other by exact E. cbn [hd tl].
      exists w0. split; [exact A0|]. split; [|exact H2].
      rewrite H1. reflexivity.
Qed.

Lemma trimmed_append_edge :
  forall a w,
    Style.all_chars p w = true ->
    Style.trimmed (Style.declarations (a ++ w))
    = Style.trimmed (Style.declarations a).
Proof.
  intros a w Hw. destruct (append_edge w Hw a) as (w0 & A0 & H1 & H2).
  rewrite (trimmed_declarations (a ++ w)), (trimmed_declarations a).
  rewrite H1, H2, (strip_append_space _ _ A0). reflexivity.
Qed.

Lemma rstrip_parts :
  forall s, exists w, s = rstrip p s ++ w /\ Style.all_chars p w = true.
Proof.
  induction s as [|c t (w & E & A)]; [exists ""; split; reflexivity|].
  rewrite rstrip_cons. destruct (rstrip p t) as [|d u] eqn:R.
  - destruct (p c) eqn:Hc.
    + exists (String c t). split; [reflexivity|].
      cbn [Style.all_chars]. rewrite Hc. cbn [append] in E.
      rewrite E. exact A.
    + exists t. split; [reflexivity|]. cbn [append] in E.
      rewrite E. exact A.
  - exists w. split; [|exact A]. rewrite E at 1. reflexivity.
Qed.

Lemma trimmed_rstrip :
  forall s,
    Style.trimmed (Style.declarations (rstrip p s))
    = Style.trimmed (Style.declarations s).
Proof.
  intros s. destruct (rstrip_parts s) as (w & E & A).
  rewrite E at 2. symmetry. apply trimmed_append_edge. exact A.
Qed.

Lemma trimmed_strip_by :
  forall s,
    Style.trimmed (Style.declarations (strip_by p s))
    = Style.trimmed (Style.declarations s).
Proof.
  intros s. unfold strip_by. rewrite trimmed_rstrip. apply trimmed_lstrip.
Qed.

End Edges.

Lemma space_edge :
  forall c, is_space c = true -> is_space c = true \/ Ascii.eqb c ";" = true.
Proof. intros c H. left. exact H. Qed.

Lemma semicolon_or_blank_edge :
  forall c,
    FixAffinity.semicolon_or_blank c = true ->
    is_space c = true \/ Ascii.eqb c ";" = true.
Proof.
  intros c H. unfold FixAffinity.semicolon_or_blank in H.
  apply orb_prop in H. destruct H as [H|H]; [right; exact H|].
  apply Ascii.eqb_eq in H. subst c. left. reflexivity.
Qed.

(** The declarations of the cleaned style are those that [re.sub]
    leaves. *)
Lemma trimmed_clean :
  forall s,
    Style.trimmed
      (Style.declarations (FixAffinity.clean_white_space_in_style s))
    = Style.trimmed
        (Style.declarations (FixAffinity.sub_white_space 0 s)).
Proof.
  intros s. rewrite clean_unfold.
  rewrite (trimmed_strip_by _ semicolon_or_blank_edge).
  unfold strip. rewrite (trimmed_strip_by _ space_edge).
  apply trimmed_collapse.
Qed.

Lemma tidy_clear_cut :
  forall ds, Style.tidy ds = true -> Style.clear_cut ds = true.
Proof.
  intros ds H. unfold Style.tidy, Style.clear_cut in *.
  rewrite forallb_forall in *. intros d Hd. specialize (H d Hd).
  apply orb_prop in H. destruct H as [W|O].
  - unfold Style.padded_white_space_declaration.
    destruct (white_space_declaration_shape d W) as (w & v & E & _).
    assert (L : lstrip is_space d = d) by (rewrite E; reflexivity).
    rewrite L, W. reflexivity.
  - destruct (other_declaration_facts d O) as (_ & A & C & _).
    unfold Style.plain_declaration. rewrite A, C. apply orb_true_r.
Qed.

(** C7, as the code has it.  Take a style string in which the text
    [white-space] occurs in the declarations of [white-space] only: each
    piece between two semicolons is a declaration of [white-space] with
    a value, with or without white space before it, or a piece in which
    that text does not occur, which may be empty and may have white
    space around it.  The sanitizer removes the declarations of
    [white-space] and only these: the other declarations, taken without
    the white space around them and leaving out the empty ones, are the
    same after the call and in the same order.  No two separators are
    left in a row, and the result neither starts nor ends with a
    separator or a blank.  When no other declaration is empty or has
    white space around it, and none of [white-space] has white space
    before it, the result is, byte for byte, the other declarations
    joined by single semicolons.  When there is a declaration of
    [white-space], the result is the [style] attribute that
    [process_text_node] leaves on the element. *)
Theorem C7_sanitizer_removes_white_space_declarations :
  forall ds : list string,
    Style.clear_cut ds = true ->
    let cleaned := FixAffinity.clean_white_space_in_style (join ";" ds) in
    Style.trimmed (Style.declarations cleaned)
    = Style.trimmed (filter Style.plain_declaration ds)
    /\ contains ";;" cleaned = false
    /\ lstrip FixAffinity.semicolon_or_blank cleaned = cleaned
    /\ rstrip FixAffinity.semicolon_or_blank cleaned = cleaned
    /\ (Style.tidy ds = true ->
        cleaned = join ";" (filter Style.other_declaration ds))
    /\ (forall el,
          get "style" (attrib el) = Some (join ";" ds) ->
          existsb Style.padded_white_space_declaration ds = true ->
          get "style" (attrib (FixAffinity.sanitize el)) = Some cleaned).
Proof.
  intros ds H cleaned.
  assert (T : Style.trimmed (Style.declarations cleaned)
              = Style.trimmed (filter Style.plain_declaration ds)).
  { subst cleaned. rewrite trimmed_clean, (sub_white_space_residue ds H).
    rewrite <- (trimmed_residue ds H).
    pose proof (residue_pieces ds H) as P.
    destruct (Style.residue ds) as [|d r]; [reflexivity|].
    rewrite (declarations_join d r P). reflexivity. }
  assert (Sh : contains ";;" cleaned = false
               /\ lstrip FixAffinity.semicolon_or_blank cleaned = cleaned
               /\ rstrip FixAffinity.semicolon_or_blank cleaned = cleaned).
  { subst cleaned. rewrite clean_unfold.
    split; [|split; apply strip_by_fixed].
    apply contains_strip_by. unfold strip. apply contains_strip_by.
    apply collapse_no_double. }
  destruct Sh as (S1 & S2 & S3).
  split; [exact T|]. split; [exact S1|]. split; [exact S2|].
  split; [exact S3|]. split; [intros Ti; apply clean_tidy; exact Ti|].
  intros el Hs He. apply existsb_exists in He. destruct He as (d & Hd & Hw).
  assert (K : contains "white-space" (join ";" ds) = true).
  { apply (contains_join _ _ _ d Hd). apply padded_contains, Hw. }
  assert (N : truthy (join ";" ds) = true).
  { destruct (join ";" ds); [discriminate K | reflexivity]. }
  unfold FixAffinity.sanitize. rewrite Hs, N, K. cbn [andb].
  fold cleaned. destruct (negb (String.eqb cleaned (join ";" ds))) eqn:E.
  - cbn [attrib set_attrib]. apply get_set_same.
  - cbn [attrib set_attrib].
    rewrite get_set_other by reflexivity. rewrite Hs.
    apply negb_false_iff, String.eqb_eq in E. rewrite E. reflexivity.
Qed.

Lemma C7_sanitizer_removes_white_space_declarations_witness :
  let s := "font-size:12px ; white-space: pre;;fill:red;white-space:x;" in
  Style.trimmed
    (Style.declarations (FixAffinity.clean_white_space_in_style s))
  = ["font-size:12px"; "fill:red"]%list
  /\ contains ";;" (FixAffinity.clean_white_space_in_style s) = false.
Proof.
  intros s.
  destruct (C7_sanitizer_removes_white_space_declarations
              ["font-size:12px "; " white-space: pre"; ""; "fill:red";
               "white-space:x"; ""]%list eq_refl) as (T & D & _).
  split; [exact T|exact D].
Defined.

(** What the sanitizer makes of white space and of empty declarations:
    a trailing separator goes, the white space at the two ends of the
    string goes, and the white space before a declaration that is
    removed stays. *)
Example sanitizer_and_white_space :
  FixAffinity.clean_white_space_in_style "font-size:12px;white-space:pre;"
  = "font-size:12px"
  /\ FixAffinity.clean_white_space_in_style " fill:red;white-space:pre"
     = "fill:red"
  /\ FixAffinity.clean_white_space_in_style "a; white-space:pre; b"
     = "a;  b"
  /\ FixAffinity.clean_white_space_in_style
       "font-size:12px ; white-space: pre;;fill:red;white-space:x;"
     = "font-size:12px ; ;fill:red".
Proof. vm_compute. repeat split. Qed.
